(** * Control.Pioneer: the device-communication task

    A shallow embedding of the Pioneer control task (the [Task] structure of
    namespace [Control::Pioneer]): the two frame dispatchers
    [pioneerMessagesParse] and [pioneerCommandRepliesParse], the command
    driver [sendCommand], the time-sync policy [setPioneerTime], the
    heartbeat consumer, the sender-acceptance predicate of the connectionless
    channel and the translation of version-2 telemetry into bus messages.

    Conventions of the embedding.
    - C++ integers are [Z]; a narrowing conversion is written out where the
      source has one ([to_uint16], [to_uint32], [double_to_int]).
    - [double] wall-clock values are exact rationals ([Q]); the published
      [fp32_t]/[fp64_t] measurements are real numbers ([R]), so rounding is
      idealised away and [Angles::radians] is multiplication by [PI / 180].
    - The task is a record threaded through a state monad whose computations
      either return or raise a [std::exception]; everything the task does to
      the outside (socket writes, logger writes, bus dispatches, log lines)
      is appended, in order, to the [trace] of the task.
    - The headers [Comm.hpp], [Logger.hpp], [ProtocolCommands.hpp],
      [ProtocolMessages.hpp] and [ProtocolPack.hpp] are not among the
      sources: type codes, codecs, the clock and the socket are the fields
      of an environment [Env] over which every theorem quantifies.

    Besides the frame handling, the file embeds the connection lifecycle of
    the task (as the sequence of calls it makes into the channels and the
    loggers), the string utilities of [DUNE::Utils::String] (module
    [DUNE_String]) and the sentence reader of the SW100 driver (module
    [SW100]). *)

From Stdlib Require Import ZArith QArith Qabs Reals Psatz List String Bool
  Ascii Arith.
From Stdlib Require SpecFloat.
Import ListNotations.

Local Open Scope Z_scope.

(** ** Outcomes and the task monad *)

(** A C++ call either returns a value or throws a [std::exception] carrying
    its [what()] text. *)
Inductive outcome (A : Type) : Type :=
| Ret (a : A)
| Raise (what : string).

Arguments Ret {A} a.
Arguments Raise {A} what.

(** ** Integer and clock conversions *)

Definition to_uint16 (z : Z) : Z := z mod 2 ^ 16.
Definition to_uint32 (z : Z) : Z := z mod 2 ^ 32.

(** Two's-complement reading of the low [w] bits. *)
Definition wrap_signed (w : Z) (z : Z) : Z :=
  (z + 2 ^ (w - 1)) mod 2 ^ w - 2 ^ (w - 1).

(** Truncation toward zero, the integral part kept by a C++ conversion from
    [double] to an integer type. *)
Definition Qtrunc (q : Q) : Z := Z.quot (Qnum q) (Zpos (Qden q)).

(** [(intW_t) x] for a [double] [x].  Inside the range of the target type
    this is truncation; outside it C++ leaves the result undefined and the
    embedding keeps the low bits. *)
Definition double_to_int (w : Z) (q : Q) : Z := wrap_signed w (Qtrunc q).

Definition Qltb (a b : Q) : bool := negb (Qle_bool b a).

(** ** Byte buffers *)

(** [buf[i]] on a [uint8_t] array.  A load outside the array is undefined in
    C++; the embedding yields 0 there. *)
Definition byte_at (buf : list Z) (i : Z) : Z :=
  if i <? 0 then 0 else nth (Z.to_nat i) buf 0.

(** The [len] bytes from offset [off]: what [assign(p, p + len)] and
    [write(buf, off, len)] copy. *)
Definition slice (buf : list Z) (off len : Z) : list Z :=
  firstn (Z.to_nat len) (skipn (Z.to_nat off) buf).

(** Writing [bytes] at the start of a reusable buffer. *)
Definition overwrite (bytes old : list Z) : list Z :=
  bytes ++ skipn (List.length bytes) old.

(** ** Task arguments *)

(** [Network::Address]: an IPv4 address as its 32-bit number. *)
Definition Address := Z.

Record Arguments := {
  comm_timeout : Z;
  listen_mode : bool;
  filter_udp_to_tcp_address : bool;
  generate_estimate_state_from_telemetry : bool;
  TCP_port : Z;
  TCP_addr : Address;
  UDP_listen_port : Z;
  log_pioneer_raw : bool;
  log_pioneer_imc : bool;
  set_time_of_vehicle : bool
}.

Inductive LoggerEnum := LOGGER_TELEMETRY | LOGGER_COMMANDS | LOGGER_REPLIES.

(** ** Wire records

    Only the fields the task reads or writes are kept. *)

Record DataVersion1Telemetry := {
  v1_time : Z;
  battery_voltage : Z
}.

Record DataVersion2Telemetry := {
  time : Z;
  rt_clock : Z;
  depth : Z;
  roll : Z;
  pitch : Z;
  yaw : Z;
  temp_water : Z
}.

Record DataVersion2Compasscalibration := {
  progress_thruster : Z
}.

Inductive ReplyVersion2Ack := MkReplyVersion2Ack.
Inductive ReplyVersion2Ping := MkReplyVersion2Ping.

Record ReplyVersion2GetCameraParameters := {
  camera_bitrate : Z
}.

Record CmdVersion1Watchdog := {
  connection_duration : Z
}.

Record CmdVersion2SetSystemTime := {
  unix_timestamp : Z
}.

(** ** Messages published on the bus *)

Record EulerAnglesMsg := {
  euler_time : R;
  euler_phi : R;
  euler_theta : R;
  euler_psi : R;
  euler_psi_magnetic : R
}.

Record EstimatedStateMsg := {
  estate_lat : R;
  estate_lon : R;
  estate_phi : R;
  estate_theta : R;
  estate_psi : R;
  estate_depth : R
}.

Inductive IMCMessage :=
| DevDataBinary (value : list Z)
| Depth (value : R)
| EulerAngles (m : EulerAnglesMsg)
| Temperature (value : R)
| EstimatedState (m : EstimatedStateMsg).

(** ** Observable effects

    [Err], [War] and [Debug] are lines of the task's log; a debug line keeps
    its format and its numeric argument.  [SocketWrite] is a write on the
    socket of the reliable channel, [LoggerWrite] an append to one of the
    raw loggers, [Dispatch] a message put on the bus. *)

Inductive Event :=
| Err (what : string)
| War (text : string)
| Debug (fmt : string) (arg : Z)
| SocketWrite (bytes : list Z)
| LoggerWrite (logger : LoggerEnum) (bytes : list Z)
| Dispatch (m : IMCMessage).

(** ** The task *)

Record Task := {
  m_args : Arguments;
  (** [m_TCP_comm->isConnected()] *)
  tcp_connected : bool;
  m_buf_send : list Z;
  m_start_time : Q;
  m_last_set_time : Q;
  m_watchdog_msg : CmdVersion1Watchdog;
  (** [getSystemId()] *)
  system_id : Z;
  (** how many times [Time::Clock::getSinceEpoch] has been read *)
  ticks : nat;
  (** offsets of the receive buffer loaded by a dispatcher's [switch] *)
  reads : list Z;
  (** effects so far, oldest first *)
  trace : list Event
}.

Definition set_buf_send (b : list Z) (t : Task) : Task :=
  {| m_args := m_args t; tcp_connected := tcp_connected t; m_buf_send := b;
     m_start_time := m_start_time t; m_last_set_time := m_last_set_time t;
     m_watchdog_msg := m_watchdog_msg t; system_id := system_id t;
     ticks := ticks t; reads := reads t; trace := trace t |}.

Definition set_last_set_time (q : Q) (t : Task) : Task :=
  {| m_args := m_args t; tcp_connected := tcp_connected t;
     m_buf_send := m_buf_send t;
     m_start_time := m_start_time t; m_last_set_time := q;
     m_watchdog_msg := m_watchdog_msg t; system_id := system_id t;
     ticks := ticks t; reads := reads t; trace := trace t |}.

Definition set_watchdog_msg (w : CmdVersion1Watchdog) (t : Task) : Task :=
  {| m_args := m_args t; tcp_connected := tcp_connected t;
     m_buf_send := m_buf_send t;
     m_start_time := m_start_time t; m_last_set_time := m_last_set_time t;
     m_watchdog_msg := w; system_id := system_id t;
     ticks := ticks t; reads := reads t; trace := trace t |}.

Definition set_ticks (n : nat) (t : Task) : Task :=
  {| m_args := m_args t; tcp_connected := tcp_connected t;
     m_buf_send := m_buf_send t;
     m_start_time := m_start_time t; m_last_set_time := m_last_set_time t;
     m_watchdog_msg := m_watchdog_msg t; system_id := system_id t;
     ticks := n; reads := reads t; trace := trace t |}.

Definition set_reads (r : list Z) (t : Task) : Task :=
  {| m_args := m_args t; tcp_connected := tcp_connected t;
     m_buf_send := m_buf_send t;
     m_start_time := m_start_time t; m_last_set_time := m_last_set_time t;
     m_watchdog_msg := m_watchdog_msg t; system_id := system_id t;
     ticks := ticks t; reads := r; trace := trace t |}.

Definition set_trace (tr : list Event) (t : Task) : Task :=
  {| m_args := m_args t; tcp_connected := tcp_connected t;
     m_buf_send := m_buf_send t;
     m_start_time := m_start_time t; m_last_set_time := m_last_set_time t;
     m_watchdog_msg := m_watchdog_msg t; system_id := system_id t;
     ticks := ticks t; reads := reads t; trace := tr |}.

(** A member function: runs on the task, returns or throws, and leaves the
    task as it was at that point (effects made before a throw stay made). *)
Definition M (A : Type) : Type := Task -> outcome A * Task.

Definition ret {A} (a : A) : M A := fun t => (Ret a, t).

Definition throw {A} (what : string) : M A := fun t => (Raise what, t).

Definition bind {A B} (m : M A) (k : A -> M B) : M B :=
  fun t =>
    match m t with
    | (Ret a, t') => k a t'
    | (Raise e, t') => (Raise e, t')
    end.

(** [try { m } catch (const std::exception& e) { h e }] *)
Definition try_catch {A} (m : M A) (h : string -> M A) : M A :=
  fun t =>
    match m t with
    | (Ret a, t') => (Ret a, t')
    | (Raise e, t') => h e t'
    end.

(** Lifting the result of a collaborator that may throw. *)
Definition lift {A} (o : outcome A) : M A := fun t => (o, t).

Definition gets {A} (f : Task -> A) : M A := fun t => (Ret (f t), t).

Definition modify (f : Task -> Task) : M unit := fun t => (Ret tt, f t).

Declare Scope task_scope.
Delimit Scope task_scope with task.
Notation "x <- m ;; k" := (bind m (fun x => k))
  (at level 61, m at next level, right associativity) : task_scope.
Notation "m ;; k" := (bind m (fun _ => k))
  (at level 61, right associativity) : task_scope.
Local Open Scope task_scope.

Definition emit (e : Event) : M unit :=
  modify (fun t => set_trace (trace t ++ [e]) t).

Definition err (what : string) : M unit := emit (Err what).
Definition war (text : string) : M unit := emit (War text).
Definition debug (fmt : string) (arg : Z) : M unit := emit (Debug fmt arg).
Definition dispatch (m : IMCMessage) : M unit := emit (Dispatch m).

(** [loggers[l]->write(buf, off, len)] *)
Definition Logger_write (l : LoggerEnum) (buf : list Z) (off len : Z) : M unit :=
  emit (LoggerWrite l (slice buf off len)).

(** [buf[i]] in a dispatcher, with the offset remembered. *)
Definition load (buf : list Z) (i : Z) : M Z :=
  modify (fun t => set_reads (reads t ++ [i]) t) ;;
  ret (byte_at buf i).

(** ** Collaborators outside the task

    [ProtocolPack::Pack::unpack<MsgStruct>(task, buf, startIndex, length, msg)]
    fills [msg] and returns the number of bytes it took; [pack] serialises a
    command into the send buffer and returns its length.  Both may throw. *)

Definition Unpack (MsgStruct : Type) : Type :=
  list Z -> Z -> Z -> outcome (Z * MsgStruct).

Definition Pack (MsgStruct : Type) : Type :=
  MsgStruct -> outcome (list Z).

Record Env := {
  PIONEER_MSG_VERSION_1_TELEMETRY_CODE : Z;
  PIONEER_MSG_VERSION_2_TELEMETRY_CODE : Z;
  PIONEER_MSG_VERSION_2_COMPASS_CALIBRATION_CODE : Z;
  PIONEER_REPLY_VERSION_2_ACK : Z;
  PIONEER_REPLY_VERSION_2_PING : Z;
  PIONEER_REPLY_VERSION_2_GET_CAMERA : Z;
  unpack_DataVersion1Telemetry : Unpack DataVersion1Telemetry;
  unpack_DataVersion2Telemetry : Unpack DataVersion2Telemetry;
  unpack_DataVersion2Compasscalibration : Unpack DataVersion2Compasscalibration;
  unpack_ReplyVersion2Ack : Unpack ReplyVersion2Ack;
  unpack_ReplyVersion2Ping : Unpack ReplyVersion2Ping;
  unpack_ReplyVersion2GetCameraParameters :
    Unpack ReplyVersion2GetCameraParameters;
  pack_CmdVersion1Watchdog : Pack CmdVersion1Watchdog;
  pack_CmdVersion2SetSystemTime : Pack CmdVersion2SetSystemTime;
  (** the value of the [n]-th reading of [Time::Clock::getSinceEpoch] *)
  clock : nat -> Q;
  (** what the socket answers to a write: a byte count or a transport error *)
  socket_write : list Z -> outcome Z
}.

(** Modelled from the spec: [DUNE::Math::Angles::radians] is not among the
    sources; device angles are converted from degrees to radians. *)
Definition radians (x : R) : R := (x * (PI / 180))%R.

Section Pioneer.

Variable E : Env.

Definition getSinceEpoch : M Q :=
  n <- gets ticks ;;
  modify (set_ticks (S n)) ;;
  ret (clock E n).

Definition isConnected : M bool := gets tcp_connected.

(** Modelled from the spec: [TCPComm::sendData] ([Comm.hpp]) is not among the
    sources.  It is a no-op returning zero bytes when the channel is
    Disconnected or the subsystem is in listen-only mode; otherwise it writes
    synchronously and returns the byte count or raises a transport error. *)
Definition TCPComm_sendData (buf : list Z) (len : Z) : M Z :=
  args <- gets m_args ;;
  connected <- isConnected ;;
  if listen_mode args || negb connected then ret 0
  else
    emit (SocketWrite (slice buf 0 len)) ;;
    lift (socket_write E (slice buf 0 len)).

(** [ProtocolPack::Pack::pack(task, msg, m_buf_send)] *)
Definition Pack_pack {MsgStruct} (pk : Pack MsgStruct) (msg : MsgStruct) : M Z :=
  bytes <- lift (pk msg) ;;
  modify (fun t => set_buf_send (overwrite bytes (m_buf_send t)) t) ;;
  ret (Z.of_nat (List.length bytes)).

Definition dispatchAsDevDataBinary (buf : list Z) (off : Z) (length : Z) : M unit :=
  args <- gets m_args ;;
  if negb (log_pioneer_imc args) then ret tt
  else dispatch (DevDataBinary (slice buf off (to_uint16 length))).

(** The body of the [try] block of [sendCommand]; the local [sd] is what the
    block has assigned when it ends. *)
Definition sendCommand_try {MsgStruct} (pk : Pack MsgStruct) (msg : MsgStruct) : M Z :=
  dataLength <- Pack_pack pk msg ;;
  buf <- gets m_buf_send ;;
  sd <- TCPComm_sendData buf dataLength ;;
  (if 0 <? sd then
     debug "Send %d bytes for msg %s" sd ;;
     Logger_write LOGGER_COMMANDS buf 0 dataLength ;;
     dispatchAsDevDataBinary buf 0 dataLength
   else ret tt) ;;
  ret sd.

Definition sendCommand {MsgStruct} (pk : Pack MsgStruct) (msg : MsgStruct) : M Z :=
  args <- gets m_args ;;
  connected <- isConnected ;;
  if listen_mode args || negb connected then ret 0
  else
    try_catch (sendCommand_try pk msg)
              (fun e => err e ;; ret 0).

Definition setPioneerTime (timeFromVehicleMsec : Z) : M unit :=
  args <- gets m_args ;;
  if negb (set_time_of_vehicle args) || listen_mode args then ret tt
  else
    now <- getSinceEpoch ;;
    last <- gets m_last_set_time ;;
    if Qltb (now - last) 5 then ret tt
    else
      time_sec <- getSinceEpoch ;;
      if Qltb 1100 (Qabs (time_sec * 1000 - inject_Z timeFromVehicleMsec))
      then
        stamp <- getSinceEpoch ;;
        let set_system_time := {| unix_timestamp := double_to_int 32 stamp |} in
        war "Setting time for vehicle" ;;
        sd <- sendCommand (pack_CmdVersion2SetSystemTime E) set_system_time ;;
        if 0 <? sd then
          set_at <- getSinceEpoch ;;
          modify (set_last_set_time set_at)
        else ret tt
      else ret tt.

Definition setPioneerTime_V1 (msg : DataVersion1Telemetry) : M unit :=
  setPioneerTime (to_uint32 (v1_time msg)).

Definition setPioneerTime_V2 (msg : DataVersion2Telemetry) : M unit :=
  setPioneerTime (to_uint32 (time msg)).

(** *** Handlers *)

Definition handlePioneerV2ReplyAck (msg : ReplyVersion2Ack) : M unit := ret tt.

Definition handlePioneerV2ReplyPing (msg : ReplyVersion2Ping) : M unit := ret tt.

Definition handlePioneerV2ReplyGetCamera
    (msg : ReplyVersion2GetCameraParameters) : M unit :=
  debug "camera_bitrate %d" (camera_bitrate msg).

Definition handlePioneerV1Telemetry (msg : DataVersion1Telemetry) : M unit :=
  debug "Voltage %u" (battery_voltage msg).

Definition handlePioneerV2Telemetry (msg : DataVersion2Telemetry) : M unit :=
  debug "Depth = %d" (Z.quot (depth msg) 1000) ;;
  dispatch (Depth (IZR (depth msg) / 1000)) ;;
  dispatch (EulerAngles
    {| euler_time := IZR (rt_clock msg);
       euler_phi := radians (IZR (roll msg));
       euler_theta := radians (IZR (pitch msg));
       euler_psi := radians (IZR (yaw msg));
       euler_psi_magnetic := radians (IZR (yaw msg)) |}) ;;
  dispatch (Temperature (IZR (temp_water msg) / 10)) ;;
  args <- gets m_args ;;
  if generate_estimate_state_from_telemetry args then
    dispatch (EstimatedState
      {| estate_lat := radians 41.18478174;
         estate_lon := radians (-8.70657964);
         estate_phi := radians (IZR (roll msg));
         estate_theta := radians (IZR (pitch msg));
         estate_psi := radians (IZR (yaw msg));
         estate_depth := IZR (depth msg) |})
  else ret tt.

Definition handlePioneerV2CompassCalibration
    (msg : DataVersion2Compasscalibration) : M unit :=
  debug "progress_thruster %u" (progress_thruster msg).

(** *** Dispatchers *)

(** The [try] block of [pioneerMessagesParse]. *)
Definition pioneerMessagesParse_try (buf : list Z) (startIndex length : Z) : M Z :=
  hi <- load buf startIndex ;;
  lo <- load buf (startIndex + 1) ;;
  let code := Z.shiftl hi 8 + lo in
  if code =? PIONEER_MSG_VERSION_1_TELEMETRY_CODE E then
    r <- lift (unpack_DataVersion1Telemetry E buf startIndex length) ;;
    let '(rb, msgV1Telm) := r in
    (if 0 <? rb then
       setPioneerTime_V1 msgV1Telm ;;
       dispatchAsDevDataBinary buf startIndex rb ;;
       handlePioneerV1Telemetry msgV1Telm
     else ret tt) ;;
    ret rb
  else if code =? PIONEER_MSG_VERSION_2_TELEMETRY_CODE E then
    r <- lift (unpack_DataVersion2Telemetry E buf startIndex length) ;;
    let '(rb, msgV2Telm) := r in
    (if 0 <? rb then
       setPioneerTime_V2 msgV2Telm ;;
       dispatchAsDevDataBinary buf startIndex rb ;;
       handlePioneerV2Telemetry msgV2Telm
     else ret tt) ;;
    ret rb
  else if code =? PIONEER_MSG_VERSION_2_COMPASS_CALIBRATION_CODE E then
    r <- lift (unpack_DataVersion2Compasscalibration E buf startIndex length) ;;
    let '(rb, msgV2CompassCal) := r in
    (if 0 <? rb then
       dispatchAsDevDataBinary buf startIndex rb ;;
       handlePioneerV2CompassCalibration msgV2CompassCal
     else ret tt) ;;
    ret rb
  else ret 0.

Definition pioneerMessagesParse (buf : list Z) (startIndex length : Z) : M Z :=
  try_catch (pioneerMessagesParse_try buf startIndex length)
            (fun e => err e ;; ret 0).

(** The [try] block of [pioneerCommandRepliesParse]. *)
Definition pioneerCommandRepliesParse_try (buf : list Z) (startIndex length : Z) : M Z :=
  code <- load buf startIndex ;;
  if code =? PIONEER_REPLY_VERSION_2_ACK E then
    r <- lift (unpack_ReplyVersion2Ack E buf startIndex length) ;;
    let '(rb, msgAck) := r in
    (if 0 <? rb then
       dispatchAsDevDataBinary buf startIndex rb ;;
       handlePioneerV2ReplyAck msgAck
     else ret tt) ;;
    ret rb
  else if code =? PIONEER_REPLY_VERSION_2_PING E then
    r <- lift (unpack_ReplyVersion2Ping E buf startIndex length) ;;
    let '(rb, msgPing) := r in
    (if 0 <? rb then
       dispatchAsDevDataBinary buf startIndex rb ;;
       handlePioneerV2ReplyPing msgPing
     else ret tt) ;;
    ret rb
  else if code =? PIONEER_REPLY_VERSION_2_GET_CAMERA E then
    r <- lift (unpack_ReplyVersion2GetCameraParameters E buf startIndex length) ;;
    let '(rb, msgGetCamParams) := r in
    (if 0 <? rb then
       dispatchAsDevDataBinary buf startIndex rb ;;
       handlePioneerV2ReplyGetCamera msgGetCamParams
     else ret tt) ;;
    ret rb
  else ret 0.

Definition pioneerCommandRepliesParse (buf : list Z) (startIndex length : Z) : M Z :=
  try_catch (pioneerCommandRepliesParse_try buf startIndex length)
            (fun e => err e ;; ret 0).

(** *** Callbacks handed to the channels *)

Definition udp_package_acceptance (address : Address) (port : Z) : M bool :=
  args <- gets m_args ;;
  ret (if negb (filter_udp_to_tcp_address args) || (TCP_addr args =? address)
       then true else false).

Definition udp_dataprocessor (buf : list Z) (startIndex length : Z) : M Z :=
  pioneerMessagesParse buf startIndex length.

(** Modelled from the spec: the receive path of [UDPComm] ([Comm.hpp]) is not
    among the sources.  Each datagram is paired with its sender address;
    before dispatch the injected acceptance predicate is evaluated with the
    sender address and port, and if it returns false the datagram is dropped
    silently; otherwise the datagram is handed to the frame handler.  The
    result is [None] for a dropped datagram and the handler's count
    otherwise. *)
Definition UDPComm_receive (datagram : list Z) (sender : Address) (port : Z)
  : M (option Z) :=
  accepted <- udp_package_acceptance sender port ;;
  if accepted then
    rb <- udp_dataprocessor datagram 0 (Z.of_nat (List.length datagram)) ;;
    ret (Some rb)
  else ret None.

(** *** Bus consumers *)

(** [consume] for [IMC::Heartbeat]; [source] is [msg->getSource()]. *)
Definition consume_Heartbeat (source : Z) : M unit :=
  connected <- isConnected ;;
  sys <- gets system_id ;;
  if connected && (source =? sys) then
    now <- getSinceEpoch ;;
    start <- gets m_start_time ;;
    modify (set_watchdog_msg
              {| connection_duration := double_to_int 16 (now - start) |}) ;;
    watchdog <- gets m_watchdog_msg ;;
    sendCommand (pack_CmdVersion1Watchdog E) watchdog ;;
    ret tt
  else ret tt.

End Pioneer.

(** ** A sample environment

    Used to run the task on concrete frames.  Its type codes, codecs, clock
    and socket are sample values standing in for the protocol headers and
    the transport; the theorems quantify over every environment. *)

Module Sample.

(** Modelled from the spec: the codecs of [ProtocolPack.hpp] are not among
    the sources.  A fixed-size codec raises when the declared length exceeds
    the available buffer, refuses (zero bytes) a frame shorter than the
    fixed size of its record, and otherwise returns the record and exactly
    [size] bytes consumed. *)
Definition fixed_unpack {MsgStruct} (size : Z) (msg : MsgStruct) : Unpack MsgStruct :=
  fun buf startIndex length =>
    if Z.of_nat (List.length buf) <? startIndex + length
    then Raise "declared length exceeds the buffer"
    else if length <? size then Ret (0, msg)
    else Ret (size, msg).

Definition telemetry_v1 : DataVersion1Telemetry :=
  {| v1_time := 5000; battery_voltage := 16 |}.

Definition telemetry_v2 : DataVersion2Telemetry :=
  {| time := 5000; rt_clock := 1700000000; depth := 1500; roll := 90;
     pitch := 0; yaw := 180; temp_water := 123 |}.

Definition big_endian_16 (z : Z) : list Z :=
  [Z.shiftr z 8 mod 256; z mod 256].

Definition big_endian_32 (z : Z) : list Z :=
  [Z.shiftr z 24 mod 256; Z.shiftr z 16 mod 256; Z.shiftr z 8 mod 256; z mod 256].

Definition env (clk : nat -> Q) : Env :=
  {| PIONEER_MSG_VERSION_1_TELEMETRY_CODE := 0x0154;
     PIONEER_MSG_VERSION_2_TELEMETRY_CODE := 0x0254;
     PIONEER_MSG_VERSION_2_COMPASS_CALIBRATION_CODE := 0x0243;
     PIONEER_REPLY_VERSION_2_ACK := 0x61;
     PIONEER_REPLY_VERSION_2_PING := 0x70;
     PIONEER_REPLY_VERSION_2_GET_CAMERA := 0x63;
     unpack_DataVersion1Telemetry := fixed_unpack 4 telemetry_v1;
     unpack_DataVersion2Telemetry := fixed_unpack 6 telemetry_v2;
     unpack_DataVersion2Compasscalibration :=
       fixed_unpack 3 {| progress_thruster := 40 |};
     unpack_ReplyVersion2Ack := fixed_unpack 2 MkReplyVersion2Ack;
     unpack_ReplyVersion2Ping := fixed_unpack 1 MkReplyVersion2Ping;
     unpack_ReplyVersion2GetCameraParameters :=
       fixed_unpack 3 {| camera_bitrate := 8000 |};
     pack_CmdVersion1Watchdog :=
       fun w => Ret (0x01 :: 0x57 :: big_endian_16 (connection_duration w));
     pack_CmdVersion2SetSystemTime :=
       fun c => Ret (0x02 :: 0x54 :: big_endian_32 (unix_timestamp c));
     clock := clk;
     socket_write := fun bytes => Ret (Z.of_nat (List.length bytes)) |}.

Definition args : Arguments :=
  {| comm_timeout := 10; listen_mode := false;
     filter_udp_to_tcp_address := false;
     generate_estimate_state_from_telemetry := false;
     TCP_port := 2011; TCP_addr := 0x7F000001; UDP_listen_port := 2010;
     log_pioneer_raw := true; log_pioneer_imc := false;
     set_time_of_vehicle := true |}.

Definition with_listen_mode (b : bool) (a : Arguments) : Arguments :=
  {| comm_timeout := comm_timeout a; listen_mode := b;
     filter_udp_to_tcp_address := filter_udp_to_tcp_address a;
     generate_estimate_state_from_telemetry :=
       generate_estimate_state_from_telemetry a;
     TCP_port := TCP_port a; TCP_addr := TCP_addr a;
     UDP_listen_port := UDP_listen_port a;
     log_pioneer_raw := log_pioneer_raw a;
     log_pioneer_imc := log_pioneer_imc a;
     set_time_of_vehicle := set_time_of_vehicle a |}.

Definition with_filter (b : bool) (a : Arguments) : Arguments :=
  {| comm_timeout := comm_timeout a; listen_mode := listen_mode a;
     filter_udp_to_tcp_address := b;
     generate_estimate_state_from_telemetry :=
       generate_estimate_state_from_telemetry a;
     TCP_port := TCP_port a; TCP_addr := TCP_addr a;
     UDP_listen_port := UDP_listen_port a;
     log_pioneer_raw := log_pioneer_raw a;
     log_pioneer_imc := log_pioneer_imc a;
     set_time_of_vehicle := set_time_of_vehicle a |}.

Definition with_estimate (b : bool) (a : Arguments) : Arguments :=
  {| comm_timeout := comm_timeout a; listen_mode := listen_mode a;
     filter_udp_to_tcp_address := filter_udp_to_tcp_address a;
     generate_estimate_state_from_telemetry := b;
     TCP_port := TCP_port a; TCP_addr := TCP_addr a;
     UDP_listen_port := UDP_listen_port a;
     log_pioneer_raw := log_pioneer_raw a;
     log_pioneer_imc := log_pioneer_imc a;
     set_time_of_vehicle := set_time_of_vehicle a |}.

Definition with_imc (b : bool) (a : Arguments) : Arguments :=
  {| comm_timeout := comm_timeout a; listen_mode := listen_mode a;
     filter_udp_to_tcp_address := filter_udp_to_tcp_address a;
     generate_estimate_state_from_telemetry :=
       generate_estimate_state_from_telemetry a;
     TCP_port := TCP_port a; TCP_addr := TCP_addr a;
     UDP_listen_port := UDP_listen_port a;
     log_pioneer_raw := log_pioneer_raw a;
     log_pioneer_imc := b;
     set_time_of_vehicle := set_time_of_vehicle a |}.

(** A freshly started task: subsystem start at 1000 s, no correction yet. *)
Definition task (a : Arguments) (connected : bool) : Task :=
  {| m_args := a; tcp_connected := connected; m_buf_send := repeat 0 1024%nat;
     m_start_time := 1000; m_last_set_time := 0;
     m_watchdog_msg := {| connection_duration := 0 |};
     system_id := 30; ticks := 0; reads := []; trace := [] |}.

End Sample.

(** ** Classifying effects *)

(** A raw-bytes mirror on the bus. *)
Definition is_mirror (e : Event) : bool :=
  match e with
  | Dispatch (DevDataBinary _) => true
  | _ => false
  end.

(** A translated measurement on the bus. *)
Definition is_publication (e : Event) : bool :=
  match e with
  | Dispatch (DevDataBinary _) => false
  | Dispatch _ => true
  | _ => false
  end.

(** What a record handler may do: debug lines and publications. *)
Definition is_translation (e : Event) : bool :=
  match e with
  | Debug _ _ => true
  | _ => is_publication e
  end.

Definition is_socket_write (e : Event) : bool :=
  match e with
  | SocketWrite _ => true
  | _ => false
  end.

Definition is_logger_write (e : Event) : bool :=
  match e with
  | LoggerWrite _ _ => true
  | _ => false
  end.

(** [st'] is [st] after some effects [new]: configuration, connection state,
    start time and identity are untouched and the trace only grows. *)
Record extends (st st' : Task) (new : list Event) : Prop := {
  ext_args : m_args st' = m_args st;
  ext_connected : tcp_connected st' = tcp_connected st;
  ext_start : m_start_time st' = m_start_time st;
  ext_system : system_id st' = system_id st;
  ext_reads : reads st' = reads st;
  ext_trace : trace st' = trace st ++ new
}.

(** ** Vocabulary of the statements *)

(** What [sendCommand] adds to the trace once the bytes [sent] went to the
    socket and the socket answered [sd]. *)
Definition sent_events (imc : bool) (sent : list Z) (sd : Z) : list Event :=
  SocketWrite sent ::
  (if 0 <? sd then
     Debug "Send %d bytes for msg %s" sd ::
     LoggerWrite LOGGER_COMMANDS sent ::
     (if imc
      then [Dispatch (DevDataBinary
                        (slice sent 0 (to_uint16 (Z.of_nat (List.length sent)))))]
      else [])
   else []).

(** How many times the trace shows bytes going to the socket. *)
Definition socket_writes (tr : list Event) : nat :=
  List.length (filter is_socket_write tr).

(** The type code the telemetry dispatcher switches on. *)
Definition telemetry_code (buf : list Z) (startIndex : Z) : Z :=
  Z.shiftl (byte_at buf startIndex) 8 + byte_at buf (startIndex + 1).

(** The task once the telemetry dispatcher has loaded its two code bytes. *)
Definition telemetry_loaded (startIndex : Z) (st : Task) : Task :=
  set_reads (reads st ++ [startIndex; startIndex + 1]) st.

(** The task once the reply dispatcher has loaded its code byte. *)
Definition reply_loaded (startIndex : Z) (st : Task) : Task :=
  set_reads (reads st ++ [startIndex]) st.

(** The task at the moment the command is handed to [sendCommand]. *)
Definition time_sync_armed (st : Task) : Task :=
  set_trace (trace st ++ [War "Setting time for vehicle"])
            (set_ticks (S (S (S (ticks st)))) st).

Section Vocabulary.

Variable E : Env.

(** The [case] labels of the two dispatchers. *)
Definition telemetry_code_known (code : Z) : bool :=
  (code =? PIONEER_MSG_VERSION_1_TELEMETRY_CODE E)
  || (code =? PIONEER_MSG_VERSION_2_TELEMETRY_CODE E)
  || (code =? PIONEER_MSG_VERSION_2_COMPASS_CALIBRATION_CODE E).

Definition reply_code_known (code : Z) : bool :=
  (code =? PIONEER_REPLY_VERSION_2_ACK E)
  || (code =? PIONEER_REPLY_VERSION_2_PING E)
  || (code =? PIONEER_REPLY_VERSION_2_GET_CAMERA E).

(** The guard of [setPioneerTime], in the order its clock readings are made:
    the first reading is compared with the last correction, the second with
    the device clock. *)
Definition time_sync_due (deviceMillis : Z) (st : Task) : bool :=
  set_time_of_vehicle (m_args st)
  && negb (listen_mode (m_args st))
  && negb (Qltb (clock E (ticks st) - m_last_set_time st) 5)
  && Qltb 1100 (Qabs (clock E (S (ticks st)) * 1000 - inject_Z deviceMillis)).

(** The command built when the guard passes; its timestamp is the third
    clock reading. *)
Definition time_sync_command (st : Task) : CmdVersion2SetSystemTime :=
  {| unix_timestamp := double_to_int 32 (clock E (S (S (ticks st)))) |}.

(** The task after the watchdog instance has been given its new duration. *)
Definition watchdog_refreshed (st : Task) : Task :=
  set_watchdog_msg
    {| connection_duration :=
         double_to_int 16 (clock E (ticks st) - m_start_time st) |}
    (set_ticks (S (ticks st)) st).

End Vocabulary.

Definition mirror_of (imc : bool) (frame : list Z) : list Event :=
  if imc then [Dispatch (DevDataBinary frame)] else [].

(** The effects [new] of a successful dispatch: whatever the time-sync policy
    did ([pre], no publication in it), then the mirror of the frame when the
    structured echo is on, then the handler's debug lines and publications
    ([post]). *)
Definition mirrored_between (imc : bool) (frame : list Z) (new : list Event) : Prop :=
  exists pre post,
    new = pre ++ mirror_of imc frame ++ post /\
    forallb (fun e => negb (is_publication e)) pre = true /\
    forallb is_translation post = true /\
    (imc = false -> forallb (fun e => negb (is_mirror e)) pre = true).

(** The effects [new] of a successful dispatch that involves no time sync:
    the mirror comes first, the handler's effects after it. *)
Definition mirrored_first (imc : bool) (frame : list Z) (new : list Event) : Prop :=
  exists post,
    new = mirror_of imc frame ++ post /\
    forallb is_translation post = true.

(** A handler returns, and only adds debug lines and publications. *)
Definition handler_ok (h : M unit) : Prop :=
  forall st, exists st' new,
    h st = (Ret tt, st') /\ extends st st' new /\
    forallb is_translation new = true.

(** What a call of a dispatcher amounts to, from the task [st0] in which the
    code bytes have been loaded: it returns some count [rb]; configuration and
    connection state are untouched; a positive count means a record was
    decoded and its effects are ordered as [order] says; a count of zero or
    less leaves at most an error line; and with the structured echo off
    nothing is mirrored. *)
Definition dispatch_shape (order : bool -> list Z -> list Event -> Prop)
    (buf : list Z) (startIndex : Z) (st0 : Task)
    (r : outcome Z * Task) : Prop :=
  exists rb new,
    fst r = Ret rb /\
    extends st0 (snd r) new /\
    (0 < rb ->
     order (log_pioneer_imc (m_args st0))
           (slice buf startIndex (to_uint16 rb)) new) /\
    (rb <= 0 -> new = [] \/ exists e, new = [Err e]) /\
    (log_pioneer_imc (m_args st0) = false ->
     forallb (fun e => negb (is_mirror e)) new = true).

(** What [handlePioneerV2Telemetry] publishes for a record. *)
Definition published_depth (msg : DataVersion2Telemetry) : R :=
  (IZR (depth msg) / 1000)%R.

Definition published_euler (msg : DataVersion2Telemetry) : EulerAnglesMsg :=
  {| euler_time := IZR (rt_clock msg);
     euler_phi := radians (IZR (roll msg));
     euler_theta := radians (IZR (pitch msg));
     euler_psi := radians (IZR (yaw msg));
     euler_psi_magnetic := radians (IZR (yaw msg)) |}.

Definition published_temperature (msg : DataVersion2Telemetry) : R :=
  (IZR (temp_water msg) / 10)%R.

Definition published_estimate (msg : DataVersion2Telemetry) : EstimatedStateMsg :=
  {| estate_lat := radians 41.18478174;
     estate_lon := radians (-8.70657964);
     estate_phi := radians (IZR (roll msg));
     estate_theta := radians (IZR (pitch msg));
     estate_psi := radians (IZR (yaw msg));
     estate_depth := IZR (depth msg) |}.

(** The depth expression [(fp32_t) msg.depth / 1000] evaluated in IEEE
    binary32 (24-bit significand, exponents below 128), to compare a
    published value with its real-number idealisation. *)
Definition binary32_of_int (z : Z) : SpecFloat.spec_float :=
  SpecFloat.binary_normalize 24 128 z 0 false.

Definition depth_value_binary32 (raw : Z) : SpecFloat.spec_float :=
  SpecFloat.SFdiv 24 128 (binary32_of_int raw) (binary32_of_int 1000).

(** ** Sample inputs *)

(** A clock that shows 1000 s for its first [readings] readings and 1002 s
    from then on: two frames 2 s apart, the first one taking [readings]
    readings. *)
Definition frames_2s_apart (readings : nat) (n : nat) : Q :=
  if (n <? readings)%nat then 1000 else 1002.

(** A sample version-2 telemetry frame of seven bytes. *)
Definition sample_frame : list Z := [0x02; 0x54; 0; 0; 0; 0; 0].

(** ** The geolocation consumer *)

Record CmdVersion1UserGeoLocation := {
  latitude : R;
  longitude : R
}.

(** The fields of [IMC::EstimatedState] the consumer reads. *)
Record EstimatedStateUpdate := {
  msg_lat : R;
  msg_lon : R;
  msg_x : R;
  msg_y : R
}.

(** The coordinate helpers the consumer calls and the serialiser of its
    command; none of them is among the sources.  [WGS84_displace n e lat lon]
    is the latitude and longitude [WGS84::displace] leaves in its last two
    arguments. *)
Record Geodesy := {
  WGS84_displace : R -> R -> R -> R -> R * R;
  Angles_normalizeRadian : R -> R;
  Angles_degrees : R -> R;
  pack_CmdVersion1UserGeoLocation : Pack CmdVersion1UserGeoLocation
}.

(** [consume] for [IMC::EstimatedState]. *)
Definition consume_EstimatedState (E : Env) (G : Geodesy)
    (msg : EstimatedStateUpdate) : M unit :=
  args <- gets m_args ;;
  if generate_estimate_state_from_telemetry args then ret tt
  else
    let '(latRad, lonRad) :=
      WGS84_displace G (msg_x msg) (msg_y msg) (msg_lat msg) (msg_lon msg) in
    let geo :=
      {| latitude := Angles_degrees G (Angles_normalizeRadian G latRad);
         longitude := Angles_degrees G (Angles_normalizeRadian G lonRad) |} in
    sendCommand E (pack_CmdVersion1UserGeoLocation G) geo ;;
    ret tt.

(** ** Footprints *)

(** [st'] is [st] with a rewritten send buffer and the effects [new] added:
    nothing else of the task differs. *)
Definition sent_from (st st' : Task) (new : list Event) : Prop :=
  exists buf, st' = set_trace (trace st ++ new) (set_buf_send buf st).

(** Effects that leave the machine: socket writes and logger writes. *)
Definition is_outbound (e : Event) : bool :=
  is_socket_write e || is_logger_write e.

(** [st'] is [st] after dispatches that sent nothing: code bytes were
    loaded, the clock may have been read and the trace has grown by effects
    that are neither socket writes nor logger writes; every other field is
    the same. *)
Definition quiet (st st' : Task) : Prop :=
  exists new n r,
    (ticks st <= n)%nat /\
    st' = set_reads r (set_ticks n (set_trace (trace st ++ new) st)) /\
    forallb (fun e => negb (is_outbound e)) new = true.

(** A handler returns and touches nothing but the trace, to which it adds
    debug lines and publications. *)
Definition handler_trace (h : M unit) : Prop :=
  forall st, exists new,
    h st = (Ret tt, set_trace (trace st ++ new) st) /\
    forallb is_translation new = true.

(** The time-sync policy cannot fire from [st] on: the feature is off, or the
    task only listens, or every clock reading still to come lies less than
    5 s after the last correction. *)
Definition time_sync_held (E : Env) (st : Task) : Prop :=
  set_time_of_vehicle (m_args st) = false \/
  listen_mode (m_args st) = true \/
  forall n, (ticks st <= n)%nat ->
            Qltb (clock E n - m_last_set_time st) 5 = true.

(** A datagram as handed to a dispatcher. *)
Record Frame := {
  frame_buf : list Z;
  frame_start : Z;
  frame_length : Z
}.

(** Telemetry frames dispatched one after the other. *)
Definition dispatch_telemetry (E : Env) (frames : list Frame) (st : Task) : Task :=
  fold_left
    (fun t f =>
       snd (pioneerMessagesParse E (frame_buf f) (frame_start f)
              (frame_length f) t))
    frames st.

(** ** Connection lifecycle and logging control

    The lifecycle functions of the task only call into the two channels, the
    raw loggers and the framework.  What they do is the sequence of these
    calls, each of which may throw; the calls made so far are kept in a log,
    oldest first. *)

Inductive EntityStateEnum := ESTA_NORMAL | ESTA_ERROR.
Inductive StatusCode := CODE_ACTIVE | CODE_COM_ERROR.

Inductive Call :=
| Logger_new (logger : LoggerEnum) (name : string)
| TCPComm_new
| UDPComm_new
| TCP_stop
| TCP_join
| TCP_disconnect
| TCP_setTCPAddr (addr : Address)
| TCP_setTCPPort (port : Z)
| TCP_connect
| TCP_start
| TCP_reconnect
| TCP_clear
| UDP_stop
| UDP_join
| UDP_disconnect
| UDP_setUDPPort (port : Z)
| UDP_connect
| UDP_start
| UDP_reconnect
| UDP_clear
| Logger_start (logger : LoggerEnum) (folder : string)
| Logger_stop (logger : LoggerEnum)
| Logger_join (logger : LoggerEnum)
| Logger_delete (logger : LoggerEnum)
| Loggers_clear
| inf_line (text : string)
| war_line (text : string)
| err_line (what : string)
| setEntityState (state : EntityStateEnum) (code : StatusCode).

(** A lifecycle function: runs on the log of calls, returns or throws. *)
Definition Life (A : Type) : Type := list Call -> outcome A * list Call.

Definition life_ret {A} (a : A) : Life A := fun log => (Ret a, log).

Definition life_bind {A B} (m : Life A) (k : A -> Life B) : Life B :=
  fun log =>
    match m log with
    | (Ret a, log') => k a log'
    | (Raise e, log') => (Raise e, log')
    end.

(** [try { m } catch (...) { h }], also used for
    [catch (std::exception& e)], every exception of the embedding being a
    [std::exception]. *)
Definition life_try {A} (m : Life A) (h : string -> Life A) : Life A :=
  fun log =>
    match m log with
    | (Ret a, log') => (Ret a, log')
    | (Raise e, log') => h e log'
    end.

Declare Scope life_scope.
Delimit Scope life_scope with life.
Notation "x <- m ;; k" := (life_bind m (fun x => k))
  (at level 61, m at next level, right associativity) : life_scope.
Notation "m ;; k" := (life_bind m (fun _ => k))
  (at level 61, right associativity) : life_scope.

Section Lifecycle.

Local Open Scope life_scope.

(** Whether the call made when [n] calls are already in the log throws, and
    with which text. *)
Variable throws : nat -> option string.

(** A call into a channel or a logger. *)
Definition call (c : Call) : Life unit :=
  fun log =>
    match throws (List.length log) with
    | Some e => (Raise e, log ++ [c])
    | None => (Ret tt, log ++ [c])
    end.

(** A call into the framework ([inf], [war], [err], [setEntityState],
    releasing memory), which does not throw. *)
Definition note (c : Call) : Life unit := fun log => (Ret tt, log ++ [c]).

Definition closeConnectionTCP (m_TCP_comm : bool) : Life unit :=
  life_try
    ((if m_TCP_comm then call TCP_disconnect else life_ret tt) ;;
     note (inf_line "Pioneer TCP interface disconnected"))
    (fun _ =>
       note (war_line "Disconnection TCP failed") ;;
       note (setEntityState ESTA_NORMAL CODE_COM_ERROR)).

Definition openConnectionTCP (args : Arguments) : Life unit :=
  life_try
    (call TCP_stop ;;
     if negb (listen_mode args) then
       call TCP_disconnect ;;
       call (TCP_setTCPAddr (TCP_addr args)) ;;
       call (TCP_setTCPPort (TCP_port args)) ;;
       call TCP_connect ;;
       call TCP_start ;;
       note (inf_line "Pioneer TCP interface initialized")
     else life_ret tt)
    (fun _ =>
       closeConnectionTCP true ;;
       note (war_line "Connection TCP failed, retrying...") ;;
       note (setEntityState ESTA_NORMAL CODE_COM_ERROR)).

Definition closeConnectionUDP (m_UDP_comm : bool) : Life unit :=
  life_try
    ((if m_UDP_comm then call UDP_disconnect else life_ret tt) ;;
     note (inf_line "Pioneer UDP interface disconnected"))
    (fun _ =>
       note (war_line "Disconnection UDP failed") ;;
       note (setEntityState ESTA_NORMAL CODE_COM_ERROR)).

Definition openConnectionUDP (args : Arguments) : Life unit :=
  life_try
    (call UDP_stop ;;
     call UDP_disconnect ;;
     call (UDP_setUDPPort (UDP_listen_port args)) ;;
     call UDP_connect ;;
     call UDP_start ;;
     note (inf_line "Pioneer UDP interface initialized"))
    (fun _ =>
       closeConnectionUDP true ;;
       note (war_line "Connection UDP failed, retrying...") ;;
       note (setEntityState ESTA_NORMAL CODE_COM_ERROR)).

(** [onResourceAcquisition]: the three loggers and the two channels are
    constructed, then both connections are opened. *)
Definition onResourceAcquisition (args : Arguments) : Life unit :=
  call (Logger_new LOGGER_TELEMETRY "PioneerTelemetry") ;;
  call (Logger_new LOGGER_COMMANDS "PioneerCommands") ;;
  call (Logger_new LOGGER_REPLIES "PioneerReplies") ;;
  call TCPComm_new ;;
  call UDPComm_new ;;
  openConnectionTCP args ;;
  openConnectionUDP args.

(** [onUpdateParameters]; the four booleans are the answers of
    [paramChanged] for the TCP address, the TCP port, the listen mode and the
    UDP listen port. *)
Definition onUpdateParameters (args : Arguments) (m_TCP_comm m_UDP_comm : bool)
    (addr_changed port_changed listen_changed udp_port_changed : bool)
  : Life unit :=
  (if m_TCP_comm && (addr_changed || port_changed || listen_changed) then
     call (TCP_setTCPAddr (TCP_addr args)) ;;
     call (TCP_setTCPPort (TCP_port args)) ;;
     (if listen_mode args then call TCP_disconnect else call TCP_reconnect)
   else life_ret tt) ;;
  (if m_UDP_comm && udp_port_changed then
     call (UDP_setUDPPort (UDP_listen_port args)) ;;
     call UDP_reconnect
   else life_ret tt).

(** The loggers in the order [std::map<int, Logger*>] iterates them. *)
Definition m_loggers : list LoggerEnum :=
  [LOGGER_TELEMETRY; LOGGER_COMMANDS; LOGGER_REPLIES].

(** A range-based [for] over the loggers. *)
Fixpoint for_each (ls : list LoggerEnum) (body : LoggerEnum -> Life unit)
  : Life unit :=
  match ls with
  | [] => life_ret tt
  | l :: rest => body l ;; for_each rest body
  end.

Inductive LoggingControlOp := COP_STARTED | COP_STOPPED | COP_OTHER.

(** [consume] for [IMC::LoggingControl]; [folder] is
    [m_ctx.dir_log / msg->name]. *)
Definition consume_LoggingControl (args : Arguments) (op : LoggingControlOp)
    (folder : string) : Life unit :=
  match op with
  | COP_STARTED =>
      life_try
        (if log_pioneer_raw args
         then for_each m_loggers (fun l => call (Logger_start l folder))
         else life_ret tt)
        (fun e => note (err_line e))
  | COP_STOPPED => for_each m_loggers (fun l => call (Logger_stop l))
  | COP_OTHER => life_ret tt
  end.

(** [onResourceRelease]; the booleans say whether the channel pointers are
    non-null, [loggers] is the content of the logger map. *)
Definition onResourceRelease (m_TCP_comm m_UDP_comm : bool)
    (loggers : list LoggerEnum) : Life unit :=
  (if m_TCP_comm then
     call TCP_stop ;;
     life_try (call TCP_join) (fun _ => life_ret tt) ;;
     note TCP_clear
   else life_ret tt) ;;
  (if m_UDP_comm then
     life_try
       (call UDP_stop ;;
        life_try (call UDP_join) (fun _ => life_ret tt))
       (fun e => note (err_line e)) ;;
     note UDP_clear
   else life_ret tt) ;;
  for_each loggers
    (fun l =>
       life_try
         (call (Logger_stop l) ;;
          life_try (call (Logger_join l)) (fun _ => life_ret tt))
         (fun e => note (err_line e)) ;;
       note (Logger_delete l)) ;;
  note Loggers_clear.

(** The calls [cs] made one after the other, up to the first that throws. *)
Fixpoint call_all (cs : list Call) : Life unit :=
  match cs with
  | [] => life_ret tt
  | c :: rest => call c ;; call_all rest
  end.

End Lifecycle.

(** *** Vocabulary of the statements *)

(** None of the [n] calls made from a log of [base] entries on throws. *)
Definition no_failure (throws : nat -> option string) (base n : nat) : Prop :=
  forall i, (i < n)%nat -> throws (base + i)%nat = None.

(** Of the calls made from a log of [base] entries on, the first [k] return
    and the next one throws [e]. *)
Definition first_failure (throws : nat -> option string) (base k : nat)
    (e : string) : Prop :=
  (forall i, (i < k)%nat -> throws (base + i)%nat = None) /\
  throws (base + k)%nat = Some e.

(** The calls [openConnectionTCP] makes into the channel when none throws. *)
Definition TCP_open_calls (args : Arguments) : list Call :=
  TCP_stop ::
  (if listen_mode args then []
   else [TCP_disconnect; TCP_setTCPAddr (TCP_addr args);
         TCP_setTCPPort (TCP_port args); TCP_connect; TCP_start]).

(** What follows them in the log when none throws. *)
Definition TCP_open_report (args : Arguments) : list Call :=
  if listen_mode args then []
  else [inf_line "Pioneer TCP interface initialized"].

(** The calls [openConnectionUDP] makes into the channel when none throws. *)
Definition UDP_open_calls (args : Arguments) : list Call :=
  [UDP_stop; UDP_disconnect; UDP_setUDPPort (UDP_listen_port args);
   UDP_connect; UDP_start].

(** What [closeConnectionTCP] and [closeConnectionUDP] log after their
    disconnect, which threw or did not. *)
Definition TCP_close_report (thrown : option string) : list Call :=
  match thrown with
  | None => [inf_line "Pioneer TCP interface disconnected"]
  | Some _ => [war_line "Disconnection TCP failed";
               setEntityState ESTA_NORMAL CODE_COM_ERROR]
  end.

Definition UDP_close_report (thrown : option string) : list Call :=
  match thrown with
  | None => [inf_line "Pioneer UDP interface disconnected"]
  | Some _ => [war_line "Disconnection UDP failed";
               setEntityState ESTA_NORMAL CODE_COM_ERROR]
  end.

(** The objects [onResourceAcquisition] constructs, in order. *)
Definition acquisition_calls : list Call :=
  [Logger_new LOGGER_TELEMETRY "PioneerTelemetry";
   Logger_new LOGGER_COMMANDS "PioneerCommands";
   Logger_new LOGGER_REPLIES "PioneerReplies";
   TCPComm_new; UDPComm_new].

(** The calls [onUpdateParameters] makes when none throws. *)
Definition update_calls (args : Arguments) (m_TCP_comm m_UDP_comm : bool)
    (addr_changed port_changed listen_changed udp_port_changed : bool)
  : list Call :=
  (if m_TCP_comm && (addr_changed || port_changed || listen_changed) then
     [TCP_setTCPAddr (TCP_addr args); TCP_setTCPPort (TCP_port args);
      if listen_mode args then TCP_disconnect else TCP_reconnect]
   else []) ++
  (if m_UDP_comm && udp_port_changed then
     [UDP_setUDPPort (UDP_listen_port args); UDP_reconnect]
   else []).

(** Calls into the reliable channel. *)
Definition is_tcp_call (c : Call) : bool :=
  match c with
  | TCPComm_new | TCP_stop | TCP_join | TCP_disconnect | TCP_setTCPAddr _
  | TCP_setTCPPort _ | TCP_connect | TCP_start | TCP_reconnect
  | TCP_clear => true
  | _ => false
  end.

(** ** DUNE.Utils.String

    The string utilities, over [std::string] as a list of characters.
    Offsets are natural numbers and [npos] is [None].  Where the C++ leaves
    the result undefined (an index before the start of a string) or where
    [sscanf] is not followed, the function of the embedding answers [None]. *)

Module DUNE_String.

Local Open Scope nat_scope.

Definition BLANK_CHARACTERS : list ascii := [" "; "010"; "013"; "009"]%char.

Definition char_in (c : ascii) (chars : list ascii) : bool :=
  existsb (Ascii.eqb c) chars.

Arguments char_in : simpl never.

Fixpoint find_first_not_of (chars s : list ascii) : option nat :=
  match s with
  | [] => None
  | c :: s' =>
      if char_in c chars then option_map S (find_first_not_of chars s')
      else Some 0
  end.

Fixpoint find_last_not_of (chars s : list ascii) : option nat :=
  match s with
  | [] => None
  | c :: s' =>
      match find_last_not_of chars s' with
      | Some k => Some (S k)
      | None => if char_in c chars then None else Some 0
      end
  end.

Definition ltrim (s : list ascii) : list ascii :=
  match find_first_not_of BLANK_CHARACTERS s with
  | Some first => skipn first s
  | None => []
  end.

Definition rtrim (s : list ascii) : list ascii :=
  match find_last_not_of BLANK_CHARACTERS s with
  | Some last => firstn (last + 1) s
  | None => []
  end.

Definition trim (s : list ascii) : list ascii := rtrim (ltrim s).

(** [s[i]] on a [std::string]; reading at [size()] yields the terminator. *)
Definition char_at (s : list ascii) (i : nat) : ascii := nth i s zero.

(** The [for] loop of [startsWith], [n] iterations left from index [i]. *)
Fixpoint startsWith_loop (str prefix : list ascii) (i n : nat) : bool :=
  match n with
  | O => true
  | S n' =>
      if negb (Ascii.eqb (char_at prefix i) (char_at str i)) then false
      else startsWith_loop str prefix (S i) n'
  end.

Definition startsWith (str prefix : list ascii) : bool :=
  if List.length str <? List.length prefix then false
  else startsWith_loop str prefix 0 (List.length prefix).

(** [std::string::compare]-style match of [needle] at the head of [s]. *)
Fixpoint matches_at_head (needle s : list ascii) : bool :=
  match needle, s with
  | [], _ => true
  | a :: needle', b :: s' => Ascii.eqb a b && matches_at_head needle' s'
  | _ :: _, [] => false
  end.

(** [s.find(needle, pos)] where [s] is what follows offset [pos]. *)
Fixpoint find_in_tail (needle tail : list ascii) (pos : nat) : option nat :=
  if matches_at_head needle tail then Some pos
  else match tail with
       | [] => None
       | _ :: tail' => find_in_tail needle tail' (S pos)
       end.

(** [s.find(needle, pos)]: lowest offset at or after [pos] where [needle]
    occurs, [None] for [npos]. *)
Definition find (s needle : list ascii) (pos : nat) : option nat :=
  if List.length s <? pos then None
  else find_in_tail needle (skipn pos s) pos.

Definition getRemaining (prefix str : list ascii) : list ascii :=
  match find str prefix 0 with
  | None => str
  | Some pre_idx =>
      let rem_idx := pre_idx + List.length prefix in
      skipn rem_idx str
  end.

Definition escape_char (c : ascii) : list ascii :=
  if Ascii.eqb c "010" then ["\"; "n"]%char
  else if Ascii.eqb c "013" then ["\"; "r"]%char
  else if Ascii.eqb c "009" then ["\"; "t"]%char
  else [c].

Fixpoint escape (input : list ascii) : list ascii :=
  match input with
  | [] => []
  | c :: rest => escape_char c ++ escape rest
  end.

Definition outcome_map {A B} (f : A -> B) (o : outcome A) : outcome B :=
  match o with
  | Ret a => Ret (f a)
  | Raise e => Raise e
  end.

Fixpoint unescape (input : list ascii) (unescape_all : bool) : outcome (list ascii) :=
  match input with
  | [] => Ret []
  | c :: rest =>
      if Ascii.eqb c "\" then
        match rest with
        | [] => Raise "invalid escape sequence"
        | d :: rest' =>
            let out :=
              if Ascii.eqb d "\" then
                (if negb unescape_all then ["\"%char] else []) ++ ["\"%char]
              else if Ascii.eqb d "n" then ["010"%char]
              else if Ascii.eqb d "t" then ["009"%char]
              else if Ascii.eqb d "r" then ["013"%char]
              else (if negb unescape_all then ["\"%char] else []) ++ [d] in
            outcome_map (app out) (unescape rest' unescape_all)
        end
      else outcome_map (cons c) (unescape rest unescape_all)
  end.

Definition replaceWhiteSpace (str : list ascii) (rep : ascii) : list ascii :=
  map (fun c => if Ascii.eqb c " " || Ascii.eqb c "009" then rep else c) str.

(** The digit [printf("%X")] prints for a value below 16. *)
Definition hex_digit (n : nat) : ascii :=
  nth n ["0"; "1"; "2"; "3"; "4"; "5"; "6"; "7"; "8"; "9";
         "A"; "B"; "C"; "D"; "E"; "F"]%char "0"%char.

(** [format(bfr, 3, "%02X", (uint8_t) c)]: the two characters put in [bfr]. *)
Definition format_02X (c : ascii) : list ascii :=
  [hex_digit (nat_of_ascii c / 16); hex_digit (nat_of_ascii c mod 16)].

Fixpoint toHex (str : list ascii) : list ascii :=
  match str with
  | [] => []
  | c :: rest => format_02X c ++ toHex rest
  end.

(** The value of a hexadecimal digit, either case. *)
Definition hex_value (c : ascii) : option nat :=
  let n := nat_of_ascii c in
  if (48 <=? n) && (n <=? 57) then Some (n - 48)
  else if (65 <=? n) && (n <=? 70) then Some (n - 55)
  else if (97 <=? n) && (n <=? 102) then Some (n - 87)
  else None.

(** [sscanf(p, "%02X", &c)] on text that starts with two hexadecimal digits
    stores their value.  On any other text (blanks, a sign, a [0x] prefix, a
    single digit, no digit at all) the embedding does not follow [sscanf]
    and answers [None]. *)
Definition sscanf_02X (p : list ascii) : option nat :=
  match p with
  | h :: l :: _ =>
      match hex_value h, hex_value l with
      | Some a, Some b => Some (16 * a + b)
      | _, _ => None
      end
  | _ => None
  end.

(** The loop of [fromHex] over what is left of the text, two characters at a
    time. *)
Fixpoint fromHex_loop (p : list ascii) : option (list ascii) :=
  match p with
  | h :: l :: rest =>
      match sscanf_02X p, fromHex_loop rest with
      | Some c, Some result => Some (ascii_of_nat c :: result)
      | _, _ => None
      end
  | _ => Some []
  end.

Definition fromHex (str : list ascii) : option (list ascii) :=
  if negb (List.length str mod 2 =? 0) then Some []
  else fromHex_loop str.

Definition last_char (result : list ascii) : option ascii :=
  match result with
  | [] => None
  | _ => Some (last result zero)
  end.

Fixpoint filterDuplicates_loop (element : ascii) (subject result : list ascii)
  : option (list ascii) :=
  match subject with
  | [] => Some result
  | c :: rest =>
      if Ascii.eqb c element then
        match last_char result with
        | None => None
        | Some l =>
            if negb (Ascii.eqb c l)
            then filterDuplicates_loop element rest (result ++ [c])
            else filterDuplicates_loop element rest result
        end
      else filterDuplicates_loop element rest (result ++ [c])
  end.

Definition filterDuplicates (element : ascii) (subject : list ascii)
  : option (list ascii) :=
  filterDuplicates_loop element subject [].


(** [lst] after the [while] loop of [split], entered with index [old_i], and
    how the loop ended: it returns after the piece that follows the last
    separator, and [substr] throws [std::out_of_range] when [old_i] lies
    beyond the end of [s].  [None] when [fuel] iterations were not enough. *)
Fixpoint split_loop (fuel : nat) (s sep : list ascii) (old_i : nat)
    (lst : list (list ascii)) : option (outcome unit * list (list ascii)) :=
  match fuel with
  | O => None
  | S fuel' =>
      let new_i := find s sep old_i in
      if List.length s <? old_i then Some (Raise "basic_string::substr", lst)
      else
        let piece :=
          match new_i with
          | Some n => firstn (n - old_i) (skipn old_i s)
          | None => skipn old_i s
          end in
        let lst' := lst ++ [trim piece] in
        match new_i with
        | None => Some (Ret tt, lst')
        | Some n => split_loop fuel' s sep (n + 1) lst'
        end
  end.

Definition split (s sep : list ascii) (lst : list (list ascii))
  : option (outcome unit * list (list ascii)) :=
  match trim s with
  | [] => Some (Ret tt, lst)
  | _ :: _ => split_loop (List.length s + 2) s sep 0 lst
  end.

(** *** Vocabulary of the statements *)

Definition is_blank (c : ascii) : bool := char_in c BLANK_CHARACTERS.

Definition occurs_at (needle s : list ascii) (k : nat) : Prop :=
  exists a b, s = a ++ needle ++ b /\ List.length a = k.

Definition backslash : ascii := "\"%char.

(** Collapsing runs of [e], knowing the character [prev] that came before. *)
Fixpoint collapse_after (e prev : ascii) (s : list ascii) : list ascii :=
  match s with
  | [] => []
  | c :: rest =>
      if Ascii.eqb c e && Ascii.eqb prev e then collapse_after e c rest
      else c :: collapse_after e c rest
  end.

Definition neq_char (e c : ascii) : bool := negb (Ascii.eqb c e).

(** The fields of [s] between occurrences of the character [c]. *)
Fixpoint fields (c : ascii) (s : list ascii) : list (list ascii) :=
  match s with
  | [] => [[]]
  | a :: s' =>
      if Ascii.eqb a c then [] :: fields c s'
      else match fields c s' with
           | f :: fs => (a :: f) :: fs
           | [] => [[a]]
           end
  end.

End DUNE_String.

(** ** Sensors.SW100: the sentence reader of the driver

    [Driver::read] takes the bytes one read of the serial stream delivered
    and assembles them into sentences ended by a carriage return, each
    complete sentence being scanned by [sscanf] with the format prepared by
    [setup]. *)

Module SW100.

Local Open Scope Z_scope.

Section Driver.

(** The four values of [m_data]. *)
Variable Data : Type.

(** [std::sscanf(m_sentence, m_expr, &m_data[0], .., &m_data[3])]: the text
    up to the terminator, the format and the array before the call give the
    number of values converted and the array after the call. *)
Variable sscanf4 : list ascii -> list ascii -> Data -> Z * Data.

Record Driver := {
  m_sentence : list ascii;
  m_sentence_idx : Z;
  m_expr : list ascii;
  m_data : Data
}.

(** [a[i] = v] on a [char] array; outside the array the write is undefined. *)
Definition store (a : list ascii) (i : Z) (v : ascii) : option (list ascii) :=
  if (0 <=? i) && (i <? Z.of_nat (List.length a))
  then Some (firstn (Z.to_nat i) a ++ v :: skipn (S (Z.to_nat i)) a)
  else None.

(** The C string held in an array: its characters before the first
    terminator. *)
Fixpoint c_str (a : list ascii) : list ascii :=
  match a with
  | [] => []
  | c :: rest => if Ascii.eqb c zero then [] else c :: c_str rest
  end.

(** One turn of the [for] loop of [read], for the character [c = bfr[i]];
    [result] is the local of that name. *)
Definition read_char (c : ascii) (d : Driver) (result : bool)
  : option (bool * Driver) :=
  if Ascii.eqb c "013" then
    match store (m_sentence d) (m_sentence_idx d) zero with
    | None => None
    | Some sentence =>
        let '(n, data) := sscanf4 (c_str sentence) (m_expr d) (m_data d) in
        Some (if n =? 4 then true else result,
              {| m_sentence := sentence; m_sentence_idx := 0;
                 m_expr := m_expr d; m_data := data |})
    end
  else
    match store (m_sentence d) (m_sentence_idx d) c with
    | None => None
    | Some sentence =>
        let idx := m_sentence_idx d + 1 in
        Some (result,
              {| m_sentence := sentence;
                 m_sentence_idx :=
                   if idx >=? Z.of_nat (List.length (m_sentence d)) then 0
                   else idx;
                 m_expr := m_expr d; m_data := m_data d |})
    end.

Fixpoint read_loop (chunk : list ascii) (d : Driver) (result : bool)
  : option (bool * Driver) :=
  match chunk with
  | [] => Some (result, d)
  | c :: rest =>
      match read_char c d result with
      | None => None
      | Some (result', d') => read_loop rest d' result'
      end
  end.

(** [Driver::read], [bfr] and [rv] being what [m_stream.read] left in the
    buffer and returned.  [None] stands for a write outside [m_sentence]. *)
Definition read (bfr : list ascii) (rv : Z) (d : Driver)
  : option (bool * Driver) :=
  read_loop (firstn (Z.to_nat rv) bfr) d false.

End Driver.

Arguments m_sentence {Data} _.
Arguments m_sentence_idx {Data} _.
Arguments m_expr {Data} _.
Arguments m_data {Data} _.
Arguments read_char {Data} sscanf4 c d result.
Arguments read_loop {Data} sscanf4 chunk d result.
Arguments read {Data} sscanf4 bfr rv d.

(** The index points into the sentence buffer. *)
Definition index_in_bounds {Data : Type} (d : Driver Data) : Prop :=
  0 <= m_sentence_idx d < Z.of_nat (List.length (m_sentence d)).

Definition READ_RETRIES : Z := 10.

(** The first loop of [Driver::setup], which waits for the device to fall
    silent: [rvs i] is what the [i]-th [m_stream.read] returns, [n] turns
    are left, [count] is the local of that name.  The result is [passed] and
    the number of reads made. *)
Fixpoint stop_continuous_loop (rvs : nat -> Z) (n i : nat) (count : Z)
  : bool * nat :=
  match n with
  | O => (false, i)
  | S n' =>
      if rvs i =? 0 then
        if count =? READ_RETRIES then (true, S i)
        else stop_continuous_loop rvs n' (S i) (count + 1)
      else stop_continuous_loop rvs n' (S i) count
  end.

(** [READ_RETRIES * 5] turns from a zero count. *)
Definition stop_continuous (rvs : nat -> Z) : bool * nat :=
  stop_continuous_loop rvs (Z.to_nat (READ_RETRIES * 5)) 0 0.

(** How many of the reads [i, i + n) return no data. *)
Fixpoint empty_reads (rvs : nat -> Z) (i n : nat) : Z :=
  match n with
  | O => 0
  | S n' => (if rvs i =? 0 then 1 else 0) + empty_reads rvs (S i) n'
  end.

End SW100.

(** ** Proof automation *)

Ltac unfold_task :=
  unfold isConnected, getSinceEpoch, Logger_write, dispatch, debug, war, err,
    load, emit, try_catch, lift, gets, modify, bind, ret in *.

(** Reduce projections of updated tasks, and nothing else. *)
Ltac task_simpl :=
  cbn [m_args tcp_connected m_buf_send m_start_time m_last_set_time
       m_watchdog_msg system_id ticks reads trace
       set_ticks set_trace set_reads set_buf_send set_last_set_time
       set_watchdog_msg fst snd negb orb andb] in *.

(** ** Basic facts *)

Lemma extends_refl (st : Task) : extends st st [].
Proof. split; try reflexivity. now rewrite app_nil_r. Qed.

Lemma extends_trans (a b c : Task) (n1 n2 : list Event) :
  extends a b n1 -> extends b c n2 -> extends a c (n1 ++ n2).
Proof.
  intros [A1 A2 A3 A4 A5 A6] [B1 B2 B3 B4 B5 B6].
  split; try congruence.
  rewrite B6, A6. now rewrite app_assoc.
Qed.

Lemma Qltb_lt (a b : Q) : Qltb a b = true <-> (a < b)%Q.
Proof.
  unfold Qltb. rewrite negb_true_iff.
  split; intros H.
  - apply Qnot_le_lt. intros L. apply Qle_bool_iff in L. congruence.
  - destruct (Qle_bool b a) eqn:L; [|reflexivity].
    apply Qle_bool_iff in L. exfalso. now apply (Qlt_not_le a b).
Qed.

Lemma Qltb_ge (a b : Q) : Qltb a b = false <-> (b <= a)%Q.
Proof.
  unfold Qltb. rewrite negb_false_iff. apply Qle_bool_iff.
Qed.

Lemma to_uint16_small (z : Z) : 0 <= z < 65536 -> to_uint16 z = z.
Proof. intros H. unfold to_uint16. now apply Z.mod_small. Qed.

Lemma slice_all (bytes : list Z) :
  slice bytes 0 (Z.of_nat (List.length bytes)) = bytes.
Proof.
  unfold slice. simpl. rewrite Nat2Z.id. apply firstn_all.
Qed.

Lemma slice_overwrite (bytes old : list Z) :
  slice (overwrite bytes old) 0 (Z.of_nat (List.length bytes)) = bytes.
Proof.
  unfold slice, overwrite. simpl. rewrite Nat2Z.id.
  rewrite firstn_app, firstn_all, Nat.sub_diag. simpl. apply app_nil_r.
Qed.

Lemma wrap_signed_small (w z : Z) :
  0 < w -> - 2 ^ (w - 1) <= z < 2 ^ (w - 1) -> wrap_signed w z = z.
Proof.
  intros Hw Hz. unfold wrap_signed.
  assert (P : 2 ^ w = 2 * 2 ^ (w - 1)).
  { replace w with (Z.succ (w - 1)) at 1 by lia. apply Z.pow_succ_r. lia. }
  rewrite Z.mod_small; lia.
Qed.

Lemma double_to_int16_small (q : Q) :
  0 <= Qtrunc q < 32768 -> double_to_int 16 q = Qtrunc q.
Proof.
  intros H. unfold double_to_int, wrap_signed.
  change (2 ^ (16 - 1)) with 32768. change (2 ^ 16) with 65536.
  rewrite Z.mod_small; lia.
Qed.

(** Truncation is monotone and advances by one when a second passes. *)
Lemma Qtrunc_inject_Z (z : Z) : Qtrunc (inject_Z z) = z.
Proof. unfold Qtrunc. simpl. apply Z.quot_1_r. Qed.

Lemma Qtrunc_nonneg (q : Q) : (0 <= q)%Q -> 0 <= Qtrunc q.
Proof.
  intros H. unfold Qtrunc. apply Z.quot_pos; [|lia].
  unfold Qle in H. simpl in H. lia.
Qed.

Lemma Qtrunc_succ (q : Q) : (0 <= q)%Q -> Qtrunc (q + 1) = Qtrunc q + 1.
Proof.
  intros H. unfold Qtrunc. destruct q as [n d]. simpl.
  unfold Qle in H. simpl in H.
  assert (Hn : 0 <= n) by lia.
  rewrite !Z.quot_div_nonneg by lia.
  rewrite Pos.mul_1_r.
  replace (n * 1 + Z.pos d) with (n + 1 * Z.pos d) by lia.
  rewrite Z.div_add by lia. reflexivity.
Qed.

(** ** The command driver *)

Section CommandDriver.

Variable E : Env.
Context {MsgStruct : Type}.
Variable pk : Pack MsgStruct.

Lemma sendCommand_suppressed (msg : MsgStruct) (st : Task) :
  listen_mode (m_args st) || negb (tcp_connected st) = true ->
  sendCommand E pk msg st = (Ret 0, st).
Proof.
  intros H. unfold sendCommand. unfold_task. now rewrite H.
Qed.

Lemma slice_prefix_overwrite (bytes old : list Z) (n : Z) :
  n <= Z.of_nat (List.length bytes) ->
  slice (overwrite bytes old) 0 n = slice bytes 0 n.
Proof.
  intros H. unfold slice, overwrite. simpl.
  rewrite firstn_app.
  replace (Z.to_nat n - List.length bytes)%nat with 0%nat by lia.
  simpl. apply app_nil_r.
Qed.

Lemma to_uint16_le (n : Z) : 0 <= n -> to_uint16 n <= n.
Proof.
  intros H. unfold to_uint16. apply Z.mod_le; lia.
Qed.

(** The whole behaviour of [sendCommand] on an open, non-listening channel. *)
Lemma sendCommand_open (msg : MsgStruct) (st : Task) :
  listen_mode (m_args st) = false ->
  tcp_connected st = true ->
  sendCommand E pk msg st =
    match pk msg with
    | Raise e => (Ret 0, set_trace (trace st ++ [Err e]) st)
    | Ret bytes =>
        let st1 := set_buf_send (overwrite bytes (m_buf_send st)) st in
        match socket_write E bytes with
        | Raise e =>
            (Ret 0, set_trace (trace st ++ [SocketWrite bytes; Err e]) st1)
        | Ret sd =>
            (Ret sd,
             set_trace
               (trace st ++ sent_events (log_pioneer_imc (m_args st)) bytes sd)
               st1)
        end
    end.
Proof.
  intros HL HC. unfold sendCommand, sendCommand_try, Pack_pack,
    TCPComm_sendData, dispatchAsDevDataBinary.
  unfold_task. rewrite HL, HC. simpl.
  destruct (pk msg) as [bytes|e]; simpl; [|reflexivity].
  rewrite HL, HC. simpl.
  rewrite slice_overwrite.
  destruct (socket_write E bytes) as [sd|e]; simpl.
  - unfold sent_events.
    destruct (0 <? sd); simpl.
    + destruct (log_pioneer_imc (m_args st)); simpl.
      * unfold set_trace, set_buf_send; simpl.
        rewrite slice_prefix_overwrite
          by (apply to_uint16_le; lia).
        rewrite <- !app_assoc. reflexivity.
      * unfold set_trace, set_buf_send; simpl.
        rewrite <- !app_assoc. reflexivity.
    + reflexivity.
  - unfold set_trace, set_buf_send; simpl.
    rewrite <- !app_assoc. reflexivity.
Qed.

(** [sendCommand] never throws. *)
Lemma sendCommand_returns (msg : MsgStruct) (st : Task) :
  exists sd, fst (sendCommand E pk msg st) = Ret sd.
Proof.
  destruct (listen_mode (m_args st) || negb (tcp_connected st)) eqn:H.
  - rewrite sendCommand_suppressed by assumption. now exists 0.
  - apply orb_false_iff in H. destruct H as [HL HC].
    apply negb_false_iff in HC.
    rewrite sendCommand_open by assumption.
    destruct (pk msg); [|now exists 0].
    simpl. destruct (socket_write E a); [now exists a0|now exists 0].
Qed.

(** [sendCommand] only extends the trace, and mirrors nothing when the
    structured echo is off. *)
Lemma sendCommand_extends (msg : MsgStruct) (st : Task) :
  exists new,
    extends st (snd (sendCommand E pk msg st)) new /\
    forallb (fun e => negb (is_publication e)) new = true /\
    (log_pioneer_imc (m_args st) = false ->
     forallb (fun e => negb (is_mirror e)) new = true) /\
    m_last_set_time (snd (sendCommand E pk msg st)) = m_last_set_time st /\
    ticks (snd (sendCommand E pk msg st)) = ticks st.
Proof.
  destruct (listen_mode (m_args st) || negb (tcp_connected st)) eqn:H.
  - rewrite sendCommand_suppressed by assumption.
    exists []. simpl. repeat split; auto. now rewrite app_nil_r.
  - apply orb_false_iff in H. destruct H as [HL HC].
    apply negb_false_iff in HC.
    rewrite sendCommand_open by assumption.
    destruct (pk msg) as [bytes|e].
    + simpl. destruct (socket_write E bytes) as [sd|e].
      * exists (sent_events (log_pioneer_imc (m_args st)) bytes sd).
        simpl. repeat split; auto.
        -- destruct (0 <? sd); [|reflexivity].
           destruct (log_pioneer_imc (m_args st)); reflexivity.
        -- intros ->. destruct (0 <? sd); reflexivity.
      * exists [SocketWrite bytes; Err e]. simpl. repeat split; auto.
    + exists [Err e]. simpl. repeat split; auto.
Qed.

End CommandDriver.

(** C3.  For every record type, [sendCommand] returns 0 and leaves the task
    untouched (no socket write, no logger write, no echo) when listen-only
    mode is set or the reliable channel is Disconnected.  Otherwise it
    serialises the record, hands the bytes to the channel's [sendData] and
    returns the byte count the channel reports; the serialised bytes are
    mirrored to the outbound command logger, and to the structured echo when
    that is enabled, exactly when that count is positive.  In every case the
    call returns, and a logger write or an echo in its effects implies a
    non-zero result. *)
Theorem sendCommand_contract :
  forall (E : Env) (MsgStruct : Type) (pk : Pack MsgStruct)
         (msg : MsgStruct) (st : Task),
    (listen_mode (m_args st) = true \/ tcp_connected st = false ->
     sendCommand E pk msg st = (Ret 0, st)) /\
    (listen_mode (m_args st) = false -> tcp_connected st = true ->
     forall bytes sd,
       pk msg = Ret bytes ->
       socket_write E bytes = Ret sd ->
       Z.of_nat (List.length bytes) <= 1024 ->
       fst (sendCommand E pk msg st) = Ret sd /\
       trace (snd (sendCommand E pk msg st)) =
         trace st ++
         SocketWrite bytes ::
         (if 0 <? sd then
            Debug "Send %d bytes for msg %s" sd ::
            LoggerWrite LOGGER_COMMANDS bytes ::
            (if log_pioneer_imc (m_args st)
             then [Dispatch (DevDataBinary bytes)] else [])
          else [])) /\
    (exists sd new,
       fst (sendCommand E pk msg st) = Ret sd /\
       trace (snd (sendCommand E pk msg st)) = trace st ++ new /\
       (existsb (fun e => is_logger_write e || is_mirror e) new = true ->
        sd <> 0)).
Proof.
  intros E MsgStruct pk msg st. split; [|split].
  - intros H. apply sendCommand_suppressed.
    destruct H as [-> | ->]; [reflexivity | apply orb_true_r].
  - intros HL HC bytes sd Hpk Hsock Hlen.
    rewrite sendCommand_open, Hpk by assumption. simpl.
    rewrite Hsock. simpl. split; [reflexivity|].
    unfold sent_events.
    rewrite to_uint16_small by lia.
    now rewrite slice_all.
  - destruct (listen_mode (m_args st) || negb (tcp_connected st)) eqn:H.
    + rewrite sendCommand_suppressed by assumption.
      exists 0, []. simpl. rewrite app_nil_r. repeat split. discriminate.
    + apply orb_false_iff in H. destruct H as [HL HC].
      apply negb_false_iff in HC.
      rewrite sendCommand_open by assumption.
      destruct (pk msg) as [bytes|e].
      * simpl. destruct (socket_write E bytes) as [sd|e].
        -- exists sd, (sent_events (log_pioneer_imc (m_args st)) bytes sd).
           simpl. repeat split.
           destruct (0 <? sd) eqn:Hsd; [|discriminate].
           intros _. apply Z.ltb_lt in Hsd. lia.
        -- exists 0, [SocketWrite bytes; Err e]. simpl.
           repeat split. discriminate.
      * exists 0, [Err e]. simpl. repeat split. discriminate.
Qed.

(** In listen-only mode a watchdog command is suppressed even on a
    connected channel; outside it the four bytes of the command are written,
    logged and, the echo being off, not mirrored. *)
Lemma sendCommand_contract_witness :
  let E := Sample.env (fun _ => 1000%Q) in
  let watchdog := {| connection_duration := 7 |} in
  sendCommand E (pack_CmdVersion1Watchdog E) watchdog
              (Sample.task (Sample.with_listen_mode true Sample.args) true)
  = (Ret 0, Sample.task (Sample.with_listen_mode true Sample.args) true)
  /\
  (fst (sendCommand E (pack_CmdVersion1Watchdog E) watchdog
          (Sample.task Sample.args true)) = Ret 4 /\
   trace (snd (sendCommand E (pack_CmdVersion1Watchdog E) watchdog
                 (Sample.task Sample.args true))) =
     [SocketWrite [1; 87; 0; 7];
      Debug "Send %d bytes for msg %s" 4;
      LoggerWrite LOGGER_COMMANDS [1; 87; 0; 7]]).
Proof.
  intros E watchdog. split.
  - apply (proj1 (sendCommand_contract E _ (pack_CmdVersion1Watchdog E)
                    watchdog
                    (Sample.task (Sample.with_listen_mode true Sample.args)
                                 true))).
    left. reflexivity.
  - apply (proj1 (proj2 (sendCommand_contract E _ (pack_CmdVersion1Watchdog E)
                           watchdog (Sample.task Sample.args true))));
      try reflexivity.
    vm_compute. discriminate.
Defined.

(** ** The dispatchers *)

Section Dispatchers.

Variable E : Env.

Lemma pioneerMessagesParse_unknown (buf : list Z) (startIndex length : Z) (st : Task) :
  telemetry_code_known E (telemetry_code buf startIndex) = false ->
  pioneerMessagesParse E buf startIndex length st =
    (Ret 0, set_reads (reads st ++ [startIndex; startIndex + 1]) st).
Proof.
  unfold telemetry_code_known, telemetry_code. intros H.
  apply orb_false_iff in H. destruct H as [H H3].
  apply orb_false_iff in H. destruct H as [H1 H2].
  unfold pioneerMessagesParse, pioneerMessagesParse_try. unfold_task.
  cbv beta iota zeta.
  rewrite H1, H2, H3. unfold set_reads. simpl.
  now rewrite <- app_assoc.
Qed.

Lemma pioneerCommandRepliesParse_unknown (buf : list Z) (startIndex length : Z) (st : Task) :
  reply_code_known E (byte_at buf startIndex) = false ->
  pioneerCommandRepliesParse E buf startIndex length st =
    (Ret 0, set_reads (reads st ++ [startIndex]) st).
Proof.
  unfold reply_code_known. intros H.
  apply orb_false_iff in H. destruct H as [H H3].
  apply orb_false_iff in H. destruct H as [H1 H2].
  unfold pioneerCommandRepliesParse, pioneerCommandRepliesParse_try.
  unfold_task. simpl.
  now rewrite H1, H2, H3.
Qed.

End Dispatchers.

(** C1, as the code has it.  For every buffer whose leading type code is not
    recognised (telemetry channel: the two leading bytes combined are none of
    the three telemetry codes; command/reply channel: the leading byte is
    none of the three reply codes) the dispatch function returns zero bytes
    processed and does nothing to the task except having loaded the code
    bytes: no decode, no echo, no handler, no time sync. *)
Theorem unknown_code_returns_zero :
  forall (E : Env) (buf : list Z) (startIndex length : Z) (st : Task),
    (telemetry_code_known E (telemetry_code buf startIndex) = false ->
     pioneerMessagesParse E buf startIndex length st =
       (Ret 0, set_reads (reads st ++ [startIndex; startIndex + 1]) st)) /\
    (reply_code_known E (byte_at buf startIndex) = false ->
     pioneerCommandRepliesParse E buf startIndex length st =
       (Ret 0, set_reads (reads st ++ [startIndex]) st)).
Proof.
  intros. split.
  - apply pioneerMessagesParse_unknown.
  - apply pioneerCommandRepliesParse_unknown.
Qed.

Lemma unknown_code_returns_zero_witness :
  pioneerMessagesParse (Sample.env (fun _ => 1000%Q)) [0xFF; 0xFF; 0; 0] 0 4
                       (Sample.task Sample.args true)
  = (Ret 0, set_reads [0; 1] (Sample.task Sample.args true))
  /\
  pioneerCommandRepliesParse (Sample.env (fun _ => 1000%Q)) [0xFF; 0; 0; 0] 0 4
                             (Sample.task Sample.args true)
  = (Ret 0, set_reads [0] (Sample.task Sample.args true)).
Proof.
  split.
  - apply (proj1 (unknown_code_returns_zero
                    (Sample.env (fun _ => 1000%Q)) [0xFF; 0xFF; 0; 0] 0 4
                    (Sample.task Sample.args true))).
    reflexivity.
  - apply (proj2 (unknown_code_returns_zero
                    (Sample.env (fun _ => 1000%Q)) [0xFF; 0; 0; 0] 0 4
                    (Sample.task Sample.args true))).
    reflexivity.
Defined.

(** C1 as stated fails: a four-byte telemetry frame with the unknown code
    0xFFFF, and a four-byte reply frame with the unknown code 0xFF, are both
    dispatched with zero bytes consumed, not at least one. *)
Lemma unknown_code_consumes_at_least_one_fails :
  ~ (exists rb,
       fst (pioneerMessagesParse (Sample.env (fun _ => 1000%Q))
              [0xFF; 0xFF; 0; 0] 0 4 (Sample.task Sample.args true)) = Ret rb
       /\ 1 <= rb)
  /\
  ~ (exists rb,
       fst (pioneerCommandRepliesParse (Sample.env (fun _ => 1000%Q))
              [0xFF; 0; 0; 0] 0 4 (Sample.task Sample.args true)) = Ret rb
       /\ 1 <= rb).
Proof.
  split; intros [rb [H Hrb]]; vm_compute in H; inversion H; subst; lia.
Qed.

(** ** The time-sync policy *)

Section TimeSync.

Variable E : Env.

Lemma setPioneerTime_idle (deviceMillis : Z) (st : Task) :
  time_sync_due E deviceMillis st = false ->
  exists n, setPioneerTime E deviceMillis st = (Ret tt, set_ticks n st).
Proof.
  unfold time_sync_due, setPioneerTime. unfold_task. cbv beta iota zeta.
  intros H.
  destruct (set_time_of_vehicle (m_args st)); task_simpl;
    [|exists (ticks st); now destruct st].
  destruct (listen_mode (m_args st)); task_simpl;
    [exists (ticks st); now destruct st|].
  destruct (Qltb (clock E (ticks st) - m_last_set_time st) 5); task_simpl;
    [now exists (S (ticks st))|].
  rewrite H. now exists (S (S (ticks st))).
Qed.

Lemma setPioneerTime_due (deviceMillis : Z) (st : Task) :
  time_sync_due E deviceMillis st = true ->
  setPioneerTime E deviceMillis st =
    let r := sendCommand E (pack_CmdVersion2SetSystemTime E)
                         (time_sync_command E st) (time_sync_armed st) in
    match fst r with
    | Ret sd =>
        if 0 <? sd
        then (Ret tt,
              set_last_set_time (clock E (ticks (snd r)))
                                (set_ticks (S (ticks (snd r))) (snd r)))
        else (Ret tt, snd r)
    | Raise e => (Raise e, snd r)
    end.
Proof.
  unfold time_sync_due. intros H.
  apply andb_true_iff in H. destruct H as [H H4].
  apply andb_true_iff in H. destruct H as [H H3].
  apply andb_true_iff in H. destruct H as [H1 H2].
  apply negb_true_iff in H2, H3.
  unfold setPioneerTime. unfold_task. cbv beta iota zeta.
  rewrite H1, H2. task_simpl. rewrite H3. task_simpl. rewrite H4.
  unfold time_sync_command, time_sync_armed. task_simpl.
  change (set_ticks (S (S (S (ticks st))))
            (set_ticks (S (S (ticks st))) (set_ticks (S (ticks st)) st)))
    with (set_ticks (S (S (S (ticks st)))) st).
  match goal with
  | |- context [sendCommand E ?p ?c ?s] =>
      destruct (sendCommand E p c s) as [[sd|e] st']
  end; simpl; [|reflexivity].
  destruct (0 <? sd); reflexivity.
Qed.

Lemma setPioneerTime_returns (deviceMillis : Z) (st : Task) :
  fst (setPioneerTime E deviceMillis st) = Ret tt.
Proof.
  destruct (time_sync_due E deviceMillis st) eqn:H.
  - rewrite setPioneerTime_due by assumption. cbv zeta.
    destruct (sendCommand_returns E (pack_CmdVersion2SetSystemTime E)
                (time_sync_command E st) (time_sync_armed st)) as [sd Hsd].
    rewrite Hsd. now destruct (0 <? sd).
  - destruct (setPioneerTime_idle deviceMillis st H) as [n ->]. reflexivity.
Qed.

(** The policy only extends the trace; it publishes nothing, and mirrors
    nothing when the structured echo is off. *)
Lemma setPioneerTime_extends (deviceMillis : Z) (st : Task) :
  exists new,
    extends st (snd (setPioneerTime E deviceMillis st)) new /\
    forallb (fun e => negb (is_publication e)) new = true /\
    (log_pioneer_imc (m_args st) = false ->
     forallb (fun e => negb (is_mirror e)) new = true).
Proof.
  destruct (time_sync_due E deviceMillis st) eqn:H.
  - rewrite setPioneerTime_due by assumption. cbv zeta.
    destruct (sendCommand_returns E (pack_CmdVersion2SetSystemTime E)
                (time_sync_command E st) (time_sync_armed st)) as [sd Hsd].
    destruct (sendCommand_extends E (pack_CmdVersion2SetSystemTime E)
                (time_sync_command E st) (time_sync_armed st))
      as (new & X & P & Mi & _).
    rewrite Hsd.
    exists (War "Setting time for vehicle" :: new).
    assert (X' : extends st
                   (snd (sendCommand E (pack_CmdVersion2SetSystemTime E)
                           (time_sync_command E st) (time_sync_armed st)))
                   (War "Setting time for vehicle" :: new)).
    { destruct X as [A1 A2 A3 A4 A5 A6]. split; auto.
      rewrite A6. simpl. now rewrite <- app_assoc. }
    split; [|split].
    + destruct (0 <? sd); simpl; [|exact X'].
      destruct X' as [A1 A2 A3 A4 A5 A6]. split; auto.
    + simpl. exact P.
    + intros Himc. simpl. apply Mi. exact Himc.
  - destruct (setPioneerTime_idle deviceMillis st H) as [n ->].
    exists []. simpl. repeat split; auto. now rewrite app_nil_r.
Qed.

End TimeSync.

Lemma socket_writes_app (a b : list Event) :
  socket_writes (a ++ b) = (socket_writes a + socket_writes b)%nat.
Proof. unfold socket_writes. now rewrite filter_app, length_app. Qed.

Lemma socket_writes_sent_events (imc : bool) (bytes : list Z) (sd : Z) :
  socket_writes (sent_events imc bytes sd) = 1%nat.
Proof.
  unfold sent_events, socket_writes. simpl.
  destruct (0 <? sd); [|reflexivity]. now destruct imc.
Qed.

(** C2, as the code has it.  For a decoded telemetry frame carrying device
    clock [deviceMillis], the time-sync policy hands a set-system-time
    command to [sendCommand] if and only if the time-set flag is on,
    listen-only mode is off, at least 5 s have elapsed since the last
    recorded correction and [abs(localEpochMillis - deviceMillis) > 1100];
    otherwise it leaves the trace and the recorded timestamp alone.  The
    command reaches the socket only on a Connected channel, and the
    correction timestamp is recorded only when [sendCommand] reports a
    positive byte count.  Consequently, once the command of the first of two
    frames has been sent with a positive byte count, a second frame arriving
    less than 5 s later (2 s, say) produces none: exactly one correction
    command for the pair. *)
Theorem time_sync_policy :
  forall (E : Env) (deviceMillis : Z) (st : Task),
    let st' := snd (setPioneerTime E deviceMillis st) in
    let sent := sendCommand E (pack_CmdVersion2SetSystemTime E)
                            (time_sync_command E st) (time_sync_armed st) in
    (time_sync_due E deviceMillis st = false ->
     trace st' = trace st /\ m_last_set_time st' = m_last_set_time st) /\
    (time_sync_due E deviceMillis st = true ->
     exists sd,
       fst sent = Ret sd /\
       trace st' = trace (snd sent) /\
       m_last_set_time st' =
         if 0 <? sd then clock E (S (S (S (ticks st))))
         else m_last_set_time st) /\
    (tcp_connected st = false ->
     socket_writes (trace st') = socket_writes (trace st) /\
     m_last_set_time st' = m_last_set_time st) /\
    (forall (deviceMillis2 : Z) (bytes : list Z) (sd : Z),
       time_sync_due E deviceMillis st = true ->
       tcp_connected st = true ->
       pack_CmdVersion2SetSystemTime E (time_sync_command E st) = Ret bytes ->
       socket_write E bytes = Ret sd ->
       0 < sd ->
       (clock E (4 + ticks st) - clock E (3 + ticks st) < 5)%Q ->
       socket_writes (trace st') = S (socket_writes (trace st)) /\
       trace (snd (setPioneerTime E deviceMillis2 st')) = trace st').
Proof.
  intros E deviceMillis st st' sent.
  assert (Hdue : time_sync_due E deviceMillis st = true ->
                 exists sd,
                   fst sent = Ret sd /\
                   st' = if 0 <? sd
                         then set_last_set_time (clock E (ticks (snd sent)))
                                (set_ticks (S (ticks (snd sent))) (snd sent))
                         else snd sent).
  { intros H. subst st'. rewrite setPioneerTime_due by assumption.
    cbv zeta. fold sent.
    destruct (sendCommand_returns E (pack_CmdVersion2SetSystemTime E)
                (time_sync_command E st) (time_sync_armed st)) as [sd Hsd].
    fold sent in Hsd. exists sd. split; [assumption|].
    rewrite Hsd. now destruct (0 <? sd). }
  assert (Hidle : time_sync_due E deviceMillis st = false ->
                  exists n, st' = set_ticks n st).
  { intros H. destruct (setPioneerTime_idle E deviceMillis st H) as [n Hn].
    exists n. subst st'. now rewrite Hn. }
  destruct (sendCommand_extends E (pack_CmdVersion2SetSystemTime E)
              (time_sync_command E st) (time_sync_armed st))
    as (new & X & _ & _ & Hlast & Hticks).
  fold sent in X, Hlast, Hticks.
  split; [|split; [|split]].
  - intros H. destruct (Hidle H) as [n ->]. split; reflexivity.
  - intros H. destruct (Hdue H) as (sd & Hsd & Hst').
    exists sd. split; [assumption|]. rewrite Hst'.
    destruct (0 <? sd); task_simpl.
    + split; [reflexivity|]. now rewrite Hticks.
    + split; [reflexivity|]. now rewrite Hlast.
  - intros HC.
    destruct (time_sync_due E deviceMillis st) eqn:H.
    + destruct (Hdue eq_refl) as (sd & Hsd & Hst').
      assert (Hs : sent = (Ret 0, time_sync_armed st)).
      { subst sent. apply sendCommand_suppressed.
        unfold time_sync_armed. task_simpl. rewrite HC. apply orb_true_r. }
      rewrite Hs in Hsd, Hst'. simpl in Hsd. inversion Hsd; subst sd.
      simpl in Hst'. rewrite Hst'. unfold time_sync_armed. task_simpl.
      split; [|reflexivity].
      unfold socket_writes. rewrite filter_app, length_app. simpl. lia.
    + destruct (Hidle eq_refl) as [n ->]. split; reflexivity.
  - intros deviceMillis2 bytes sd H HC Hpk Hsock Hsd Hgap.
    destruct (Hdue H) as (sd' & Hsd' & Hst').
    assert (HL : listen_mode (m_args st) = false).
    { unfold time_sync_due in H.
      destruct (listen_mode (m_args st)); [|reflexivity].
      rewrite andb_false_r in H. discriminate. }
    assert (Hs : sent =
                 (Ret sd,
                  set_trace
                    (trace (time_sync_armed st) ++
                     sent_events (log_pioneer_imc (m_args st)) bytes sd)
                    (set_buf_send (overwrite bytes (m_buf_send st))
                                  (time_sync_armed st)))).
    { subst sent. rewrite sendCommand_open by assumption.
      rewrite Hpk. cbv zeta. rewrite Hsock. reflexivity. }
    rewrite Hs in Hsd', Hst'. simpl in Hsd'. inversion Hsd'; subst sd'.
    apply Z.ltb_lt in Hsd. rewrite Hsd in Hst'.
    split.
    + rewrite Hst'. unfold time_sync_armed. task_simpl.
      rewrite !socket_writes_app, socket_writes_sent_events.
      unfold socket_writes. simpl. lia.
    + assert (Hidle2 : time_sync_due E deviceMillis2 st' = false).
      { unfold time_sync_due. rewrite Hst'. unfold time_sync_armed.
        task_simpl.
        assert (G : Qltb (clock E (S (S (S (S (ticks st))))) -
                          clock E (S (S (S (ticks st))))) 5 = true)
          by now apply Qltb_lt.
        rewrite G. simpl. now rewrite andb_false_r. }
      destruct (setPioneerTime_idle E deviceMillis2 st' Hidle2) as [n ->].
      reflexivity.
Qed.

(** Two frames 2 s apart on a connected channel: one command, then none. *)
Lemma time_sync_policy_witness :
  let E := Sample.env (frames_2s_apart 4) in
  let st := Sample.task Sample.args true in
  let st' := snd (setPioneerTime E 5000 st) in
  socket_writes (trace st') = S (socket_writes (trace st)) /\
  trace (snd (setPioneerTime E 7000 st')) = trace st'.
Proof.
  intros E st st'.
  apply (proj2 (proj2 (proj2 (time_sync_policy E 5000 st)))
           7000 [2; 84; 0; 0; 3; 232] 6);
    try reflexivity.
Defined.

(** C2 as stated fails on a Disconnected reliable channel: two telemetry
    frames 2 s apart both meet every stated condition (flag on, listen-only
    off, divergence above 1100 ms, more than 5 s since the last correction),
    the policy fires on both, and yet no command is written and no correction
    timestamp is recorded. *)
Lemma time_sync_needs_connection :
  let E := Sample.env (frames_2s_apart 3) in
  let st := Sample.task Sample.args false in
  let st1 := snd (setPioneerTime E 5000 st) in
  let st2 := snd (setPioneerTime E 7000 st1) in
  time_sync_due E 5000 st = true /\
  time_sync_due E 7000 st1 = true /\
  trace st2 = [War "Setting time for vehicle"; War "Setting time for vehicle"] /\
  socket_writes (trace st2) <> 1%nat /\
  m_last_set_time st2 = m_last_set_time st.
Proof.
  vm_compute. repeat split; discriminate.
Qed.

(** ** The heartbeat consumer *)

Lemma Qtrunc_le (q r : Q) : (0 <= q)%Q -> (q <= r)%Q -> Qtrunc q <= Qtrunc r.
Proof.
  intros Hq Hqr.
  assert (Hr : (0 <= r)%Q) by (eapply Qle_trans; eassumption).
  unfold Qtrunc.
  destruct q as [a b], r as [c d]. unfold Qle in *. simpl in *.
  rewrite !Z.quot_div_nonneg by lia.
  apply Z.div_le_lower_bound; [lia|].
  assert (Hab : Z.pos b * (a / Z.pos b) <= a)
    by (apply Z.mul_div_le; lia).
  assert (H0 : 0 <= a / Z.pos b) by (apply Z.div_pos; lia).
  apply Z.mul_le_mono_pos_l with (p := Z.pos b); [lia|].
  nia.
Qed.

Lemma Qtrunc_lt_bound (q : Q) (k : Z) :
  (0 <= q)%Q -> (q < inject_Z k)%Q -> Qtrunc q < k.
Proof.
  intros Hq Hk. unfold Qtrunc.
  destruct q as [a b]. unfold Qle, Qlt in *. simpl in *.
  rewrite Z.quot_div_nonneg by lia.
  apply Z.div_lt_upper_bound; lia.
Qed.

Section Heartbeat.

Variable E : Env.

Lemma consume_Heartbeat_ignored (source : Z) (st : Task) :
  tcp_connected st && (source =? system_id st) = false ->
  consume_Heartbeat E source st = (Ret tt, st).
Proof.
  intros H. unfold consume_Heartbeat. unfold_task. cbv beta iota zeta.
  now rewrite H.
Qed.

Lemma consume_Heartbeat_own (source : Z) (st : Task) :
  tcp_connected st = true ->
  source = system_id st ->
  consume_Heartbeat E source st =
    (Ret tt,
     snd (sendCommand E (pack_CmdVersion1Watchdog E)
            (m_watchdog_msg (watchdog_refreshed E st)) (watchdog_refreshed E st))).
Proof.
  intros HC ->. unfold consume_Heartbeat. unfold_task. cbv beta iota zeta.
  rewrite HC, Z.eqb_refl. task_simpl.
  change (set_watchdog_msg
            {| connection_duration :=
                 double_to_int 16 (clock E (ticks st) - m_start_time st) |}
            (set_ticks (S (ticks st)) st))
    with (watchdog_refreshed E st).
  change {| connection_duration :=
              double_to_int 16 (clock E (ticks st) - m_start_time st) |}
    with (m_watchdog_msg (watchdog_refreshed E st)).
  destruct (sendCommand_returns E (pack_CmdVersion1Watchdog E)
              (m_watchdog_msg (watchdog_refreshed E st))
              (watchdog_refreshed E st)) as [sd Hsd].
  destruct (sendCommand E (pack_CmdVersion1Watchdog E)
              (m_watchdog_msg (watchdog_refreshed E st))
              (watchdog_refreshed E st)) as [r st'].
  simpl in *. now rewrite Hsd.
Qed.

(** On an open channel a serialisable command goes to the socket once; the
    rest of the task is as before. *)
Lemma sendCommand_writes {MsgStruct} (pk : Pack MsgStruct) (msg : MsgStruct)
    (bytes : list Z) (st : Task) :
  listen_mode (m_args st) = false ->
  tcp_connected st = true ->
  pk msg = Ret bytes ->
  let st' := snd (sendCommand E pk msg st) in
  (exists tail,
     trace st' = trace st ++ SocketWrite bytes :: tail /\
     forallb (fun e => negb (is_socket_write e)) tail = true) /\
  m_watchdog_msg st' = m_watchdog_msg st /\
  ticks st' = ticks st.
Proof.
  intros HL HC Hpk st'. subst st'.
  rewrite sendCommand_open, Hpk by assumption. cbv zeta.
  destruct (socket_write E bytes) as [sd|e]; task_simpl.
  - split; [|split; reflexivity].
    unfold sent_events. eexists. split; [reflexivity|].
    destruct (0 <? sd); [|reflexivity].
    now destruct (log_pioneer_imc (m_args st)).
  - split; [|split; reflexivity].
    exists [Err e]. split; reflexivity.
Qed.

End Heartbeat.

Lemma extends_args_connected (st st' : Task) (new : list Event) :
  extends st st' new ->
  listen_mode (m_args st') = listen_mode (m_args st) /\
  tcp_connected st' = tcp_connected st /\
  system_id st' = system_id st /\
  m_start_time st' = m_start_time st.
Proof. intros [A1 A2 A3 A4 A5 A6]. now rewrite A1, A2, A3, A4. Qed.

(** C9, as the code has it.  A heartbeat is acted on only when the reliable
    channel reports Connected and the heartbeat's source is this system;
    any other heartbeat leaves the task untouched.  When acted on, the one
    watchdog instance held by the task is given the elapsed seconds since
    subsystem start (converted to the 16-bit field) and that same instance is
    handed to [sendCommand]; in listen-only mode the instance is refreshed
    but nothing is sent, the trace staying as it was.  Two such ticks at
    least 1 s apart, outside listen-only mode, with the clock of the first
    tick not before the subsystem start, the elapsed time of the second
    below 32768 s and both commands serialised, write two watchdog commands
    to the socket, the second with a strictly greater connection
    duration. *)
Theorem heartbeat_watchdog :
  forall (E : Env) (source : Z) (st : Task),
    let st1 := snd (consume_Heartbeat E source st) in
    (tcp_connected st = false \/ source <> system_id st ->
     consume_Heartbeat E source st = (Ret tt, st)) /\
    (tcp_connected st = true -> source = system_id st ->
     m_watchdog_msg st1 =
       {| connection_duration :=
            double_to_int 16 (clock E (ticks st) - m_start_time st) |} /\
     st1 = snd (sendCommand E (pack_CmdVersion1Watchdog E)
                  (m_watchdog_msg st1) (watchdog_refreshed E st)) /\
     (listen_mode (m_args st) = true -> trace st1 = trace st)) /\
    (forall (b1 b2 : list Z),
       let d1 := Qtrunc (clock E (ticks st) - m_start_time st) in
       let d2 := Qtrunc (clock E (S (ticks st)) - m_start_time st) in
       tcp_connected st = true -> source = system_id st ->
       listen_mode (m_args st) = false ->
       (0 <= clock E (ticks st) - m_start_time st)%Q ->
       (clock E (ticks st) + 1 <= clock E (S (ticks st)))%Q ->
       (clock E (S (ticks st)) - m_start_time st < 32768)%Q ->
       pack_CmdVersion1Watchdog E {| connection_duration := d1 |} = Ret b1 ->
       pack_CmdVersion1Watchdog E {| connection_duration := d2 |} = Ret b2 ->
       let st2 := snd (consume_Heartbeat E source st1) in
       d1 < d2 /\
       (exists tail1 tail2,
          trace st2 =
            trace st ++ SocketWrite b1 :: tail1 ++ SocketWrite b2 :: tail2 /\
          forallb (fun e => negb (is_socket_write e)) tail1 = true /\
          forallb (fun e => negb (is_socket_write e)) tail2 = true) /\
       m_watchdog_msg st2 = {| connection_duration := d2 |}).
Proof.
  intros E source st st1.
  split; [|split].
  - intros H. apply consume_Heartbeat_ignored.
    destruct H as [-> | H]; [reflexivity|].
    apply andb_false_iff. right. now apply Z.eqb_neq.
  - intros HC Hs. subst st1.
    rewrite consume_Heartbeat_own by assumption. cbn [snd].
    destruct (sendCommand_extends E (pack_CmdVersion1Watchdog E)
                (m_watchdog_msg (watchdog_refreshed E st))
                (watchdog_refreshed E st)) as (new & X & _).
    assert (W : m_watchdog_msg
                  (snd (sendCommand E (pack_CmdVersion1Watchdog E)
                          (m_watchdog_msg (watchdog_refreshed E st))
                          (watchdog_refreshed E st)))
                = m_watchdog_msg (watchdog_refreshed E st)).
    { destruct (listen_mode (m_args (watchdog_refreshed E st))
                || negb (tcp_connected (watchdog_refreshed E st))) eqn:G.
      - now rewrite sendCommand_suppressed by assumption.
      - apply orb_false_iff in G. destruct G as [G1 G2].
        apply negb_false_iff in G2.
        rewrite sendCommand_open by assumption.
        destruct (pack_CmdVersion1Watchdog E _); [|reflexivity].
        cbv zeta. now destruct (socket_write E a). }
    rewrite W. split; [reflexivity|]. split; [reflexivity|].
    intros HL. rewrite sendCommand_suppressed; [reflexivity|].
    unfold watchdog_refreshed. task_simpl. now rewrite HL.
  - intros b1 b2 d1 d2 HC Hs HL H0 Hstep Hmax Hp1 Hp2 st2.
    assert (Hd1 : 0 <= d1) by now apply Qtrunc_nonneg.
    assert (Hd12 : d1 + 1 <= d2).
    { subst d1 d2. rewrite <- Qtrunc_succ by assumption.
      apply Qtrunc_le.
      - apply Qle_trans with (1 := H0). lra.
      - lra. }
    assert (Hd2 : d2 < 32768).
    { subst d2. apply Qtrunc_lt_bound; [|exact Hmax].
      apply Qle_trans with (1 := H0). lra. }
    assert (I1 : double_to_int 16 (clock E (ticks st) - m_start_time st) = d1).
    { apply double_to_int16_small. change (0 <= d1 < 32768). lia. }
    assert (I2 : double_to_int 16 (clock E (S (ticks st)) - m_start_time st) = d2).
    { apply double_to_int16_small. change (0 <= d2 < 32768). lia. }
    (* first tick *)
    assert (S1 : st1 = snd (sendCommand E (pack_CmdVersion1Watchdog E)
                              {| connection_duration := d1 |}
                              (watchdog_refreshed E st))).
    { subst st1. rewrite consume_Heartbeat_own by assumption. cbn [snd].
      unfold watchdog_refreshed at 1. task_simpl. now rewrite I1. }
    destruct (sendCommand_writes E (pack_CmdVersion1Watchdog E)
                {| connection_duration := d1 |} b1 (watchdog_refreshed E st))
      as ((tail1 & T1 & F1) & W1 & K1); try assumption.
    destruct (sendCommand_extends E (pack_CmdVersion1Watchdog E)
                {| connection_duration := d1 |} (watchdog_refreshed E st))
      as (new1 & X1 & _).
    rewrite <- S1 in T1, W1, K1, X1.
    destruct (extends_args_connected _ _ _ X1) as (L1 & C1 & Y1 & M1).
    unfold watchdog_refreshed in L1, C1, Y1, M1, T1, K1. task_simpl.
    (* second tick *)
    assert (S2 : st2 = snd (sendCommand E (pack_CmdVersion1Watchdog E)
                              {| connection_duration := d2 |}
                              (watchdog_refreshed E st1))).
    { subst st2. rewrite consume_Heartbeat_own by congruence. cbn [snd].
      unfold watchdog_refreshed at 1. task_simpl.
      now rewrite K1, M1, I2. }
    destruct (sendCommand_writes E (pack_CmdVersion1Watchdog E)
                {| connection_duration := d2 |} b2 (watchdog_refreshed E st1))
      as ((tail2 & T2 & F2) & W2 & K2);
      try (unfold watchdog_refreshed; task_simpl; congruence).
    rewrite <- S2 in T2, W2, K2.
    unfold watchdog_refreshed in T2, W2. task_simpl.
    split; [lia|]. split.
    + exists tail1, tail2. rewrite T2, T1.
      rewrite <- app_assoc. simpl. repeat split; assumption.
    + rewrite W2. now rewrite K1, M1, I2.
Qed.

(** Two own heartbeats one second apart, five and six seconds after start. *)
Lemma heartbeat_watchdog_witness :
  let E := Sample.env (fun n => inject_Z (1005 + Z.of_nat n)) in
  let st := Sample.task Sample.args true in
  let st1 := snd (consume_Heartbeat E 30 st) in
  let st2 := snd (consume_Heartbeat E 30 st1) in
  5 < 6 /\
  (exists tail1 tail2,
     trace st2 =
       trace st ++ SocketWrite [1; 87; 0; 5] :: tail1 ++
                   SocketWrite [1; 87; 0; 6] :: tail2 /\
     forallb (fun e => negb (is_socket_write e)) tail1 = true /\
     forallb (fun e => negb (is_socket_write e)) tail2 = true) /\
  m_watchdog_msg st2 = {| connection_duration := 6 |}.
Proof.
  intros E st st1 st2.
  apply (proj2 (proj2 (heartbeat_watchdog E 30 st)) [1; 87; 0; 5] [1; 87; 0; 6]);
    try reflexivity; vm_compute; discriminate.
Defined.

(** C9 as stated fails: a heartbeat delivered while the channel is Connected
    but coming from another system (source 31, this system being 30) sends
    no watchdog command and leaves the watchdog instance as it was. *)
Lemma heartbeat_of_other_system_ignored :
  let E := Sample.env (fun n => inject_Z (1005 + Z.of_nat n)) in
  let st := Sample.task Sample.args true in
  let st1 := snd (consume_Heartbeat E 31 st) in
  tcp_connected st = true /\
  listen_mode (m_args st) = false /\
  trace st1 = [] /\
  socket_writes (trace st1) = 0%nat /\
  m_watchdog_msg st1 = m_watchdog_msg st.
Proof.
  vm_compute. repeat split.
Qed.

(** ** Structure of a dispatch *)

Lemma dispatchAsDevDataBinary_run (buf : list Z) (off len : Z) (st : Task) :
  exists st',
    dispatchAsDevDataBinary buf off len st = (Ret tt, st') /\
    extends st st'
      (mirror_of (log_pioneer_imc (m_args st)) (slice buf off (to_uint16 len))).
Proof.
  unfold dispatchAsDevDataBinary, mirror_of. unfold_task. cbv beta iota zeta.
  destruct (log_pioneer_imc (m_args st)); simpl.
  - eexists. split; [reflexivity|]. split; reflexivity.
  - exists st. split; [reflexivity|]. apply extends_refl.
Qed.

Lemma handlePioneerV2ReplyAck_ok m : handler_ok (handlePioneerV2ReplyAck m).
Proof.
  intros st. exists st, []. repeat split. apply extends_refl.
Qed.

Lemma handlePioneerV2ReplyPing_ok m : handler_ok (handlePioneerV2ReplyPing m).
Proof.
  intros st. exists st, []. repeat split. apply extends_refl.
Qed.

Lemma handlePioneerV2ReplyGetCamera_ok m :
  handler_ok (handlePioneerV2ReplyGetCamera m).
Proof.
  intros st. unfold handlePioneerV2ReplyGetCamera. unfold_task.
  eexists. eexists. split; [reflexivity|]. split; [split; reflexivity|].
  reflexivity.
Qed.

Lemma handlePioneerV1Telemetry_ok m : handler_ok (handlePioneerV1Telemetry m).
Proof.
  intros st. unfold handlePioneerV1Telemetry. unfold_task.
  eexists. eexists. split; [reflexivity|]. split; [split; reflexivity|].
  reflexivity.
Qed.

Lemma handlePioneerV2CompassCalibration_ok m :
  handler_ok (handlePioneerV2CompassCalibration m).
Proof.
  intros st. unfold handlePioneerV2CompassCalibration. unfold_task.
  eexists. eexists. split; [reflexivity|]. split; [split; reflexivity|].
  reflexivity.
Qed.

Lemma handlePioneerV2Telemetry_run (msg : DataVersion2Telemetry) (st : Task) :
  handlePioneerV2Telemetry msg st =
    (Ret tt,
     set_trace
       (trace st ++
        [Debug "Depth = %d" (Z.quot (depth msg) 1000);
         Dispatch (Depth (published_depth msg));
         Dispatch (EulerAngles (published_euler msg));
         Dispatch (Temperature (published_temperature msg))] ++
        (if generate_estimate_state_from_telemetry (m_args st)
         then [Dispatch (EstimatedState (published_estimate msg))]
         else []))
       st).
Proof.
  unfold handlePioneerV2Telemetry. unfold_task. cbv beta iota zeta.
  task_simpl.
  unfold published_depth, published_euler, published_temperature,
    published_estimate.
  destruct (generate_estimate_state_from_telemetry (m_args st));
    unfold set_trace; task_simpl; rewrite <- !app_assoc; reflexivity.
Qed.

Lemma handlePioneerV2Telemetry_ok m : handler_ok (handlePioneerV2Telemetry m).
Proof.
  intros st. rewrite handlePioneerV2Telemetry_run.
  eexists. eexists. split; [reflexivity|]. split; [split; reflexivity|].
  now destruct (generate_estimate_state_from_telemetry (m_args st)).
Qed.

Lemma is_translation_not_mirror (l : list Event) :
  forallb is_translation l = true ->
  forallb (fun e => negb (is_mirror e)) l = true.
Proof.
  induction l as [|e l IH]; simpl; [reflexivity|].
  intros H. apply andb_true_iff in H. destruct H as [He Hl].
  rewrite IH by assumption. rewrite andb_true_r.
  destruct e; try reflexivity; try discriminate.
  destruct m; try reflexivity; discriminate.
Qed.

Lemma mirrored_between_no_mirror (frame : list Z) (new : list Event) :
  mirrored_between false frame new ->
  forallb (fun e => negb (is_mirror e)) new = true.
Proof.
  intros (pre & post & -> & _ & Hpost & Hpre).
  simpl. rewrite forallb_app, Hpre by reflexivity.
  now rewrite is_translation_not_mirror.
Qed.

Lemma mirrored_first_no_mirror (frame : list Z) (new : list Event) :
  mirrored_first false frame new ->
  forallb (fun e => negb (is_mirror e)) new = true.
Proof.
  intros (post & -> & Hpost). simpl.
  now apply is_translation_not_mirror.
Qed.

Lemma mirrored_first_between (imc : bool) (frame : list Z) (new : list Event) :
  mirrored_first imc frame new -> mirrored_between imc frame new.
Proof.
  intros (post & -> & Hpost). exists [], post. repeat split; assumption.
Qed.

Section DispatchShape.

Variable E : Env.

(** The body of a telemetry case: time sync, mirror, handler. *)
Lemma telemetry_case (deviceMillis : Z) (h : M unit) (buf : list Z)
    (startIndex rb : Z) (st : Task) :
  handler_ok h ->
  exists st' new,
    (setPioneerTime E deviceMillis ;;
     dispatchAsDevDataBinary buf startIndex rb ;; h) st = (Ret tt, st') /\
    extends st st' new /\
    mirrored_between (log_pioneer_imc (m_args st))
                     (slice buf startIndex (to_uint16 rb)) new.
Proof.
  intros Hh. unfold bind.
  pose proof (setPioneerTime_returns E deviceMillis st) as R1.
  destruct (setPioneerTime_extends E deviceMillis st) as (pre & X1 & P1 & M1).
  destruct (setPioneerTime E deviceMillis st) as [o1 st1].
  simpl in R1, X1. subst o1.
  destruct (dispatchAsDevDataBinary_run buf startIndex rb st1)
    as (st2 & -> & X2).
  destruct (Hh st2) as (st3 & post & -> & X3 & P3).
  rewrite (ext_args _ _ _ X1) in X2.
  exists st3, (pre ++ mirror_of (log_pioneer_imc (m_args st))
                 (slice buf startIndex (to_uint16 rb)) ++ post).
  split; [reflexivity|]. split.
  - eapply extends_trans; [exact X1|].
    eapply extends_trans; eassumption.
  - exists pre, post. repeat split; assumption.
Qed.

(** The body of any other case: mirror, handler. *)
Lemma plain_case (h : M unit) (buf : list Z) (startIndex rb : Z) (st : Task) :
  handler_ok h ->
  exists st' new,
    (dispatchAsDevDataBinary buf startIndex rb ;; h) st = (Ret tt, st') /\
    extends st st' new /\
    mirrored_first (log_pioneer_imc (m_args st))
                   (slice buf startIndex (to_uint16 rb)) new.
Proof.
  intros Hh. unfold bind.
  destruct (dispatchAsDevDataBinary_run buf startIndex rb st)
    as (st2 & -> & X2).
  destruct (Hh st2) as (st3 & post & -> & X3 & P3).
  exists st3, (mirror_of (log_pioneer_imc (m_args st))
                 (slice buf startIndex (to_uint16 rb)) ++ post).
  split; [reflexivity|]. split.
  - eapply extends_trans; eassumption.
  - exists post. split; [reflexivity|assumption].
Qed.

(** One [case] of a dispatcher's [switch], inside the [try] block. *)
Lemma case_shape {MsgStruct} (order : bool -> list Z -> list Event -> Prop)
    (u : outcome (Z * MsgStruct))
    (body : Z -> MsgStruct -> M unit) (buf : list Z) (startIndex : Z)
    (st0 : Task) :
  (forall frame new,
     order false frame new ->
     forallb (fun e => negb (is_mirror e)) new = true) ->
  (forall rb msg st, exists st' new,
     body rb msg st = (Ret tt, st') /\ extends st st' new /\
     order (log_pioneer_imc (m_args st))
           (slice buf startIndex (to_uint16 rb)) new) ->
  dispatch_shape order buf startIndex st0
    (try_catch
       (r <- lift u ;;
        let '(rb, msg) := r in
        (if 0 <? rb then body rb msg else ret tt) ;;
        ret rb)
       (fun e => err e ;; ret 0) st0).
Proof.
  intros Horder Hbody. unfold try_catch, bind, lift, ret.
  destruct u as [[rb msg]|e].
  - destruct (0 <? rb) eqn:Hrb.
    + destruct (Hbody rb msg st0) as (st' & new & -> & X & MB).
      apply Z.ltb_lt in Hrb.
      exists rb, new. simpl.
      split; [reflexivity|]. split; [exact X|].
      split; [intros _; exact MB|]. split; [intros; lia|].
      intros Himc. rewrite Himc in MB.
      eapply Horder. eassumption.
    + apply Z.ltb_ge in Hrb.
      exists rb, []. simpl.
      split; [reflexivity|]. split; [apply extends_refl|].
      split; [intros; lia|]. split; [now left|reflexivity].
  - exists 0, [Err e]. unfold err, emit, modify. simpl.
    split; [reflexivity|]. split; [split; reflexivity|].
    split; [intros; lia|]. split; [right; now exists e|reflexivity].
Qed.

End DispatchShape.

Section DispatcherFacts.

Variable E : Env.

Lemma pioneerMessagesParse_shape (buf : list Z) (startIndex length : Z) (st : Task) :
  dispatch_shape mirrored_between buf startIndex
                 (telemetry_loaded startIndex st)
                 (pioneerMessagesParse E buf startIndex length st).
Proof.
  assert (L : set_reads
                (reads (set_reads (reads st ++ [startIndex]) st)
                 ++ [startIndex + 1])
                (set_reads (reads st ++ [startIndex]) st)
              = telemetry_loaded startIndex st).
  { unfold telemetry_loaded, set_reads. simpl.
    now rewrite <- app_assoc. }
  unfold pioneerMessagesParse, pioneerMessagesParse_try.
  unfold try_catch at 1. unfold bind at 1. unfold load at 1.
  unfold bind at 1. unfold modify at 1. unfold ret at 1.
  unfold bind at 1. unfold load at 1.
  unfold bind at 1. unfold modify at 1. unfold ret at 1.
  rewrite L. cbv zeta.
  set (code := Z.shiftl (byte_at buf startIndex) 8 + byte_at buf (startIndex + 1)).
  destruct (code =? PIONEER_MSG_VERSION_1_TELEMETRY_CODE E).
  { apply (case_shape mirrored_between
             (unpack_DataVersion1Telemetry E buf startIndex length)
             (fun rb msg =>
                setPioneerTime_V1 E msg ;;
                dispatchAsDevDataBinary buf startIndex rb ;;
                handlePioneerV1Telemetry msg)).
    { apply mirrored_between_no_mirror. }
    intros rb msg st1. apply telemetry_case.
    apply handlePioneerV1Telemetry_ok. }
  destruct (code =? PIONEER_MSG_VERSION_2_TELEMETRY_CODE E).
  { apply (case_shape mirrored_between
             (unpack_DataVersion2Telemetry E buf startIndex length)
             (fun rb msg =>
                setPioneerTime_V2 E msg ;;
                dispatchAsDevDataBinary buf startIndex rb ;;
                handlePioneerV2Telemetry msg)).
    { apply mirrored_between_no_mirror. }
    intros rb msg st1. apply telemetry_case.
    apply handlePioneerV2Telemetry_ok. }
  destruct (code =? PIONEER_MSG_VERSION_2_COMPASS_CALIBRATION_CODE E).
  { apply (case_shape mirrored_between
             (unpack_DataVersion2Compasscalibration E buf startIndex length)
             (fun rb msg =>
                dispatchAsDevDataBinary buf startIndex rb ;;
                handlePioneerV2CompassCalibration msg)).
    { apply mirrored_between_no_mirror. }
    intros rb msg st1.
    destruct (plain_case (handlePioneerV2CompassCalibration msg)
                buf startIndex rb st1
                (handlePioneerV2CompassCalibration_ok msg))
      as (st' & new & H1 & H2 & H3).
    exists st', new. split; [assumption|]. split; [assumption|].
    now apply mirrored_first_between. }
  exists 0, []. simpl.
  split; [reflexivity|]. split; [apply extends_refl|].
  split; [intros; lia|]. split; [now left|reflexivity].
Qed.

Lemma pioneerCommandRepliesParse_shape (buf : list Z) (startIndex length : Z) (st : Task) :
  dispatch_shape mirrored_first buf startIndex
                 (reply_loaded startIndex st)
                 (pioneerCommandRepliesParse E buf startIndex length st).
Proof.
  unfold pioneerCommandRepliesParse, pioneerCommandRepliesParse_try.
  unfold try_catch at 1. unfold bind at 1. unfold load at 1.
  unfold bind at 1. unfold modify at 1. unfold ret at 1.
  fold (reply_loaded startIndex st).
  set (code := byte_at buf startIndex).
  destruct (code =? PIONEER_REPLY_VERSION_2_ACK E).
  { apply (case_shape mirrored_first
             (unpack_ReplyVersion2Ack E buf startIndex length)
             (fun rb msg =>
                dispatchAsDevDataBinary buf startIndex rb ;;
                handlePioneerV2ReplyAck msg)).
    { apply mirrored_first_no_mirror. }
    intros rb msg st1. apply plain_case.
    apply handlePioneerV2ReplyAck_ok. }
  destruct (code =? PIONEER_REPLY_VERSION_2_PING E).
  { apply (case_shape mirrored_first
             (unpack_ReplyVersion2Ping E buf startIndex length)
             (fun rb msg =>
                dispatchAsDevDataBinary buf startIndex rb ;;
                handlePioneerV2ReplyPing msg)).
    { apply mirrored_first_no_mirror. }
    intros rb msg st1. apply plain_case.
    apply handlePioneerV2ReplyPing_ok. }
  destruct (code =? PIONEER_REPLY_VERSION_2_GET_CAMERA E).
  { apply (case_shape mirrored_first
             (unpack_ReplyVersion2GetCameraParameters E buf startIndex length)
             (fun rb msg =>
                dispatchAsDevDataBinary buf startIndex rb ;;
                handlePioneerV2ReplyGetCamera msg)).
    { apply mirrored_first_no_mirror. }
    intros rb msg st1. apply plain_case.
    apply handlePioneerV2ReplyGetCamera_ok. }
  exists 0, []. simpl.
  split; [reflexivity|]. split; [apply extends_refl|].
  split; [intros; lia|]. split; [now left|reflexivity].
Qed.

(** Whatever the declared length, the telemetry dispatcher loads the byte at
    [startIndex] and the byte after it. *)
Lemma pioneerMessagesParse_reads (buf : list Z) (startIndex length : Z) (st : Task) :
  reads (snd (pioneerMessagesParse E buf startIndex length st)) =
    reads st ++ [startIndex; startIndex + 1].
Proof.
  destruct (pioneerMessagesParse_shape buf startIndex length st)
    as (rb & new & _ & X & _).
  now rewrite (ext_reads _ _ _ X).
Qed.

End DispatcherFacts.

(** ** Bounds of the telemetry dispatcher's loads *)

(** C4 fails on the code.  Handed a receive buffer with a declared length of
    one byte, the telemetry dispatcher still loads the byte at
    [startIndex + 1] to build its type code: offset 1 is loaded although the
    declared range is [0, 1). *)
Theorem telemetry_dispatch_loads_past_length :
  let E := Sample.env (fun _ => 1000%Q) in
  let st := Sample.task Sample.args true in
  let startIndex := 0 in
  let length := 1 in
  let st' := snd (pioneerMessagesParse E [0x02; 0x54; 0; 0; 0; 0]
                    startIndex length st) in
  reads st' = [0; 1] /\
  In 1 (reads st') /\
  ~ (startIndex <= 1 < startIndex + length).
Proof.
  intros E st startIndex length st'.
  assert (H : reads st' = [0; 1]).
  { subst st'. now rewrite pioneerMessagesParse_reads. }
  split; [exact H|]. split.
  - rewrite H. right. now left.
  - subst startIndex length. lia.
Qed.

(** ** Sender filtering *)

(** C5.  The sender-acceptance predicate of the connectionless channel
    accepts every sender when the UDP-sender filter is off; when the filter
    is on it accepts a sender exactly when its address equals the configured
    address of the reliable channel.  A datagram whose sender is refused is
    dropped before the dispatcher: the task is left untouched; an accepted
    datagram is handed to the telemetry dispatcher. *)
Theorem udp_sender_filter :
  forall (E : Env) (st : Task) (address : Address) (port : Z),
    exists accepted : bool,
      udp_package_acceptance address port st = (Ret accepted, st) /\
      (filter_udp_to_tcp_address (m_args st) = false -> accepted = true) /\
      (filter_udp_to_tcp_address (m_args st) = true ->
       (accepted = true <-> address = TCP_addr (m_args st))) /\
      (accepted = false ->
       forall datagram,
         UDPComm_receive E datagram address port st = (Ret None, st)) /\
      (accepted = true ->
       forall datagram rb st',
         pioneerMessagesParse E datagram 0 (Z.of_nat (List.length datagram)) st
           = (Ret rb, st') ->
         UDPComm_receive E datagram address port st = (Ret (Some rb), st')).
Proof.
  intros E st address port.
  exists (negb (filter_udp_to_tcp_address (m_args st))
          || (TCP_addr (m_args st) =? address)).
  assert (A : udp_package_acceptance address port st =
              (Ret (negb (filter_udp_to_tcp_address (m_args st))
                    || (TCP_addr (m_args st) =? address)), st)).
  { unfold udp_package_acceptance. unfold_task. cbv beta iota zeta.
    now destruct (negb (filter_udp_to_tcp_address (m_args st))
                  || (TCP_addr (m_args st) =? address)). }
  split; [exact A|]. split; [|split; [|split]].
  - intros ->. reflexivity.
  - intros ->. simpl. rewrite Z.eqb_eq. split; congruence.
  - intros H datagram. unfold UDPComm_receive.
    unfold bind at 1. rewrite A, H. reflexivity.
  - intros H datagram rb st' Hparse. unfold UDPComm_receive.
    unfold bind at 1. rewrite A, H.
    unfold udp_dataprocessor, bind. rewrite Hparse. reflexivity.
Qed.

(** With the filter on, a datagram from another address than the configured
    peer never reaches the dispatcher. *)
Lemma udp_sender_filter_witness :
  let E := Sample.env (fun _ => 1000%Q) in
  let st := Sample.task (Sample.with_filter true Sample.args) true in
  UDPComm_receive E [0x02; 0x54; 0; 0; 0; 0] 0x0A000001 2010 st
  = (Ret None, st).
Proof.
  intros E st.
  destruct (udp_sender_filter E st 0x0A000001 2010)
    as (accepted & A & _ & _ & Hdrop & _).
  apply Hdrop.
  vm_compute in A. now inversion A.
Defined.

(** ** Translation of version-2 telemetry *)

(** C6.  For every decoded version-2 telemetry record the handler publishes,
    in this order, a depth equal to the raw depth field divided by 1000 (a
    raw depth of 1500 publishes 1.5), an orientation whose roll, pitch and
    yaw are the device's degrees converted to radians (a roll of 90 publishes
    pi/2) with the yaw repeated as the magnetic heading, and a temperature
    equal to the raw water temperature divided by 10; the only other
    publication, if any, is the synthetic estimate. *)
Theorem v2_telemetry_translation :
  forall (msg : DataVersion2Telemetry) (st : Task),
    exists dbg estimate,
      handlePioneerV2Telemetry msg st =
        (Ret tt,
         set_trace
           (trace st ++
            [dbg;
             Dispatch (Depth (IZR (depth msg) / 1000));
             Dispatch (EulerAngles
               {| euler_time := IZR (rt_clock msg);
                  euler_phi := IZR (roll msg) * (PI / 180);
                  euler_theta := IZR (pitch msg) * (PI / 180);
                  euler_psi := IZR (yaw msg) * (PI / 180);
                  euler_psi_magnetic := IZR (yaw msg) * (PI / 180) |});
             Dispatch (Temperature (IZR (temp_water msg) / 10))] ++
            estimate)
           st) /\
      is_publication dbg = false /\
      (estimate = [] \/
       exists m, estimate = [Dispatch (EstimatedState m)]) /\
      (depth msg = 1500 -> (IZR (depth msg) / 1000 = 1.5)%R) /\
      (roll msg = 90 -> (IZR (roll msg) * (PI / 180) = PI / 2)%R).
Proof.
  intros msg st. rewrite handlePioneerV2Telemetry_run.
  eexists. eexists. split; [reflexivity|].
  split; [reflexivity|]. split; [|split].
  - destruct (generate_estimate_state_from_telemetry (m_args st));
      [right; eexists; reflexivity | now left].
  - intros ->. lra.
  - intros ->. field.
Qed.

(** Scenario A in binary32: the quotient of 1500 by 1000 is the float with
    significand 12582912 and exponent -23, which is 3/2 exactly, so the
    idealisation loses nothing there. *)
Lemma depth_1500_binary32 :
  depth_value_binary32 1500 = SpecFloat.S754_finite false 12582912 (-23) /\
  (12582912 # 2 ^ 23 == 3 # 2)%Q.
Proof. split; reflexivity. Qed.

(** Scenarios A and B on the sample record (depth 1500, roll 90). *)
Lemma v2_telemetry_translation_witness :
  (IZR (depth Sample.telemetry_v2) / 1000 = 1.5)%R /\
  (IZR (roll Sample.telemetry_v2) * (PI / 180) = PI / 2)%R.
Proof.
  destruct (v2_telemetry_translation Sample.telemetry_v2
              (Sample.task Sample.args true))
    as (dbg & estimate & _ & _ & _ & HA & HB).
  split; [apply HA | apply HB]; reflexivity.
Defined.

(** C10.  With the synthetic-estimate flag on, the estimate published for a
    version-2 telemetry record carries the raw depth integer as its depth,
    which is 1000 times the depth measurement published from the same
    record; its roll, pitch and yaw are those of the published orientation,
    and its position is the fixed placeholder reference. *)
Theorem synthetic_estimate_depth_unscaled :
  forall (msg : DataVersion2Telemetry) (st : Task),
    generate_estimate_state_from_telemetry (m_args st) = true ->
    exists dbg d euler temp estate,
      trace (snd (handlePioneerV2Telemetry msg st)) =
        trace st ++
        [dbg; Dispatch (Depth d); Dispatch (EulerAngles euler);
         Dispatch (Temperature temp); Dispatch (EstimatedState estate)] /\
      d = (IZR (depth msg) / 1000)%R /\
      estate_depth estate = IZR (depth msg) /\
      estate_depth estate = (1000 * d)%R /\
      estate_phi estate = euler_phi euler /\
      estate_theta estate = euler_theta euler /\
      estate_psi estate = euler_psi euler /\
      euler_phi euler = (IZR (roll msg) * (PI / 180))%R /\
      euler_theta euler = (IZR (pitch msg) * (PI / 180))%R /\
      euler_psi euler = (IZR (yaw msg) * (PI / 180))%R /\
      estate_lat estate = (41.18478174 * (PI / 180))%R /\
      estate_lon estate = (-8.70657964 * (PI / 180))%R.
Proof.
  intros msg st H. rewrite handlePioneerV2Telemetry_run, H.
  do 5 eexists. split; [reflexivity|].
  unfold published_depth. simpl.
  repeat split; try reflexivity. field.
Qed.

Lemma synthetic_estimate_depth_unscaled_witness :
  exists dbg d euler temp estate,
    trace (snd (handlePioneerV2Telemetry Sample.telemetry_v2
                  (Sample.task (Sample.with_estimate true Sample.args) true))) =
      [dbg; Dispatch (Depth d); Dispatch (EulerAngles euler);
       Dispatch (Temperature temp); Dispatch (EstimatedState estate)] /\
    estate_depth estate = 1500%R /\
    estate_depth estate = (1000 * d)%R.
Proof.
  destruct (synthetic_estimate_depth_unscaled Sample.telemetry_v2
              (Sample.task (Sample.with_estimate true Sample.args) true)
              eq_refl)
    as (dbg & d & euler & temp & estate & T & _ & D1 & D2 & _).
  exists dbg, d, euler, temp, estate.
  split; [exact T|]. split; [exact D1 | exact D2].
Defined.

(** ** Order of mirror, time sync and translation *)

(** C7, as the code has it.  For every record a dispatcher decodes (a
    positive byte count [rb]), the [rb] bytes of the record are mirrored to
    the raw-binary observation channel when the structured-echo flag is set,
    and this mirror comes before every debug line and publication of the
    record's handler.  On the command/reply channel the mirror is the first
    effect of the dispatch; on the telemetry channel it comes after whatever
    the time-sync policy did with the record's device clock, which publishes
    nothing.  When the flag is clear, no mirror is emitted by the dispatch at
    all. *)
Theorem mirror_before_translation :
  forall (E : Env) (buf : list Z) (startIndex length : Z) (st : Task),
    let imc := log_pioneer_imc (m_args st) in
    (exists rb new,
       fst (pioneerMessagesParse E buf startIndex length st) = Ret rb /\
       trace (snd (pioneerMessagesParse E buf startIndex length st)) =
         trace st ++ new /\
       (0 < rb ->
        exists pre post,
          new = pre ++ mirror_of imc (slice buf startIndex (to_uint16 rb))
                    ++ post /\
          forallb (fun e => negb (is_publication e)) pre = true /\
          forallb is_translation post = true) /\
       (imc = false -> forallb (fun e => negb (is_mirror e)) new = true)) /\
    (exists rb new,
       fst (pioneerCommandRepliesParse E buf startIndex length st) = Ret rb /\
       trace (snd (pioneerCommandRepliesParse E buf startIndex length st)) =
         trace st ++ new /\
       (0 < rb ->
        exists post,
          new = mirror_of imc (slice buf startIndex (to_uint16 rb)) ++ post /\
          forallb is_translation post = true) /\
       (imc = false -> forallb (fun e => negb (is_mirror e)) new = true)).
Proof.
  intros E buf startIndex length st imc. split.
  - destruct (pioneerMessagesParse_shape E buf startIndex length st)
      as (rb & new & R & X & O & _ & N).
    exists rb, new. split; [exact R|].
    split; [exact (ext_trace _ _ _ X)|]. split; [|exact N].
    intros Hrb. destruct (O Hrb) as (pre & post & H1 & H2 & H3 & _).
    exists pre, post. repeat split; assumption.
  - destruct (pioneerCommandRepliesParse_shape E buf startIndex length st)
      as (rb & new & R & X & O & _ & N).
    exists rb, new. split; [exact R|].
    split; [exact (ext_trace _ _ _ X)|]. split; [|exact N].
    intros Hrb. exact (O Hrb).
Qed.

Lemma mirror_before_translation_witness :
  let E := Sample.env (fun _ => 1000%Q) in
  let st := Sample.task (Sample.with_imc true Sample.args) true in
  exists pre post,
    trace (snd (pioneerMessagesParse E sample_frame 0 7 st)) =
      pre ++ [Dispatch (DevDataBinary [2; 84; 0; 0; 0; 0])] ++ post /\
    forallb (fun e => negb (is_publication e)) pre = true /\
    forallb is_translation post = true.
Proof.
  intros E st.
  destruct (mirror_before_translation E sample_frame 0 7 st)
    as [(rb & new & R & T & O & _) _].
  assert (Hrb : rb = 6).
  { lazy in R. now inversion R. }
  subst rb. destruct (O eq_refl) as (pre & post & H1 & H2 & H3).
  exists pre, post. rewrite T, H1. simpl. repeat split; assumption.
Defined.

(** C7 as stated fails on the telemetry channel: with the structured echo
    on, a version-2 telemetry frame whose device clock is off by more than
    1100 ms is first given to the time-sync policy, which examines the clock,
    warns, writes a set-system-time command to the socket, logs and mirrors
    that command and records the correction; only then is the frame itself
    mirrored. *)
Lemma time_sync_precedes_mirror :
  let E := Sample.env (fun _ => 1000%Q) in
  let st := Sample.task (Sample.with_imc true Sample.args) true in
  let st' := snd (pioneerMessagesParse E sample_frame 0 7 st) in
  fst (pioneerMessagesParse E sample_frame 0 7 st) = Ret 6 /\
  firstn 6 (trace st') =
    [War "Setting time for vehicle";
     SocketWrite [2; 84; 0; 0; 3; 232];
     Debug "Send %d bytes for msg %s" 6;
     LoggerWrite LOGGER_COMMANDS [2; 84; 0; 0; 3; 232];
     Dispatch (DevDataBinary [2; 84; 0; 0; 3; 232]);
     Dispatch (DevDataBinary [2; 84; 0; 0; 0; 0])] /\
  m_last_set_time st = 0%Q /\
  m_last_set_time st' = 1000%Q.
Proof.
  lazy. repeat split.
Qed.

(** ** Errors inside a dispatch *)

(** C8.  A call of either dispatcher always returns a byte count: no
    exception escapes it.  When anything inside its [try] block raises, the
    dispatcher logs the error text and returns zero bytes processed, keeping
    the effects made before the error.  The connection state of the reliable
    channel is the same after the call as before it. *)
Theorem dispatch_catches_errors :
  forall (E : Env) (buf : list Z) (startIndex length : Z) (st : Task),
    ((exists rb,
        fst (pioneerMessagesParse E buf startIndex length st) = Ret rb) /\
     tcp_connected (snd (pioneerMessagesParse E buf startIndex length st)) =
       tcp_connected st /\
     (forall e st',
        pioneerMessagesParse_try E buf startIndex length st = (Raise e, st') ->
        pioneerMessagesParse E buf startIndex length st =
          (Ret 0, set_trace (trace st' ++ [Err e]) st'))) /\
    ((exists rb,
        fst (pioneerCommandRepliesParse E buf startIndex length st) = Ret rb) /\
     tcp_connected (snd (pioneerCommandRepliesParse E buf startIndex length st)) =
       tcp_connected st /\
     (forall e st',
        pioneerCommandRepliesParse_try E buf startIndex length st
          = (Raise e, st') ->
        pioneerCommandRepliesParse E buf startIndex length st =
          (Ret 0, set_trace (trace st' ++ [Err e]) st'))).
Proof.
  intros E buf startIndex length st. split.
  - destruct (pioneerMessagesParse_shape E buf startIndex length st)
      as (rb & new & R & X & _).
    split; [now exists rb|]. split; [exact (ext_connected _ _ _ X)|].
    intros e st' H. unfold pioneerMessagesParse, try_catch. rewrite H.
    reflexivity.
  - destruct (pioneerCommandRepliesParse_shape E buf startIndex length st)
      as (rb & new & R & X & _).
    split; [now exists rb|]. split; [exact (ext_connected _ _ _ X)|].
    intros e st' H. unfold pioneerCommandRepliesParse, try_catch. rewrite H.
    reflexivity.
Qed.

(** A version-2 telemetry frame whose declared length exceeds the buffer:
    the decoder raises, the dispatcher logs and returns zero. *)
Lemma dispatch_catches_errors_witness :
  let E := Sample.env (fun _ => 1000%Q) in
  let st := Sample.task Sample.args true in
  pioneerMessagesParse E [0x02; 0x54] 0 10 st =
    (Ret 0,
     set_trace [Err "declared length exceeds the buffer"]
               (telemetry_loaded 0 st)).
Proof.
  intros E st.
  apply (proj2 (proj2 (proj1 (dispatch_catches_errors E [0x02; 0x54] 0 10 st)))
           "declared length exceeds the buffer"%string (telemetry_loaded 0 st)).
  reflexivity.
Defined.

(** ** More on the command driver and the dispatchers *)

Lemma set_trace_nil (st : Task) : set_trace (trace st ++ []) st = st.
Proof. destruct st. unfold set_trace. simpl. now rewrite app_nil_r. Qed.

Lemma set_buf_send_same (st : Task) : set_buf_send (m_buf_send st) st = st.
Proof. now destruct st. Qed.

Lemma sendCommand_sent_from :
  forall (E : Env) (MsgStruct : Type) (pk : Pack MsgStruct)
         (msg : MsgStruct) (st : Task),
    exists sd new,
      fst (sendCommand E pk msg st) = Ret sd /\
      sent_from st (snd (sendCommand E pk msg st)) new /\
      (socket_writes new <= 1)%nat /\
      (0 < sd -> socket_writes new = 1%nat) /\
      (listen_mode (m_args st) = true \/ tcp_connected st = false ->
       sd = 0 /\ snd (sendCommand E pk msg st) = st).
Proof.
  intros E MsgStruct pk msg st.
  destruct (listen_mode (m_args st) || negb (tcp_connected st)) eqn:H.
  - rewrite sendCommand_suppressed by assumption.
    exists 0, []. simpl. split; [reflexivity|]. split.
    { exists (m_buf_send st). now rewrite set_buf_send_same, set_trace_nil. }
    split; [unfold socket_writes; simpl; lia|]. split; [lia|].
    intros _. now split.
  - apply orb_false_iff in H. destruct H as [HL HC].
    apply negb_false_iff in HC.
    rewrite sendCommand_open by assumption.
    assert (No : listen_mode (m_args st) = true \/ tcp_connected st = false ->
                 False) by (intros [G|G]; congruence).
    destruct (pk msg) as [bytes|e].
    + cbv zeta. destruct (socket_write E bytes) as [sd|e].
      * exists sd, (sent_events (log_pioneer_imc (m_args st)) bytes sd).
        simpl. split; [reflexivity|]. split; [now eexists|].
        rewrite socket_writes_sent_events.
        split; [lia|]. split; [reflexivity|]. intros G. now destruct (No G).
      * exists 0, [SocketWrite bytes; Err e]. simpl.
        split; [reflexivity|]. split; [now eexists|].
        split; [unfold socket_writes; simpl; lia|]. split; [lia|].
        intros G. now destruct (No G).
    + exists 0, [Err e]. simpl. split; [reflexivity|]. split.
      { exists (m_buf_send st). now rewrite set_buf_send_same. }
      split; [unfold socket_writes; simpl; lia|]. split; [lia|].
      intros G. now destruct (No G).
Qed.

(** X1.  Whatever the record and whatever the serialiser and the socket
    do, [sendCommand] returns and changes nothing of the task but the send
    buffer and the trace; it writes to the socket at most once, exactly once
    when it reports a positive count, and when it is suppressed (listen-only
    or Disconnected) the task is exactly as before. *)
Theorem sendCommand_footprint :
  forall (E : Env) (MsgStruct : Type) (pk : Pack MsgStruct)
         (msg : MsgStruct) (st : Task),
    exists sd new,
      fst (sendCommand E pk msg st) = Ret sd /\
      sent_from st (snd (sendCommand E pk msg st)) new /\
      (socket_writes new <= 1)%nat /\
      (0 < sd -> socket_writes new = 1%nat) /\
      (listen_mode (m_args st) = true \/ tcp_connected st = false ->
       sd = 0 /\ snd (sendCommand E pk msg st) = st).
Proof. exact sendCommand_sent_from. Qed.

Lemma sendCommand_footprint_witness :
  let E := Sample.env (fun _ => 1000%Q) in
  let st := Sample.task Sample.args false in
  snd (sendCommand E (pack_CmdVersion1Watchdog E)
         {| connection_duration := 7 |} st) = st.
Proof.
  intros E st.
  destruct (sendCommand_footprint E _ (pack_CmdVersion1Watchdog E)
              {| connection_duration := 7 |} st)
    as (sd & new & _ & _ & _ & _ & H).
  apply H. right. reflexivity.
Defined.

Lemma handlePioneerV2ReplyAck_trace m : handler_trace (handlePioneerV2ReplyAck m).
Proof. intros st. exists []. now rewrite set_trace_nil. Qed.

Lemma handlePioneerV2ReplyPing_trace m : handler_trace (handlePioneerV2ReplyPing m).
Proof. intros st. exists []. now rewrite set_trace_nil. Qed.

Lemma handlePioneerV2ReplyGetCamera_trace m :
  handler_trace (handlePioneerV2ReplyGetCamera m).
Proof. intros st. eexists. split; reflexivity. Qed.

Lemma handlePioneerV1Telemetry_trace m :
  handler_trace (handlePioneerV1Telemetry m).
Proof. intros st. eexists. split; reflexivity. Qed.

Lemma handlePioneerV2CompassCalibration_trace m :
  handler_trace (handlePioneerV2CompassCalibration m).
Proof. intros st. eexists. split; reflexivity. Qed.

Lemma handlePioneerV2Telemetry_trace m :
  handler_trace (handlePioneerV2Telemetry m).
Proof.
  intros st. rewrite handlePioneerV2Telemetry_run. eexists.
  split; [reflexivity|].
  now destruct (generate_estimate_state_from_telemetry (m_args st)).
Qed.

Lemma dispatchAsDevDataBinary_trace (buf : list Z) (off len : Z) (st : Task) :
  dispatchAsDevDataBinary buf off len st =
    (Ret tt,
     set_trace (trace st ++ mirror_of (log_pioneer_imc (m_args st))
                                      (slice buf off (to_uint16 len))) st).
Proof.
  unfold dispatchAsDevDataBinary, mirror_of. unfold_task. cbv beta iota zeta.
  destruct (log_pioneer_imc (m_args st)); simpl; [reflexivity|].
  now rewrite set_trace_nil.
Qed.

Lemma translation_not_outbound (l : list Event) :
  forallb is_translation l = true ->
  forallb (fun e => negb (is_outbound e)) l = true.
Proof.
  induction l as [|e l IH]; simpl; [reflexivity|].
  intros H. apply andb_true_iff in H. destruct H as [He Hl].
  rewrite IH by assumption. rewrite andb_true_r.
  destruct e; try reflexivity; discriminate.
Qed.

Lemma mirror_not_outbound (imc : bool) (frame : list Z) :
  forallb (fun e => negb (is_outbound e)) (mirror_of imc frame) = true.
Proof. now destruct imc. Qed.

(** The mirror and the handler of a case touch nothing but the trace. *)
Lemma plain_case_trace (h : M unit) (buf : list Z) (startIndex rb : Z) (st : Task) :
  handler_trace h ->
  exists new,
    (dispatchAsDevDataBinary buf startIndex rb ;; h) st =
      (Ret tt, set_trace (trace st ++ new) st) /\
    forallb (fun e => negb (is_outbound e)) new = true.
Proof.
  intros Hh. unfold bind. rewrite dispatchAsDevDataBinary_trace.
  destruct (Hh (set_trace
                  (trace st ++ mirror_of (log_pioneer_imc (m_args st))
                                         (slice buf startIndex (to_uint16 rb)))
                  st)) as (post & -> & P).
  exists (mirror_of (log_pioneer_imc (m_args st))
            (slice buf startIndex (to_uint16 rb)) ++ post).
  split.
  - unfold set_trace. simpl. now rewrite <- app_assoc.
  - rewrite forallb_app, mirror_not_outbound. simpl.
    now apply translation_not_outbound.
Qed.

Section DispatchCases.

Variable E : Env.

(** One [case] of a [switch], for a property [Q] of the returned count and
    the final task. *)
Lemma case_with {MsgStruct} (Q : Z -> Task -> Prop)
    (u : outcome (Z * MsgStruct)) (body : Z -> MsgStruct -> M unit)
    (st0 : Task) :
  (forall rb msg, 0 < rb ->
     exists st', body rb msg st0 = (Ret tt, st') /\ Q rb st') ->
  (forall rb, rb <= 0 -> Q rb st0) ->
  (forall e, Q 0 (set_trace (trace st0 ++ [Err e]) st0)) ->
  exists rb st',
    try_catch
      (r <- lift u ;;
       let '(rb, msg) := r in
       (if 0 <? rb then body rb msg else ret tt) ;;
       ret rb)
      (fun e => err e ;; ret 0) st0 = (Ret rb, st') /\
    Q rb st'.
Proof.
  intros Hbody Hrefused Herr. unfold try_catch, bind, lift, ret.
  destruct u as [[rb msg]|e].
  - destruct (0 <? rb) eqn:Hrb.
    + apply Z.ltb_lt in Hrb.
      destruct (Hbody rb msg Hrb) as (st' & -> & HQ).
      exists rb, st'. now split.
    + apply Z.ltb_ge in Hrb. exists rb, st0. split; [reflexivity|].
      now apply Hrefused.
  - exists 0. eexists. unfold err, emit, modify. split; [reflexivity|].
    apply Herr.
Qed.

Lemma pioneerMessagesParse_with (Q : Z -> Task -> Prop)
    (buf : list Z) (startIndex length : Z) (st : Task) :
  let st0 := telemetry_loaded startIndex st in
  (forall t rb h, 0 < rb -> handler_trace h ->
     exists st',
       (setPioneerTime E t ;; dispatchAsDevDataBinary buf startIndex rb ;; h) st0
         = (Ret tt, st') /\ Q rb st') ->
  (forall rb h, 0 < rb -> handler_trace h ->
     exists st',
       (dispatchAsDevDataBinary buf startIndex rb ;; h) st0 = (Ret tt, st') /\
       Q rb st') ->
  (forall rb, rb <= 0 -> Q rb st0) ->
  (forall e, Q 0 (set_trace (trace st0 ++ [Err e]) st0)) ->
  exists rb st',
    pioneerMessagesParse E buf startIndex length st = (Ret rb, st') /\
    Q rb st'.
Proof.
  intros st0 H1 H2 H3 H4.
  assert (L : set_reads
                (reads (set_reads (reads st ++ [startIndex]) st)
                 ++ [startIndex + 1])
                (set_reads (reads st ++ [startIndex]) st)
              = st0).
  { unfold st0, telemetry_loaded, set_reads. simpl.
    now rewrite <- app_assoc. }
  unfold pioneerMessagesParse, pioneerMessagesParse_try.
  unfold try_catch at 1. unfold bind at 1. unfold load at 1.
  unfold bind at 1. unfold modify at 1. unfold ret at 1.
  unfold bind at 1. unfold load at 1.
  unfold bind at 1. unfold modify at 1. unfold ret at 1.
  rewrite L. cbv zeta.
  set (code := Z.shiftl (byte_at buf startIndex) 8 + byte_at buf (startIndex + 1)).
  destruct (code =? PIONEER_MSG_VERSION_1_TELEMETRY_CODE E).
  { apply (case_with Q
             (unpack_DataVersion1Telemetry E buf startIndex length)
             (fun rb msg =>
                setPioneerTime_V1 E msg ;;
                dispatchAsDevDataBinary buf startIndex rb ;;
                handlePioneerV1Telemetry msg)); try assumption.
    intros rb msg Hrb. apply H1; [assumption|].
    apply handlePioneerV1Telemetry_trace. }
  destruct (code =? PIONEER_MSG_VERSION_2_TELEMETRY_CODE E).
  { apply (case_with Q
             (unpack_DataVersion2Telemetry E buf startIndex length)
             (fun rb msg =>
                setPioneerTime_V2 E msg ;;
                dispatchAsDevDataBinary buf startIndex rb ;;
                handlePioneerV2Telemetry msg)); try assumption.
    intros rb msg Hrb. apply H1; [assumption|].
    apply handlePioneerV2Telemetry_trace. }
  destruct (code =? PIONEER_MSG_VERSION_2_COMPASS_CALIBRATION_CODE E).
  { apply (case_with Q
             (unpack_DataVersion2Compasscalibration E buf startIndex length)
             (fun rb msg =>
                dispatchAsDevDataBinary buf startIndex rb ;;
                handlePioneerV2CompassCalibration msg)); try assumption.
    intros rb msg Hrb. apply H2; [assumption|].
    apply handlePioneerV2CompassCalibration_trace. }
  exists 0, st0. split; [reflexivity|]. apply H3. lia.
Qed.

Lemma pioneerCommandRepliesParse_with (Q : Z -> Task -> Prop)
    (buf : list Z) (startIndex length : Z) (st : Task) :
  let st0 := reply_loaded startIndex st in
  (forall rb h, 0 < rb -> handler_trace h ->
     exists st',
       (dispatchAsDevDataBinary buf startIndex rb ;; h) st0 = (Ret tt, st') /\
       Q rb st') ->
  (forall rb, rb <= 0 -> Q rb st0) ->
  (forall e, Q 0 (set_trace (trace st0 ++ [Err e]) st0)) ->
  exists rb st',
    pioneerCommandRepliesParse E buf startIndex length st = (Ret rb, st') /\
    Q rb st'.
Proof.
  intros st0 H2 H3 H4.
  unfold pioneerCommandRepliesParse, pioneerCommandRepliesParse_try.
  unfold try_catch at 1. unfold bind at 1. unfold load at 1.
  unfold bind at 1. unfold modify at 1. unfold ret at 1.
  fold (reply_loaded startIndex st). fold st0.
  set (code := byte_at buf startIndex).
  destruct (code =? PIONEER_REPLY_VERSION_2_ACK E).
  { apply (case_with Q
             (unpack_ReplyVersion2Ack E buf startIndex length)
             (fun rb msg =>
                dispatchAsDevDataBinary buf startIndex rb ;;
                handlePioneerV2ReplyAck msg)); try assumption.
    intros rb msg Hrb. apply H2; [assumption|].
    apply handlePioneerV2ReplyAck_trace. }
  destruct (code =? PIONEER_REPLY_VERSION_2_PING E).
  { apply (case_with Q
             (unpack_ReplyVersion2Ping E buf startIndex length)
             (fun rb msg =>
                dispatchAsDevDataBinary buf startIndex rb ;;
                handlePioneerV2ReplyPing msg)); try assumption.
    intros rb msg Hrb. apply H2; [assumption|].
    apply handlePioneerV2ReplyPing_trace. }
  destruct (code =? PIONEER_REPLY_VERSION_2_GET_CAMERA E).
  { apply (case_with Q
             (unpack_ReplyVersion2GetCameraParameters E buf startIndex length)
             (fun rb msg =>
                dispatchAsDevDataBinary buf startIndex rb ;;
                handlePioneerV2ReplyGetCamera msg)); try assumption.
    intros rb msg Hrb. apply H2; [assumption|].
    apply handlePioneerV2ReplyGetCamera_trace. }
  exists 0, st0. split; [reflexivity|]. apply H3. lia.
Qed.

End DispatchCases.

Lemma handler_trace_ok (h : M unit) : handler_trace h -> handler_ok h.
Proof.
  intros H st. destruct (H st) as (new & Hh & P).
  exists (set_trace (trace st ++ new) st), new.
  split; [exact Hh|]. split; [split; reflexivity | exact P].
Qed.

(** X2.  A frame on the command/reply channel never causes anything to
    be sent: whatever the buffer and whatever the decoders do, the dispatcher
    returns, the task differs from before only by the loaded code byte and
    by new trace entries, and none of these is a socket write or a logger
    write.  In particular the clock is not read and the time-sync state is
    untouched. *)
Theorem reply_dispatch_never_sends :
  forall (E : Env) (buf : list Z) (startIndex length : Z) (st : Task),
    exists rb new,
      pioneerCommandRepliesParse E buf startIndex length st =
        (Ret rb, set_trace (trace st ++ new) (reply_loaded startIndex st)) /\
      forallb (fun e => negb (is_outbound e)) new = true.
Proof.
  intros E buf startIndex length st.
  destruct (pioneerCommandRepliesParse_with E
              (fun _ st' =>
                 exists new,
                   st' = set_trace (trace st ++ new) (reply_loaded startIndex st)
                   /\ forallb (fun e => negb (is_outbound e)) new = true)
              buf startIndex length st)
    as (rb & st' & R & new & -> & P).
  - intros rb h Hrb Hh.
    destruct (plain_case_trace h buf startIndex rb
                (reply_loaded startIndex st) Hh) as (new & Hn & P).
    eexists. split; [exact Hn|]. now exists new.
  - intros rb _. exists []. split; [|reflexivity].
    change (trace st) with (trace (reply_loaded startIndex st)).
    now rewrite set_trace_nil.
  - intros e. exists [Err e]. split; reflexivity.
  - now exists rb, new.
Qed.

(** X3.  A dispatcher that reports no bytes processed (a count of zero or
    less, which it passes on from the decoder even when negative) has done
    nothing but load the code bytes and, at most, log one error: no mirror,
    no handler, no clock reading, no time sync. *)
Theorem idle_dispatch_is_silent :
  forall (E : Env) (buf : list Z) (startIndex length : Z) (st : Task),
    (exists rb st',
       pioneerMessagesParse E buf startIndex length st = (Ret rb, st') /\
       (rb <= 0 ->
        st' = telemetry_loaded startIndex st \/
        exists e,
          st' = set_trace (trace st ++ [Err e])
                          (telemetry_loaded startIndex st))) /\
    (exists rb st',
       pioneerCommandRepliesParse E buf startIndex length st = (Ret rb, st') /\
       (rb <= 0 ->
        st' = reply_loaded startIndex st \/
        exists e,
          st' = set_trace (trace st ++ [Err e])
                          (reply_loaded startIndex st))).
Proof.
  intros E buf startIndex length st. split.
  - apply (pioneerMessagesParse_with E
             (fun rb st' =>
                rb <= 0 ->
                st' = telemetry_loaded startIndex st \/
                exists e,
                  st' = set_trace (trace st ++ [Err e])
                                  (telemetry_loaded startIndex st))).
    + intros t rb h Hrb Hh.
      destruct (telemetry_case E t h buf startIndex rb
                  (telemetry_loaded startIndex st) (handler_trace_ok h Hh))
        as (st' & new & Hn & _).
      exists st'. split; [exact Hn|]. intros; lia.
    + intros rb h Hrb Hh.
      destruct (plain_case_trace h buf startIndex rb
                  (telemetry_loaded startIndex st) Hh) as (new & Hn & _).
      eexists. split; [exact Hn|]. intros; lia.
    + intros rb _ _. now left.
    + intros e _. right. now exists e.
  - apply (pioneerCommandRepliesParse_with E
             (fun rb st' =>
                rb <= 0 ->
                st' = reply_loaded startIndex st \/
                exists e,
                  st' = set_trace (trace st ++ [Err e])
                                  (reply_loaded startIndex st))).
    + intros rb h Hrb Hh.
      destruct (plain_case_trace h buf startIndex rb
                  (reply_loaded startIndex st) Hh) as (new & Hn & _).
      eexists. split; [exact Hn|]. intros; lia.
    + intros rb _ _. now left.
    + intros e _. right. now exists e.
Qed.

(** ** Dispatching while the time-sync policy cannot fire *)

Lemma quiet_refl (st : Task) : quiet st st.
Proof.
  exists [], (ticks st), (reads st). split; [lia|]. split; [|reflexivity].
  destruct st. unfold set_reads, set_ticks, set_trace. simpl.
  now rewrite app_nil_r.
Qed.

Lemma quiet_trans (a b c : Task) : quiet a b -> quiet b c -> quiet a c.
Proof.
  intros (n1 & k1 & r1 & K1 & -> & P1) (n2 & k2 & r2 & K2 & -> & P2).
  exists (n1 ++ n2), k2, r2. simpl in K2. split; [lia|]. split.
  - unfold set_reads, set_ticks, set_trace. simpl. now rewrite app_assoc.
  - now rewrite forallb_app, P1, P2.
Qed.

Lemma time_sync_held_quiet (E : Env) (a b : Task) :
  quiet a b -> time_sync_held E a -> time_sync_held E b.
Proof.
  intros (n & k & r & K & -> & _) [H | [H | H]].
  - now left.
  - right. now left.
  - right. right. simpl. intros m Hm. apply H. lia.
Qed.

Lemma setPioneerTime_held (E : Env) (deviceMillis : Z) (st : Task) :
  time_sync_held E st ->
  exists n, (ticks st <= n)%nat /\
            setPioneerTime E deviceMillis st = (Ret tt, set_ticks n st).
Proof.
  intros H. unfold setPioneerTime. unfold_task. cbv beta iota zeta.
  assert (Same : (Ret tt, st) = (Ret tt, set_ticks (ticks st) st))
    by now destruct st.
  destruct (set_time_of_vehicle (m_args st)) eqn:F; task_simpl;
    [|exists (ticks st); split; [lia | exact Same]].
  destruct (listen_mode (m_args st)) eqn:L; task_simpl;
    [exists (ticks st); split; [lia | exact Same]|].
  destruct H as [H | [H | H]]; try congruence.
  rewrite (H (ticks st)) by lia.
  exists (S (ticks st)). split; [lia | reflexivity].
Qed.

Lemma pioneerMessagesParse_quiet (E : Env) (buf : list Z)
    (startIndex length : Z) (st : Task) :
  time_sync_held E st ->
  quiet st (snd (pioneerMessagesParse E buf startIndex length st)).
Proof.
  intros H.
  assert (Q0 : quiet st (telemetry_loaded startIndex st)).
  { exists [], (ticks st), (reads st ++ [startIndex; startIndex + 1]).
    split; [lia|]. split; [|reflexivity].
    destruct st. unfold telemetry_loaded, set_reads, set_ticks, set_trace.
    simpl. now rewrite app_nil_r. }
  assert (H0 : time_sync_held E (telemetry_loaded startIndex st))
    by (eapply time_sync_held_quiet; eassumption).
  destruct (pioneerMessagesParse_with E (fun _ st' => quiet st st')
              buf startIndex length st) as (rb & st' & R & Q).
  - intros t rb h Hrb Hh. unfold bind at 1.
    destruct (setPioneerTime_held E t _ H0) as (n & Hn & ->).
    destruct (plain_case_trace h buf startIndex rb
                (set_ticks n (telemetry_loaded startIndex st)) Hh)
      as (new & -> & P).
    eexists. split; [reflexivity|].
    exists new, n, (reads st ++ [startIndex; startIndex + 1]).
    simpl in Hn. split; [exact Hn|]. split; [reflexivity | exact P].
  - intros rb h Hrb Hh.
    destruct (plain_case_trace h buf startIndex rb
                (telemetry_loaded startIndex st) Hh) as (new & -> & P).
    eexists. split; [reflexivity|].
    exists new, (ticks st), (reads st ++ [startIndex; startIndex + 1]).
    split; [lia|]. split; [reflexivity | exact P].
  - intros rb _. exact Q0.
  - intros e.
    exists [Err e], (ticks st), (reads st ++ [startIndex; startIndex + 1]).
    split; [lia|]. split; reflexivity.
  - now rewrite R.
Qed.

Lemma dispatch_telemetry_quiet (E : Env) (frames : list Frame) :
  forall st, time_sync_held E st -> quiet st (dispatch_telemetry E frames st).
Proof.
  induction frames as [|f frames IH]; intros st H.
  - apply quiet_refl.
  - simpl.
    pose proof (pioneerMessagesParse_quiet E (frame_buf f) (frame_start f)
                  (frame_length f) st H) as Q1.
    eapply quiet_trans; [exact Q1|].
    apply IH. eapply time_sync_held_quiet; eassumption.
Qed.

Lemma quiet_no_outbound (a b : Task) :
  quiet a b ->
  socket_writes (trace b) = socket_writes (trace a) /\
  filter is_logger_write (trace b) = filter is_logger_write (trace a) /\
  m_last_set_time b = m_last_set_time a /\
  m_buf_send b = m_buf_send a /\
  m_watchdog_msg b = m_watchdog_msg a.
Proof.
  intros (new & n & r & _ & -> & P). simpl.
  assert (S0 : filter is_socket_write new = [] /\ filter is_logger_write new = []).
  { induction new as [|e new IH]; [now split|].
    simpl in P. apply andb_true_iff in P. destruct P as [Pe Pn].
    destruct (IH Pn) as [I1 I2]. unfold is_outbound in Pe.
    apply negb_true_iff, orb_false_iff in Pe. destruct Pe as [P1 P2].
    simpl. now rewrite P1, P2. }
  destruct S0 as [S1 S2].
  unfold socket_writes. rewrite !filter_app, S1, S2, !app_nil_r.
  repeat split.
Qed.

(** X4.  While the time-sync policy is held back (the time-set flag is
    off, or the task is in listen-only mode, or every clock reading still to
    come lies less than 5 s after the last recorded correction), any
    sequence of telemetry frames, whatever they decode to, leaves the socket
    and the raw loggers untouched: no command is written, and the correction
    timestamp, the send buffer and the watchdog instance stay as they
    were. *)
Theorem held_telemetry_never_sends :
  forall (E : Env) (frames : list Frame) (st : Task),
    time_sync_held E st ->
    let st' := dispatch_telemetry E frames st in
    socket_writes (trace st') = socket_writes (trace st) /\
    filter is_logger_write (trace st') = filter is_logger_write (trace st) /\
    m_last_set_time st' = m_last_set_time st /\
    m_buf_send st' = m_buf_send st /\
    m_watchdog_msg st' = m_watchdog_msg st.
Proof.
  intros E frames st H st'. apply quiet_no_outbound.
  now apply dispatch_telemetry_quiet.
Qed.

(** Two version-2 telemetry frames received in listen-only mode. *)
Lemma held_telemetry_never_sends_witness :
  let E := Sample.env (fun _ => 1000%Q) in
  let st := Sample.task (Sample.with_listen_mode true Sample.args) true in
  let f := {| frame_buf := sample_frame; frame_start := 0; frame_length := 7 |} in
  socket_writes (trace (dispatch_telemetry E [f; f] st)) = 0%nat.
Proof.
  intros E st f.
  apply (proj1 (held_telemetry_never_sends E [f; f] st
                  (or_intror (or_introl eq_refl)))).
Defined.

(** ** The device clock of a telemetry record *)

Lemma to_uint32_range (z : Z) : 0 <= to_uint32 z < 4294967296.
Proof. unfold to_uint32. apply Z.mod_pos_bound. reflexivity. Qed.

(** X5.  [setPioneerTime] takes the device clock as a 32-bit unsigned
    number of milliseconds.  Once the local clock reads 4294968.396 s or
    more since the epoch (about fifty days), the divergence from any such
    number exceeds 1100 ms: for every telemetry record the policy fires
    exactly when the time-set flag is on, listen-only mode is off and 5 s
    have passed since the last correction, whatever the record's clock. *)
Theorem device_clock_never_close :
  forall (E : Env) (deviceMillis : Z) (st : Task),
    (4294968396 # 1000 <= clock E (S (ticks st)))%Q ->
    time_sync_due E (to_uint32 deviceMillis) st =
      set_time_of_vehicle (m_args st)
      && negb (listen_mode (m_args st))
      && negb (Qltb (clock E (ticks st) - m_last_set_time st) 5).
Proof.
  intros E deviceMillis st H. unfold time_sync_due.
  assert (D : Qltb 1100 (Qabs (clock E (S (ticks st)) * 1000
                               - inject_Z (to_uint32 deviceMillis))) = true).
  { apply Qltb_lt.
    pose proof (to_uint32_range deviceMillis) as [_ U].
    assert (U' : (inject_Z (to_uint32 deviceMillis) <= 4294967295)%Q).
    { change 4294967295%Q with (inject_Z 4294967295).
      rewrite <- Zle_Qle. lia. }
    eapply Qlt_le_trans; [|apply Qle_Qabs]. lra. }
  rewrite D. apply andb_true_r.
Qed.

Lemma device_clock_never_close_witness :
  time_sync_due (Sample.env (fun _ => 1700000000%Q))
                (to_uint32 (time Sample.telemetry_v2))
                (Sample.task Sample.args true) = true.
Proof.
  rewrite (device_clock_never_close (Sample.env (fun _ => 1700000000%Q))
             (time Sample.telemetry_v2) (Sample.task Sample.args true)).
  - reflexivity.
  - vm_compute. discriminate.
Defined.

(** ** Footprint of the bus consumers *)

Lemma sent_from_fields (st st' : Task) (new : list Event) :
  sent_from st st' new ->
  m_args st' = m_args st /\ tcp_connected st' = tcp_connected st /\
  m_last_set_time st' = m_last_set_time st /\
  m_watchdog_msg st' = m_watchdog_msg st /\
  m_start_time st' = m_start_time st /\
  ticks st' = ticks st /\ reads st' = reads st /\
  trace st' = trace st ++ new.
Proof. intros [buf ->]. repeat split. Qed.

(** X6.  A heartbeat, whatever its source, never touches the
    configuration, the connection state or the time-sync timestamp and
    writes to the socket at most once.  In listen-only mode nothing is
    written or logged at all, although a heartbeat of this system on a
    connected channel still reads the clock and refreshes the duration held
    in the watchdog instance. *)
Theorem heartbeat_footprint :
  forall (E : Env) (source : Z) (st : Task),
    let st' := snd (consume_Heartbeat E source st) in
    fst (consume_Heartbeat E source st) = Ret tt /\
    m_args st' = m_args st /\
    tcp_connected st' = tcp_connected st /\
    m_last_set_time st' = m_last_set_time st /\
    (exists new, trace st' = trace st ++ new /\ (socket_writes new <= 1)%nat) /\
    (listen_mode (m_args st) = true ->
     trace st' = trace st /\
     (tcp_connected st = true -> source = system_id st ->
      st' = watchdog_refreshed E st)).
Proof.
  intros E source st st'.
  destruct (tcp_connected st && (source =? system_id st)) eqn:G.
  - apply andb_true_iff in G. destruct G as [HC Hs].
    apply Z.eqb_eq in Hs.
    assert (R : consume_Heartbeat E source st =
                (Ret tt,
                 snd (sendCommand E (pack_CmdVersion1Watchdog E)
                        (m_watchdog_msg (watchdog_refreshed E st))
                        (watchdog_refreshed E st))))
      by now apply consume_Heartbeat_own.
    subst st'. rewrite R. cbn [fst snd].
    destruct (sendCommand_sent_from E _ (pack_CmdVersion1Watchdog E)
                (m_watchdog_msg (watchdog_refreshed E st))
                (watchdog_refreshed E st))
      as (sd & new & _ & SF & W & _ & Sup).
    destruct (sent_from_fields _ _ _ SF)
      as (A & C & T & _ & _ & _ & _ & Tr).
    split; [reflexivity|]. split; [exact A|]. split; [exact C|].
    split; [exact T|]. split; [now exists new|].
    intros HL.
    destruct Sup as [_ Sup]; [left; exact HL|].
    rewrite Sup. split; [reflexivity|]. reflexivity.
  - subst st'. rewrite consume_Heartbeat_ignored by assumption.
    cbn [fst snd]. repeat split; try reflexivity.
    + exists []. rewrite app_nil_r. split; [reflexivity|].
      unfold socket_writes. simpl. lia.
    + intros HC Hs. subst source. rewrite HC, Z.eqb_refl in G. discriminate.
Qed.

Lemma heartbeat_footprint_witness :
  let E := Sample.env (fun n => inject_Z (1005 + Z.of_nat n)) in
  let st := Sample.task (Sample.with_listen_mode true Sample.args) true in
  trace (snd (consume_Heartbeat E 30 st)) = trace st /\
  m_watchdog_msg (snd (consume_Heartbeat E 30 st)) =
    {| connection_duration := 5 |}.
Proof.
  intros E st.
  destruct (heartbeat_footprint E 30 st) as (_ & _ & _ & _ & _ & H).
  destruct (H eq_refl) as [T W]. split; [exact T|].
  rewrite (W eq_refl eq_refl). reflexivity.
Defined.

Lemma consume_EstimatedState_run (E : Env) (G : Geodesy)
    (msg : EstimatedStateUpdate) (st : Task) :
  consume_EstimatedState E G msg st =
    if generate_estimate_state_from_telemetry (m_args st) then (Ret tt, st)
    else
      let p := WGS84_displace G (msg_x msg) (msg_y msg)
                              (msg_lat msg) (msg_lon msg) in
      (Ret tt,
       snd (sendCommand E (pack_CmdVersion1UserGeoLocation G)
              {| latitude := Angles_degrees G (Angles_normalizeRadian G (fst p));
                 longitude := Angles_degrees G (Angles_normalizeRadian G (snd p)) |}
              st)).
Proof.
  unfold consume_EstimatedState. unfold_task. cbv beta iota zeta.
  destruct (generate_estimate_state_from_telemetry (m_args st)); [reflexivity|].
  destruct (WGS84_displace G (msg_x msg) (msg_y msg) (msg_lat msg) (msg_lon msg))
    as [latRad lonRad]. cbn [fst snd].
  match goal with
  | |- context [sendCommand E ?p ?c ?s] =>
      destruct (sendCommand_returns E p c s) as [sd Hsd];
      destruct (sendCommand E p c s) as [r st']
  end.
  simpl in Hsd. subst r. reflexivity.
Qed.

(** X7.  A navigation-state update never raises and changes nothing of the
    task but the send buffer and the trace, with at most one socket write.
    It leaves the task exactly as it was when the synthetic-estimate mode is
    on, when the task is in listen-only mode, or when the reliable channel is
    Disconnected.  Otherwise, if the geolocation command serialises, its
    bytes are the one thing written to the socket. *)
Theorem geolocation_footprint :
  forall (E : Env) (G : Geodesy) (msg : EstimatedStateUpdate) (st : Task),
    let st' := snd (consume_EstimatedState E G msg st) in
    let p := WGS84_displace G (msg_x msg) (msg_y msg)
                            (msg_lat msg) (msg_lon msg) in
    let geo :=
      {| latitude := Angles_degrees G (Angles_normalizeRadian G (fst p));
         longitude := Angles_degrees G (Angles_normalizeRadian G (snd p)) |} in
    fst (consume_EstimatedState E G msg st) = Ret tt /\
    (exists new, sent_from st st' new /\ (socket_writes new <= 1)%nat) /\
    (generate_estimate_state_from_telemetry (m_args st) = true \/
     listen_mode (m_args st) = true \/ tcp_connected st = false ->
     st' = st) /\
    (generate_estimate_state_from_telemetry (m_args st) = false ->
     listen_mode (m_args st) = false -> tcp_connected st = true ->
     forall bytes,
       pack_CmdVersion1UserGeoLocation G geo = Ret bytes ->
       exists tail,
         trace st' = trace st ++ SocketWrite bytes :: tail /\
         socket_writes tail = 0%nat).
Proof.
  intros E G msg st st' p geo. subst st'.
  rewrite consume_EstimatedState_run. fold p. fold geo.
  destruct (generate_estimate_state_from_telemetry (m_args st)) eqn:Gen.
  - cbn [fst snd]. split; [reflexivity|]. split.
    { exists []. split.
      - exists (m_buf_send st). now rewrite set_buf_send_same, set_trace_nil.
      - unfold socket_writes. simpl. lia. }
    split; [reflexivity|]. discriminate.
  - cbv zeta. cbn [fst snd].
    destruct (sendCommand_sent_from E _ (pack_CmdVersion1UserGeoLocation G)
                geo st) as (sd & new & _ & SF & W & _ & Sup).
    split; [reflexivity|]. split; [now exists new|]. split.
    + intros [H | H]; [discriminate|]. now apply Sup.
    + intros _ HL HC bytes Hpk.
      destruct (sendCommand_writes E (pack_CmdVersion1UserGeoLocation G)
                  geo bytes st HL HC Hpk) as ((tail & T & F) & _).
      exists tail. split; [exact T|].
      unfold socket_writes. clear T.
      induction tail as [|e tail IH]; [reflexivity|].
      simpl in F. apply andb_true_iff in F. destruct F as [Fe Ft].
      apply negb_true_iff in Fe. simpl. rewrite Fe. now apply IH.
Qed.

Lemma geolocation_footprint_witness :
  let E := Sample.env (fun n => inject_Z (1005 + Z.of_nat n)) in
  let G := {| WGS84_displace := fun _ _ lat lon => (lat, lon);
              Angles_normalizeRadian := fun x => x;
              Angles_degrees := fun x => x;
              pack_CmdVersion1UserGeoLocation := fun _ => Ret [0x01; 0x47] |} in
  let msg := {| msg_lat := 0; msg_lon := 0; msg_x := 0; msg_y := 0 |}%R in
  let st := Sample.task Sample.args true in
  exists tail,
    trace (snd (consume_EstimatedState E G msg st)) =
      trace st ++ SocketWrite [0x01; 0x47] :: tail /\
    socket_writes tail = 0%nat.
Proof.
  intros E G msg st.
  pose proof (geolocation_footprint E G msg st) as H. cbv zeta in H.
  destruct H as (_ & _ & _ & H).
  apply (H eq_refl eq_refl eq_refl [0x01; 0x47] eq_refl).
Defined.

(** ** Connection lifecycle and logging control *)

(** Run a lifecycle function along every pattern of throwing calls. *)
Ltac life_run :=
  unfold closeConnectionTCP, closeConnectionUDP, life_try, life_bind,
    life_ret, call, note;
  repeat match goal with
         | |- context [match ?t ?n with Some _ => _ | None => _ end] =>
             destruct (t n)
         end;
  rewrite <- ?app_assoc; cbn [app].

(** All of a list but its last two elements. *)
Ltac but_last_two l k :=
  match l with
  | [_; _] => k (@nil Call)
  | ?x :: ?r => but_last_two r ltac:(fun p => k (x :: p))
  end.

Ltac ends_with_report :=
  match goal with
  | |- exists pre, ?l = _ =>
      but_last_two l ltac:(fun p => exists p; reflexivity)
  end.


(** X9.  [openConnectionUDP] never lets an exception escape and never
    calls into the reliable channel; either it makes exactly the calls of
    its script, or it ends by warning and by setting the entity state to a
    communication error. *)
Theorem openConnectionUDP_reports_failure :
  forall (throws : nat -> option string) (args : Arguments) (log : list Call),
    exists new,
      openConnectionUDP throws args log = (Ret tt, log ++ new) /\
      (new = [UDP_stop; UDP_disconnect; UDP_setUDPPort (UDP_listen_port args);
              UDP_connect; UDP_start;
              inf_line "Pioneer UDP interface initialized"] \/
       exists pre,
         new = pre ++ [war_line "Connection UDP failed, retrying...";
                       setEntityState ESTA_NORMAL CODE_COM_ERROR]) /\
      forallb (fun c => negb (is_tcp_call c)) new = true.
Proof.
  intros throws args log.
  unfold openConnectionUDP; life_run;
    (eexists; split; [reflexivity|]);
    (split; [|reflexivity]);
    first [ left; reflexivity | right; ends_with_report ].
Qed.

Lemma release_logger (throws : nat -> option string) (l : LoggerEnum)
    (log : list Call) :
  exists new,
    (life_bind
       (life_try
          (life_bind (call throws (Logger_stop l))
             (fun _ => life_try (call throws (Logger_join l))
                                (fun _ => life_ret tt)))
          (fun e => note (err_line e)))
       (fun _ => note (Logger_delete l))) log = (Ret tt, log ++ new) /\
    In (Logger_delete l) new.
Proof.
  life_run; (eexists; split; [reflexivity|]); simpl; tauto.
Qed.

Lemma release_loggers (throws : nat -> option string) (loggers : list LoggerEnum) :
  forall log,
    exists new,
      for_each loggers
        (fun l =>
           life_bind
             (life_try
                (life_bind (call throws (Logger_stop l))
                   (fun _ => life_try (call throws (Logger_join l))
                                      (fun _ => life_ret tt)))
                (fun e => note (err_line e)))
             (fun _ => note (Logger_delete l))) log = (Ret tt, log ++ new) /\
      forall l, In l loggers -> In (Logger_delete l) new.
Proof.
  induction loggers as [|l loggers IH]; intros log.
  - exists []. split; [unfold life_ret; simpl; now rewrite app_nil_r|].
    intros l [].
  - cbn [for_each]. unfold life_bind at 1.
    destruct (release_logger throws l log) as (b & -> & Hb).
    destruct (IH (log ++ b)) as (new & -> & Hn).
    exists (b ++ new). split; [now rewrite app_assoc|].
    intros x [<- | Hx]; apply in_or_app; [now left | right; now apply Hn].
Qed.

Lemma release_tcp (throws : nat -> option string) (log : list Call) :
  throws (List.length log) = None ->
  exists new,
    (life_bind (call throws TCP_stop)
       (fun _ =>
          life_bind (life_try (call throws TCP_join) (fun _ => life_ret tt))
                    (fun _ => note TCP_clear))) log = (Ret tt, log ++ new) /\
    In TCP_clear new.
Proof.
  intros H0. unfold life_bind at 1. unfold call at 1. rewrite H0.
  life_run; (eexists; split; [reflexivity|]); simpl; tauto.
Qed.

Lemma release_udp (throws : nat -> option string) (m_UDP_comm : bool)
    (log : list Call) :
  exists new,
    (if m_UDP_comm then
       life_bind
         (life_try
            (life_bind (call throws UDP_stop)
               (fun _ => life_try (call throws UDP_join)
                                  (fun _ => life_ret tt)))
            (fun e => note (err_line e)))
         (fun _ => note UDP_clear)
     else life_ret tt) log = (Ret tt, log ++ new) /\
    (m_UDP_comm = true -> In UDP_clear new).
Proof.
  destruct m_UDP_comm.
  - life_run; (eexists; split; [reflexivity|]); simpl; tauto.
  - exists []. unfold life_ret. rewrite app_nil_r.
    split; [reflexivity | discriminate].
Qed.

(** X11.  Provided stopping the reliable channel does not throw,
    [onResourceRelease] returns whatever else throws, and by then every
    object it was given has been released: both channels cleared, every
    logger of the map deleted, the map cleared last.  Stopping the reliable
    channel is the one unprotected call: when it throws, the exception
    escapes and nothing else is released. *)
Theorem onResourceRelease_releases_all :
  forall (throws : nat -> option string) (m_UDP_comm : bool)
         (loggers : list LoggerEnum) (log : list Call),
    (throws (List.length log) = None ->
     exists new,
       onResourceRelease throws true m_UDP_comm loggers log =
         (Ret tt, log ++ new ++ [Loggers_clear]) /\
       In TCP_clear new /\
       (m_UDP_comm = true -> In UDP_clear new) /\
       (forall l, In l loggers -> In (Logger_delete l) new)) /\
    (forall e,
       throws (List.length log) = Some e ->
       onResourceRelease throws true m_UDP_comm loggers log =
         (Raise e, log ++ [TCP_stop])).
Proof.
  intros throws udp loggers log. split.
  - intros H0. unfold onResourceRelease.
    unfold life_bind at 1.
    destruct (release_tcp throws log H0) as (a & -> & Ha).
    unfold life_bind at 1.
    destruct (release_udp throws udp (log ++ a)) as (b & -> & Hb).
    unfold life_bind at 1.
    destruct (release_loggers throws loggers ((log ++ a) ++ b))
      as (c & -> & Hc).
    unfold note. exists (a ++ b ++ c). split.
    + now rewrite <- !app_assoc.
    + split; [apply in_or_app; now left|].
      split.
      * intros Hu. apply in_or_app. right. apply in_or_app. left. now apply Hb.
      * intros l Hl. apply in_or_app. right. apply in_or_app. right.
        now apply Hc.
  - intros e H0. unfold onResourceRelease.
    unfold life_bind at 1. unfold life_bind at 1. unfold life_bind at 1.
    unfold call at 1. now rewrite H0.
Qed.

(** *** Runs of calls and their first failure *)

Lemma no_failure_S (throws : nat -> option string) (base n : nat) :
  no_failure throws base (S n) ->
  throws base = None /\ no_failure throws (S base) n.
Proof.
  intros H. split.
  - rewrite <- (Nat.add_0_r base). apply H. lia.
  - intros i Hi. replace (S base + i)%nat with (base + S i)%nat by lia.
    apply H. lia.
Qed.

Lemma first_failure_O (throws : nat -> option string) (base : nat)
    (e : string) :
  first_failure throws base 0 e -> throws base = Some e.
Proof. intros [_ H]. now rewrite Nat.add_0_r in H. Qed.

Lemma first_failure_S (throws : nat -> option string) (base k : nat)
    (e : string) :
  first_failure throws base (S k) e ->
  throws base = None /\ first_failure throws (S base) k e.
Proof.
  intros [H1 H2]. split; [|split].
  - rewrite <- (Nat.add_0_r base). apply H1. lia.
  - intros i Hi. replace (S base + i)%nat with (base + S i)%nat by lia.
    apply H1. lia.
  - now replace (S base + k)%nat with (base + S k)%nat by lia.
Qed.

(** Either no call of a run throws, or there is a first one that does. *)
Lemma failure_cases (throws : nat -> option string) (n : nat) :
  forall base,
    no_failure throws base n \/
    exists k e, (k < n)%nat /\ first_failure throws base k e.
Proof.
  induction n as [|n IH]; intros base.
  - left. intros i Hi. lia.
  - destruct (throws base) as [e|] eqn:T.
    + right. exists 0%nat, e. split; [lia|]. split.
      * intros i Hi. lia.
      * now rewrite Nat.add_0_r.
    + destruct (IH (S base)) as [H | (k & e & Hk & H1 & H2)].
      * left. intros i Hi. destruct i as [|i].
        -- now rewrite Nat.add_0_r.
        -- replace (base + S i)%nat with (S base + i)%nat by lia.
           apply H. lia.
      * right. exists (S k), e. split; [lia|]. split.
        -- intros i Hi. destruct i as [|i].
           ++ now rewrite Nat.add_0_r.
           ++ replace (base + S i)%nat with (S base + i)%nat by lia.
              apply H1. lia.
        -- now replace (base + S k)%nat with (S base + k)%nat by lia.
Qed.

Lemma snoc_length (log : list Call) (c : Call) :
  List.length (log ++ [c]) = S (List.length log).
Proof. rewrite length_app. simpl. lia. Qed.

Lemma call_all_ok (throws : nat -> option string) (cs : list Call) :
  forall log,
    no_failure throws (List.length log) (List.length cs) ->
    call_all throws cs log = (Ret tt, log ++ cs).
Proof.
  induction cs as [|c cs IH]; intros log H.
  - simpl. unfold life_ret. now rewrite app_nil_r.
  - cbn [call_all List.length] in *.
    apply no_failure_S in H. destruct H as [H0 H].
    unfold life_bind, call. rewrite H0.
    rewrite IH by (now rewrite snoc_length).
    now rewrite <- app_assoc.
Qed.

Lemma call_all_fail (throws : nat -> option string) (cs : list Call) :
  forall (k : nat) (e : string) (log : list Call),
    (k < List.length cs)%nat ->
    first_failure throws (List.length log) k e ->
    call_all throws cs log = (Raise e, log ++ firstn (S k) cs).
Proof.
  induction cs as [|c cs IH]; intros k e log Hk H; [simpl in Hk; lia|].
  cbn [call_all]. unfold life_bind, call.
  destruct k as [|k].
  - rewrite (first_failure_O _ _ _ H). reflexivity.
  - apply first_failure_S in H. destruct H as [H0 H]. rewrite H0.
    rewrite (IH k e) by (simpl in Hk; try lia; now rewrite snoc_length).
    now rewrite <- app_assoc.
Qed.

(** [for_each] over a body that makes one call is a run of calls. *)
Lemma for_each_calls (throws : nat -> option string)
    (f : LoggerEnum -> Call) (ls : list LoggerEnum) :
  forall log,
    for_each ls (fun l => call throws (f l)) log =
    call_all throws (map f ls) log.
Proof.
  induction ls as [|l ls IH]; intros log; [reflexivity|].
  cbn [for_each map call_all]. unfold life_bind.
  destruct (call throws (f l) log) as [[[]|e] log']; [apply IH | reflexivity].
Qed.

(** *** Opening and closing a connection *)

Lemma closeConnectionTCP_outcome (throws : nat -> option string)
    (log : list Call) :
  closeConnectionTCP throws true log =
    (Ret tt,
     log ++ TCP_disconnect :: TCP_close_report (throws (List.length log))).
Proof.
  unfold closeConnectionTCP, life_try, life_bind, call, note.
  destruct (throws (List.length log)); cbn [TCP_close_report];
    now rewrite <- ?app_assoc.
Qed.

Lemma closeConnectionUDP_outcome (throws : nat -> option string)
    (log : list Call) :
  closeConnectionUDP throws true log =
    (Ret tt,
     log ++ UDP_disconnect :: UDP_close_report (throws (List.length log))).
Proof.
  unfold closeConnectionUDP, life_try, life_bind, call, note.
  destruct (throws (List.length log)); cbn [UDP_close_report];
    now rewrite <- ?app_assoc.
Qed.

Lemma openConnectionTCP_as_calls (throws : nat -> option string)
    (args : Arguments) (log : list Call) :
  openConnectionTCP throws args log =
    match call_all throws (TCP_open_calls args) log with
    | (Ret _, log') => (Ret tt, log' ++ TCP_open_report args)
    | (Raise _, log') =>
        (Ret tt,
         log' ++ TCP_disconnect ::
           TCP_close_report (throws (List.length log')) ++
           [war_line "Connection TCP failed, retrying...";
            setEntityState ESTA_NORMAL CODE_COM_ERROR])
    end.
Proof.
  unfold openConnectionTCP, TCP_open_calls, TCP_open_report.
  destruct (listen_mode args); cbn [negb call_all];
    unfold closeConnectionTCP, life_try, life_bind, call, life_ret, note;
    repeat match goal with
           | |- context [match throws ?n with Some _ => _ | None => _ end] =>
               destruct (throws n) eqn:?
           end;
    cbn [TCP_close_report]; rewrite <- ?app_assoc; cbn [app];
    rewrite ?app_nil_r; reflexivity.
Qed.

Lemma openConnectionUDP_as_calls (throws : nat -> option string)
    (args : Arguments) (log : list Call) :
  openConnectionUDP throws args log =
    match call_all throws (UDP_open_calls args) log with
    | (Ret _, log') =>
        (Ret tt, log' ++ [inf_line "Pioneer UDP interface initialized"])
    | (Raise _, log') =>
        (Ret tt,
         log' ++ UDP_disconnect ::
           UDP_close_report (throws (List.length log')) ++
           [war_line "Connection UDP failed, retrying...";
            setEntityState ESTA_NORMAL CODE_COM_ERROR])
    end.
Proof.
  unfold openConnectionUDP, UDP_open_calls. cbn [call_all].
  unfold closeConnectionUDP, life_try, life_bind, call, life_ret, note;
    repeat match goal with
           | |- context [match throws ?n with Some _ => _ | None => _ end] =>
               destruct (throws n) eqn:?
           end;
    cbn [UDP_close_report]; rewrite <- ?app_assoc; cbn [app];
    rewrite ?app_nil_r; reflexivity.
Qed.

Lemma firstn_S_length (cs : list Call) (log : list Call) (k : nat) :
  (k < List.length cs)%nat ->
  List.length (log ++ firstn (S k) cs) = (List.length log + S k)%nat.
Proof.
  intros H. rewrite length_app, length_firstn. lia.
Qed.

Lemma openConnectionTCP_outcome (throws : nat -> option string)
    (args : Arguments) (log : list Call) :
  (no_failure throws (List.length log) (List.length (TCP_open_calls args)) ->
   openConnectionTCP throws args log =
     (Ret tt, log ++ TCP_open_calls args ++ TCP_open_report args)) /\
  (forall k e,
     (k < List.length (TCP_open_calls args))%nat ->
     first_failure throws (List.length log) k e ->
     openConnectionTCP throws args log =
       (Ret tt,
        log ++ firstn (S k) (TCP_open_calls args) ++
        TCP_disconnect ::
          TCP_close_report (throws (List.length log + S k)%nat) ++
          [war_line "Connection TCP failed, retrying...";
           setEntityState ESTA_NORMAL CODE_COM_ERROR])).
Proof.
  rewrite openConnectionTCP_as_calls. split.
  - intros H. rewrite call_all_ok by assumption. now rewrite <- app_assoc.
  - intros k e Hk H. rewrite (call_all_fail _ _ k e) by assumption.
    rewrite firstn_S_length by assumption. now rewrite <- app_assoc.
Qed.

Lemma openConnectionUDP_outcome (throws : nat -> option string)
    (args : Arguments) (log : list Call) :
  (no_failure throws (List.length log) (List.length (UDP_open_calls args)) ->
   openConnectionUDP throws args log =
     (Ret tt,
      log ++ UDP_open_calls args ++
      [inf_line "Pioneer UDP interface initialized"])) /\
  (forall k e,
     (k < List.length (UDP_open_calls args))%nat ->
     first_failure throws (List.length log) k e ->
     openConnectionUDP throws args log =
       (Ret tt,
        log ++ firstn (S k) (UDP_open_calls args) ++
        UDP_disconnect ::
          UDP_close_report (throws (List.length log + S k)%nat) ++
          [war_line "Connection UDP failed, retrying...";
           setEntityState ESTA_NORMAL CODE_COM_ERROR])).
Proof.
  rewrite openConnectionUDP_as_calls. split.
  - intros H. rewrite call_all_ok by assumption. now rewrite <- app_assoc.
  - intros k e Hk H. rewrite (call_all_fail _ _ k e) by assumption.
    rewrite firstn_S_length by assumption. now rewrite <- app_assoc.
Qed.

Lemma openConnectionTCP_returns (throws : nat -> option string)
    (args : Arguments) (log : list Call) :
  exists new, openConnectionTCP throws args log = (Ret tt, log ++ new).
Proof.
  destruct (openConnectionTCP_outcome throws args log) as [Ok Fail].
  destruct (failure_cases throws (List.length (TCP_open_calls args))
              (List.length log)) as [N | (k & e & Hk & F)].
  - eexists. exact (Ok N).
  - eexists. exact (Fail k e Hk F).
Qed.

(** X8.  [openConnectionTCP] never lets an exception escape, and what it
    does is fixed by the first of its calls into the channel that throws.
    When none throws it makes exactly the calls of its script (in
    listen-only mode the single stop; otherwise stop, disconnect, set
    address, set port, connect, start) and, outside listen-only mode, logs
    that the interface is initialized.  When the first [k] calls return and
    the next one throws, it makes no further call of the script: it
    disconnects, logs the outcome of that disconnect, and ends with the
    warning and the communication-error entity state.  Hence the receive
    worker is started only outside listen-only mode and only after a
    connect that returned. *)
Theorem openConnectionTCP_reports_failure :
  forall (throws : nat -> option string) (args : Arguments) (log : list Call),
    (no_failure throws (List.length log)
       (List.length (TCP_open_calls args)) ->
     openConnectionTCP throws args log =
       (Ret tt, log ++ TCP_open_calls args ++ TCP_open_report args)) /\
    (forall k e,
       (k < List.length (TCP_open_calls args))%nat ->
       first_failure throws (List.length log) k e ->
       openConnectionTCP throws args log =
         (Ret tt,
          log ++ firstn (S k) (TCP_open_calls args) ++
          TCP_disconnect ::
            TCP_close_report (throws (List.length log + S k)%nat) ++
            [war_line "Connection TCP failed, retrying...";
             setEntityState ESTA_NORMAL CODE_COM_ERROR])) /\
    (exists new,
       openConnectionTCP throws args log = (Ret tt, log ++ new) /\
       (In TCP_start new ->
        listen_mode args = false /\
        throws (List.length log + 4)%nat = None)).
Proof.
  intros throws args log.
  destruct (openConnectionTCP_outcome throws args log) as [Ok Fail].
  split; [exact Ok|]. split; [exact Fail|].
  destruct (failure_cases throws (List.length (TCP_open_calls args))
              (List.length log)) as [N | (k & e & Hk & F)].
  - eexists. split; [exact (Ok N)|].
    unfold TCP_open_calls, TCP_open_report in *.
    destruct (listen_mode args).
    + simpl. intros [H|[]]. discriminate.
    + intros _. split; [reflexivity|]. apply N. simpl. lia.
  - eexists. split; [exact (Fail k e Hk F)|].
    unfold TCP_open_calls in *.
    destruct (listen_mode args).
    + simpl in Hk. assert (k = 0)%nat by lia. subst k.
      destruct (throws (List.length log + 1)%nat); simpl;
        intuition discriminate.
    + intros HIn. split; [reflexivity|].
      destruct F as [F1 F2].
      assert (K : (k = 5)%nat \/ (k < 5)%nat) by (simpl in Hk; lia).
      destruct K as [-> | K]; [apply F1; lia|].
      exfalso.
      destruct (throws (List.length log + S k)%nat);
        destruct k as [|[|[|[|[|k]]]]]; try lia;
        simpl in HIn; intuition discriminate.
Qed.

Lemma openConnectionTCP_reports_failure_witness :
  openConnectionTCP
    (fun n => if (n =? 4)%nat then Some "refused"%string else None)
    Sample.args [] =
    (Ret tt,
     [TCP_stop; TCP_disconnect; TCP_setTCPAddr (TCP_addr Sample.args);
      TCP_setTCPPort (TCP_port Sample.args); TCP_connect;
      TCP_disconnect; inf_line "Pioneer TCP interface disconnected";
      war_line "Connection TCP failed, retrying...";
      setEntityState ESTA_NORMAL CODE_COM_ERROR]).
Proof.
  apply (proj1 (proj2 (openConnectionTCP_reports_failure
                         (fun n => if (n =? 4)%nat then Some "refused"%string
                                   else None)
                         Sample.args []))
               4%nat "refused"%string).
  - simpl. lia.
  - split; [|reflexivity].
    intros i Hi. destruct i as [|[|[|[|i]]]]; try reflexivity. lia.
Defined.

Lemma onUpdateParameters_as_calls (throws : nat -> option string)
    (args : Arguments) (m_TCP_comm m_UDP_comm : bool)
    (addr_changed port_changed listen_changed udp_port_changed : bool)
    (log : list Call) :
  onUpdateParameters throws args m_TCP_comm m_UDP_comm addr_changed
    port_changed listen_changed udp_port_changed log =
  call_all throws
    (update_calls args m_TCP_comm m_UDP_comm addr_changed port_changed
       listen_changed udp_port_changed) log.
Proof.
  unfold onUpdateParameters, update_calls.
  destruct m_TCP_comm, m_UDP_comm, addr_changed, port_changed,
    listen_changed, udp_port_changed, (listen_mode args);
    cbn [andb orb app call_all];
    unfold life_bind, call, life_ret;
    repeat match goal with
           | |- context [match throws ?n with Some _ => _ | None => _ end] =>
               destruct (throws n) eqn:?
           end;
    rewrite ?app_nil_r; reflexivity.
Qed.

(** X10.  What [onUpdateParameters] does is the run of its calls up to
    the first that throws, and nothing is caught.  The calls are: when the
    reliable channel exists and the TCP address, the TCP port or the listen
    mode changed, set address, set port and then disconnect (listen-only
    mode) or reconnect (otherwise); after them, when the connectionless
    channel exists and the UDP port changed, set port and reconnect.  When
    none throws the function returns after exactly these calls; when one
    throws, whichever it is, the exception escapes right after it and no
    later call is made.  In particular it makes no call when nothing
    changed. *)
Theorem onUpdateParameters_calls :
  forall (throws : nat -> option string) (args : Arguments)
         (m_TCP_comm m_UDP_comm : bool)
         (addr_changed port_changed listen_changed udp_port_changed : bool)
         (log : list Call),
    let calls := update_calls args m_TCP_comm m_UDP_comm addr_changed
                   port_changed listen_changed udp_port_changed in
    let r := onUpdateParameters throws args m_TCP_comm m_UDP_comm
               addr_changed port_changed listen_changed udp_port_changed
               log in
    (no_failure throws (List.length log) (List.length calls) ->
     r = (Ret tt, log ++ calls)) /\
    (forall k e,
       (k < List.length calls)%nat ->
       first_failure throws (List.length log) k e ->
       r = (Raise e, log ++ firstn (S k) calls)) /\
    (addr_changed || port_changed || listen_changed = false ->
     udp_port_changed = false ->
     r = (Ret tt, log)).
Proof.
  intros throws args tcp udp a p l u log calls r. subst calls r.
  rewrite onUpdateParameters_as_calls.
  split; [|split].
  - intros H. now apply call_all_ok.
  - intros k e Hk H. now apply call_all_fail.
  - intros Ht Hu. unfold update_calls. rewrite Ht, Hu, !andb_false_r.
    cbn [app call_all]. unfold life_ret. reflexivity.
Qed.

Lemma onUpdateParameters_calls_witness :
  onUpdateParameters
    (fun n => if (n =? 2)%nat then Some "unreachable"%string else None)
    Sample.args true true true false false true [] =
    (Raise "unreachable",
     [TCP_setTCPAddr (TCP_addr Sample.args);
      TCP_setTCPPort (TCP_port Sample.args); TCP_reconnect]).
Proof.
  apply (proj1 (proj2 (onUpdateParameters_calls
                         (fun n => if (n =? 2)%nat
                                   then Some "unreachable"%string else None)
                         Sample.args true true true false false true []))
               2%nat "unreachable"%string).
  - simpl. lia.
  - split; [|reflexivity].
    intros i Hi. destruct i as [|[|i]]; try reflexivity. lia.
Defined.

(** X12.  On a logging-start notice nothing is done unless raw logging is
    configured.  With raw logging, the loggers are started in the order
    telemetry, commands, replies: when no start throws, all three are
    started and the consumer returns; when the first [k] starts return and
    the next one throws [e], no later logger is started, [e] is logged as
    an error and the consumer returns all the same.  On a logging-stop
    notice the loggers are stopped in the same order whatever the
    configuration, and nothing is caught: when the first [k] stops return
    and the next one throws, the exception escapes right after it and the
    later loggers are not stopped.  Any other operation does nothing. *)
Theorem logging_control_calls :
  forall (throws : nat -> option string) (args : Arguments)
         (folder : string) (log : list Call),
    let starts := map (fun l => Logger_start l folder) m_loggers in
    let stops := map Logger_stop m_loggers in
    (log_pioneer_raw args = false ->
     consume_LoggingControl throws args COP_STARTED folder log =
       (Ret tt, log)) /\
    (log_pioneer_raw args = true ->
     no_failure throws (List.length log) (List.length starts) ->
     consume_LoggingControl throws args COP_STARTED folder log =
       (Ret tt, log ++ starts)) /\
    (log_pioneer_raw args = true ->
     forall k e,
       (k < List.length starts)%nat ->
       first_failure throws (List.length log) k e ->
       consume_LoggingControl throws args COP_STARTED folder log =
         (Ret tt, log ++ firstn (S k) starts ++ [err_line e])) /\
    (no_failure throws (List.length log) (List.length stops) ->
     consume_LoggingControl throws args COP_STOPPED folder log =
       (Ret tt, log ++ stops)) /\
    (forall k e,
       (k < List.length stops)%nat ->
       first_failure throws (List.length log) k e ->
       consume_LoggingControl throws args COP_STOPPED folder log =
         (Raise e, log ++ firstn (S k) stops)) /\
    consume_LoggingControl throws args COP_OTHER folder log = (Ret tt, log).
Proof.
  intros throws args folder log starts stops. subst starts stops.
  unfold consume_LoggingControl.
  split; [|split; [|split; [|split; [|split]]]].
  - intros ->. reflexivity.
  - intros -> H. unfold life_try. rewrite for_each_calls.
    now rewrite call_all_ok.
  - intros -> k e Hk H. unfold life_try. rewrite for_each_calls.
    rewrite (call_all_fail _ _ k e) by assumption.
    unfold note. now rewrite <- app_assoc.
  - intros H. rewrite for_each_calls. now apply call_all_ok.
  - intros k e Hk H. rewrite for_each_calls. now apply call_all_fail.
  - reflexivity.
Qed.

Lemma logging_control_calls_witness :
  consume_LoggingControl
    (fun n => if (n =? 1)%nat then Some "disk full"%string else None)
    Sample.args COP_STARTED "log" [] =
    (Ret tt,
     [Logger_start LOGGER_TELEMETRY "log"; Logger_start LOGGER_COMMANDS "log";
      err_line "disk full"]) /\
  consume_LoggingControl
    (fun n => if (n =? 1)%nat then Some "disk full"%string else None)
    Sample.args COP_STOPPED "log" [] =
    (Raise "disk full",
     [Logger_stop LOGGER_TELEMETRY; Logger_stop LOGGER_COMMANDS]).
Proof.
  pose proof (logging_control_calls
                (fun n => if (n =? 1)%nat then Some "disk full"%string
                          else None)
                Sample.args "log"%string []) as H.
  cbv zeta in H. destruct H as (_ & _ & Hstart & _ & Hstop & _).
  assert (F : first_failure
                (fun n => if (n =? 1)%nat then Some "disk full"%string
                          else None)
                (List.length (@nil Call)) 1 "disk full").
  { split; [|reflexivity].
    intros i Hi. destruct i as [|i]; [reflexivity | lia]. }
  split.
  - apply (Hstart eq_refl 1%nat "disk full"%string); [simpl; lia | exact F].
  - apply (Hstop 1%nat "disk full"%string); [simpl; lia | exact F].
Defined.

(** X13.  [onResourceAcquisition] constructs the three loggers and the two
    channels; a construction that throws is not caught, and nothing is
    constructed or opened after it.  When the five constructions return,
    the function returns whatever the channels throw afterwards: it opens
    the reliable channel and then, whatever became of that, goes through
    the whole of opening the connectionless one from the log the reliable
    channel left behind.  When none of the five calls into the
    connectionless channel throws it stops, disconnects, sets the port,
    connects and starts it and logs that the interface is initialized; when
    the first [k] return and the next one throws, it disconnects, logs the
    outcome of that disconnect and ends with the warning and the
    communication-error entity state. *)
Theorem acquisition_opens_both_channels :
  forall (throws : nat -> option string) (args : Arguments) (log : list Call),
    (forall k e,
       (k < List.length acquisition_calls)%nat ->
       first_failure throws (List.length log) k e ->
       onResourceAcquisition throws args log =
         (Raise e, log ++ firstn (S k) acquisition_calls)) /\
    (no_failure throws (List.length log) (List.length acquisition_calls) ->
     exists tcp,
       let opened := log ++ acquisition_calls ++ tcp in
       openConnectionTCP throws args (log ++ acquisition_calls) =
         (Ret tt, opened) /\
       (no_failure throws (List.length opened)
          (List.length (UDP_open_calls args)) ->
        onResourceAcquisition throws args log =
          (Ret tt,
           opened ++ UDP_open_calls args ++
           [inf_line "Pioneer UDP interface initialized"])) /\
       (forall k e,
          (k < List.length (UDP_open_calls args))%nat ->
          first_failure throws (List.length opened) k e ->
          onResourceAcquisition throws args log =
            (Ret tt,
             opened ++ firstn (S k) (UDP_open_calls args) ++
             UDP_disconnect ::
               UDP_close_report (throws (List.length opened + S k)%nat) ++
               [war_line "Connection UDP failed, retrying...";
                setEntityState ESTA_NORMAL CODE_COM_ERROR]))).
Proof.
  intros throws args log.
  assert (Shape : forall l,
    onResourceAcquisition throws args l =
      match call_all throws acquisition_calls l with
      | (Ret _, l') =>
          life_bind (openConnectionTCP throws args)
            (fun _ => openConnectionUDP throws args) l'
      | (Raise e, l') => (Raise e, l')
      end).
  { intros l. unfold onResourceAcquisition, acquisition_calls.
    cbn [call_all].
    unfold life_bind at 1 2 3 4 5 7 8 9 10 11, call, life_ret.
    repeat match goal with
           | |- context [match throws ?n with Some _ => _ | None => _ end] =>
               destruct (throws n) eqn:?
           end; reflexivity. }
  rewrite Shape. split.
  - intros k e Hk F. now rewrite (call_all_fail _ _ k e).
  - intros N. rewrite call_all_ok by assumption.
    destruct (openConnectionTCP_returns throws args (log ++ acquisition_calls))
      as (tcp & Ht).
    exists tcp. cbv zeta.
    rewrite <- app_assoc in Ht. split; [exact Ht|].
    unfold life_bind. rewrite Ht.
    destruct (openConnectionUDP_outcome throws args
                (log ++ acquisition_calls ++ tcp)) as [Ok Fail].
    split.
    + intros H. rewrite (Ok H). now rewrite <- !app_assoc.
    + intros k e Hk F. rewrite (Fail k e Hk F). now rewrite <- !app_assoc.
Qed.

Lemma acquisition_opens_both_channels_witness :
  onResourceAcquisition
    (fun n => if (n =? 9)%nat then Some "refused"%string else None)
    Sample.args [] =
    (Ret tt,
     acquisition_calls ++
     [TCP_stop; TCP_disconnect; TCP_setTCPAddr (TCP_addr Sample.args);
      TCP_setTCPPort (TCP_port Sample.args); TCP_connect;
      TCP_disconnect; inf_line "Pioneer TCP interface disconnected";
      war_line "Connection TCP failed, retrying...";
      setEntityState ESTA_NORMAL CODE_COM_ERROR] ++
     UDP_open_calls Sample.args ++
     [inf_line "Pioneer UDP interface initialized"]).
Proof.
  destruct (proj2 (acquisition_opens_both_channels
                     (fun n => if (n =? 9)%nat then Some "refused"%string
                               else None)
                     Sample.args []))
    as (tcp & Ht & Hok & _).
  { intros i Hi. simpl in Hi.
    destruct i as [|[|[|[|[|i]]]]]; try reflexivity. lia. }
  cbv zeta in Ht, Hok.
  assert (T : tcp =
    [TCP_stop; TCP_disconnect; TCP_setTCPAddr (TCP_addr Sample.args);
     TCP_setTCPPort (TCP_port Sample.args); TCP_connect;
     TCP_disconnect; inf_line "Pioneer TCP interface disconnected";
     war_line "Connection TCP failed, retrying...";
     setEntityState ESTA_NORMAL CODE_COM_ERROR]).
  { vm_compute in Ht. injection Ht as Ht. exact (eq_sym Ht). }
  subst tcp. apply Hok.
  intros i Hi. simpl in Hi.
  destruct i as [|[|[|[|[|i]]]]]; first [reflexivity | lia].
Defined.

Lemma onResourceRelease_releases_all_witness :
  exists new,
    onResourceRelease (fun n => if (n =? 0)%nat then None else Some "busy"%string)
      true true m_loggers [] =
      (Ret tt, [] ++ new ++ [Loggers_clear]) /\
    In TCP_clear new /\
    (true = true -> In UDP_clear new) /\
    (forall l, In l m_loggers -> In (Logger_delete l) new).
Proof.
  apply (proj1 (onResourceRelease_releases_all
                  (fun n => if (n =? 0)%nat then None else Some "busy"%string)
                  true m_loggers [])).
  reflexivity.
Defined.

(** ** DUNE.Utils.String *)

Section StringFacts.

Import DUNE_String.

Local Open Scope nat_scope.

Lemma ltrim_cons_blank c s : is_blank c = true -> ltrim (c :: s) = ltrim s.
Proof.
  unfold ltrim, is_blank. intros H. simpl find_first_not_of. rewrite H.
  destruct (find_first_not_of BLANK_CHARACTERS s); reflexivity.
Qed.

Lemma ltrim_cons_nonblank c s : is_blank c = false -> ltrim (c :: s) = c :: s.
Proof.
  unfold ltrim, is_blank. intros H. simpl find_first_not_of. now rewrite H.
Qed.

Lemma ltrim_split s :
  exists l, s = l ++ ltrim s /\ forallb is_blank l = true /\
            match ltrim s with [] => True | c :: _ => is_blank c = false end.
Proof.
  induction s as [|c s IH].
  - exists []. repeat split.
  - destruct (is_blank c) eqn:B.
    + rewrite ltrim_cons_blank by assumption.
      destruct IH as (l & E & F & H). exists (c :: l). simpl. rewrite B, F.
      repeat split; auto. now rewrite <- E.
    + rewrite ltrim_cons_nonblank by assumption.
      exists []. repeat split. assumption.
Qed.

Lemma rtrim_app_blank s c : is_blank c = true -> rtrim (s ++ [c]) = rtrim s.
Proof.
  unfold rtrim, is_blank. intros H.
  assert (G : find_last_not_of BLANK_CHARACTERS (s ++ [c]) = find_last_not_of BLANK_CHARACTERS s).
  { induction s as [|a s IH]; simpl.
    - now rewrite H.
    - rewrite IH. reflexivity. }
  rewrite G. destruct (find_last_not_of BLANK_CHARACTERS s) as [k|] eqn:K; [|reflexivity].
  assert (L : k < List.length s).
  { clear G. revert k K. induction s as [|a s IH]; simpl; intros k K; [discriminate|].
    destruct (find_last_not_of BLANK_CHARACTERS s) as [j|].
    - inversion K; subst. specialize (IH j eq_refl). lia.
    - destruct (char_in a BLANK_CHARACTERS); inversion K. lia. }
  rewrite firstn_app. replace (k + 1 - List.length s) with 0 by lia.
  simpl. now rewrite app_nil_r.
Qed.

Lemma rtrim_app_nonblank s c : is_blank c = false -> rtrim (s ++ [c]) = s ++ [c].
Proof.
  unfold rtrim, is_blank. intros H.
  assert (G : find_last_not_of BLANK_CHARACTERS (s ++ [c]) = Some (List.length s)).
  { induction s as [|a s IH]; simpl.
    - now rewrite H.
    - rewrite IH. reflexivity. }
  rewrite G. replace (List.length s + 1) with (List.length (s ++ [c])).
  - apply firstn_all.
  - rewrite length_app. reflexivity.
Qed.

Lemma rtrim_split s :
  exists r, s = rtrim s ++ r /\ forallb is_blank r = true /\
            (rtrim s = [] \/ exists t c, rtrim s = t ++ [c] /\ is_blank c = false).
Proof.
  induction s as [|c s IH] using rev_ind.
  - exists []. repeat split. now left.
  - destruct (is_blank c) eqn:B.
    + rewrite rtrim_app_blank by assumption.
      destruct IH as (r & E & F & H). exists (r ++ [c]).
      rewrite forallb_app, F. simpl. rewrite B.
      repeat split; auto. rewrite app_assoc, <- E. reflexivity.
    + rewrite rtrim_app_nonblank by assumption.
      exists []. rewrite app_nil_r. repeat split. right. now exists s, c.
Qed.

Lemma rtrim_keeps_head c s : is_blank c = false -> exists t, rtrim (c :: s) = c :: t.
Proof.
  intros B. destruct (rtrim_split (c :: s)) as (r & E & F & H).
  destruct (rtrim (c :: s)) as [|a t] eqn:R.
  - simpl in E. subst r. simpl in F. rewrite B in F. discriminate.
  - simpl in E. inversion E; subst. now exists t.
Qed.

Lemma trim_facts :
  forall s : list ascii,
    (exists l r,
       s = l ++ trim s ++ r /\
       forallb is_blank l = true /\ forallb is_blank r = true) /\
    (trim s = [] \/
     exists c t u d, trim s = c :: t /\ trim s = u ++ [d] /\
                  is_blank c = false /\ is_blank d = false) /\
    trim (trim s) = trim s.
Proof.
  intros s.
  destruct (ltrim_split s) as (l & El & Fl & Hl).
  destruct (rtrim_split (ltrim s)) as (r & Er & Fr & Hr).
  assert (Shape : trim s = [] \/
     exists c t u d, trim s = c :: t /\ trim s = u ++ [d] /\
                  is_blank c = false /\ is_blank d = false).
  { unfold trim. destruct Hr as [Hr | (u & d & Hu & Hd)]; [now left|].
    right. destruct (ltrim s) as [|c t] eqn:L.
    - destruct u; discriminate.
    - destruct (rtrim_keeps_head c t Hl) as (t' & Ht').
      exists c, t', u, d. repeat split; assumption. }
  split; [|split].
  - exists l, r. unfold trim. rewrite <- Er. repeat split; assumption.
  - exact Shape.
  - destruct Shape as [-> | (c & t & u & d & Hc & Hu & Bc & Bd)]; [reflexivity|].
    unfold trim at 1. rewrite Hc, ltrim_cons_nonblank, <- Hc by assumption.
    rewrite Hu at 1. rewrite rtrim_app_nonblank by assumption. now rewrite Hu.
Qed.

Lemma trim_idem (s : list ascii) : trim (trim s) = trim s.
Proof. apply trim_facts. Qed.

(** X14.  [trim] removes blanks (space, line feed, carriage return, tab)
    from both ends and nothing else: the text is the trimmed text between a
    run of blanks and another; the trimmed text is empty or begins and ends
    with a character that is not blank; trimming twice is trimming once. *)
Theorem trim_spec :
  forall s : list ascii,
    (exists l r,
       s = l ++ trim s ++ r /\
       forallb is_blank l = true /\ forallb is_blank r = true) /\
    (trim s = [] \/
     exists c t u d, trim s = c :: t /\ trim s = u ++ [d] /\
                  is_blank c = false /\ is_blank d = false) /\
    trim (trim s) = trim s.
Proof. exact trim_facts. Qed.

Lemma startsWith_loop_spec str prefix :
  forall n i, i + n = List.length prefix -> List.length prefix <= List.length str ->
    (startsWith_loop str prefix i n = true <->
     skipn i prefix = firstn n (skipn i str)).
Proof.
  induction n as [|n IH]; intros i Hi Hlen; simpl.
  - rewrite skipn_all2 by lia. tauto.
  - unfold char_at.
    assert (Hp : i < List.length prefix) by lia.
    assert (Hs : i < List.length str) by lia.
    destruct (skipn i prefix) as [|a p'] eqn:Ep.
    { apply (f_equal (@List.length ascii)) in Ep. rewrite length_skipn in Ep. simpl in Ep. lia. }
    destruct (skipn i str) as [|b s'] eqn:Es.
    { apply (f_equal (@List.length ascii)) in Es. rewrite length_skipn in Es. simpl in Es. lia. }
    assert (Na : nth i prefix zero = a).
    { rewrite <- (firstn_skipn i prefix) at 1. rewrite app_nth2; rewrite length_firstn, Nat.min_l by lia; [|lia].
      rewrite Nat.sub_diag, Ep. reflexivity. }
    assert (Nb : nth i str zero = b).
    { rewrite <- (firstn_skipn i str) at 1. rewrite app_nth2; rewrite length_firstn, Nat.min_l by lia; [|lia].
      rewrite Nat.sub_diag, Es. reflexivity. }
    rewrite Na, Nb.
    assert (Sp : skipn (S i) prefix = p').
    { replace (S i) with (1 + i) by lia. rewrite <- skipn_skipn, Ep. reflexivity. }
    assert (Ss : skipn (S i) str = s').
    { replace (S i) with (1 + i) by lia. rewrite <- skipn_skipn, Es. reflexivity. }
    simpl. destruct (Ascii.eqb a b) eqn:Eab; simpl.
    + apply Ascii.eqb_eq in Eab.
      rewrite IH by lia. rewrite Sp, Ss. simpl.
      split; intros H; [congruence | now inversion H].
    + split; [discriminate|]. intros H. simpl in H.
      assert (Hab : a = b) by congruence.
      rewrite Hab, Ascii.eqb_refl in Eab. discriminate.
Qed.

(** X15.  [startsWith] answers true exactly when the text is the prefix
    followed by something; in particular every text starts with the empty
    prefix and a prefix longer than the text is never found. *)
Theorem startsWith_iff_prefix :
  forall str prefix : list ascii,
    startsWith str prefix = true <-> exists rest, str = prefix ++ rest.
Proof.
  intros str prefix. unfold startsWith.
  destruct (List.length str <? List.length prefix) eqn:L.
  - apply Nat.ltb_lt in L. split; [discriminate|].
    intros [rest ->]. rewrite length_app in L. lia.
  - apply Nat.ltb_ge in L.
    rewrite startsWith_loop_spec by (simpl; lia). simpl.
    split.
    + intros H. exists (skipn (List.length prefix) str).
      transitivity (firstn (List.length prefix) str
                    ++ skipn (List.length prefix) str).
      * symmetry. apply firstn_skipn.
      * now rewrite <- H.
    + intros [rest ->]. rewrite firstn_app, firstn_all, Nat.sub_diag. simpl. now rewrite app_nil_r.
Qed.

Lemma matches_at_head_iff needle s :
  matches_at_head needle s = true <-> exists b, s = needle ++ b.
Proof.
  revert s. induction needle as [|a n IH]; intros s; simpl.
  - split; [intros _; now exists s | reflexivity].
  - destruct s as [|c s].
    + split; [discriminate | intros [b H]; discriminate].
    + rewrite andb_true_iff, Ascii.eqb_eq, IH. split.
      * intros [-> [b ->]]. now exists b.
      * intros [b H]. inversion H; subst. split; [reflexivity | now exists b].
Qed.

Lemma find_in_tail_some needle tail pos k :
  find_in_tail needle tail pos = Some k ->
  exists j, k = pos + j /\ occurs_at needle tail j /\
            forall j', j' < j -> ~ occurs_at needle tail j'.
Proof.
  revert pos k. induction tail as [|c tail IH]; intros pos k; simpl.
  - destruct (matches_at_head needle []) eqn:M; [|discriminate].
    intros H; inversion H; subst. exists 0. split; [lia|]. split.
    + apply matches_at_head_iff in M. destruct M as [b Hb].
      exists [], b. now split.
    + intros j' Hj. lia.
  - destruct (matches_at_head needle (c :: tail)) eqn:M.
    + intros H; inversion H; subst. exists 0. split; [lia|]. split.
      * apply matches_at_head_iff in M. destruct M as [b Hb].
        exists [], b. now split.
      * intros j' Hj. lia.
    + intros H. destruct (IH _ _ H) as (j & -> & (a & b & E & La) & Min).
      exists (S j). split; [lia|]. split.
      * exists (c :: a), b. simpl. rewrite E. split; [reflexivity | lia].
      * intros j' Hj (a' & b' & E' & La').
        destruct a' as [|c' a'].
        -- simpl in E'. assert (matches_at_head needle (c :: tail) = true)
             by (apply matches_at_head_iff; now exists b').
           congruence.
        -- simpl in E', La'. inversion E'; subst.
           apply (Min (List.length a')); [lia|]. now exists a', b'.
Qed.

Lemma find_in_tail_none needle tail pos :
  find_in_tail needle tail pos = None -> forall j, ~ occurs_at needle tail j.
Proof.
  revert pos. induction tail as [|c tail IH]; intros pos; simpl.
  - destruct (matches_at_head needle []) eqn:M; [discriminate|].
    intros _ j (a & b & E & La).
    destruct a; [|discriminate]. simpl in E.
    assert (matches_at_head needle [] = true) by (apply matches_at_head_iff; now exists b).
    congruence.
  - destruct (matches_at_head needle (c :: tail)) eqn:M; [discriminate|].
    intros H j (a & b & E & La).
    destruct a as [|c' a].
    + simpl in E. assert (matches_at_head needle (c :: tail) = true)
        by (apply matches_at_head_iff; now exists b).
      congruence.
    + simpl in E. inversion E; subst.
      apply (IH _ H (List.length a)). now exists a, b.
Qed.

(** X16.  [getRemaining] returns the text unchanged when the prefix
    does not occur in it, and otherwise what follows the first occurrence of
    the prefix, wherever in the text that occurrence is: the prefix need not
    stand at the start. *)
Theorem getRemaining_first_occurrence :
  forall prefix str : list ascii,
    ((forall a b, str <> a ++ prefix ++ b) -> getRemaining prefix str = str) /\
    (forall a b,
       str = a ++ prefix ++ b ->
       (forall a' b', str = a' ++ prefix ++ b' ->
                      List.length a <= List.length a') ->
       getRemaining prefix str = b).
Proof.
  intros prefix str. unfold getRemaining, find. simpl.
  destruct (find_in_tail prefix str 0) as [k|] eqn:F.
  - destruct (find_in_tail_some _ _ _ _ F) as (j & -> & (a0 & b0 & E0 & L0) & Min).
    simpl. split.
    + intros H. exfalso. now apply (H a0 b0).
    + intros a b E Hmin.
      assert (Lj : List.length a = j).
      { assert (j <= List.length a).
        { destruct (Nat.le_gt_cases j (List.length a)) as [|G]; [assumption|].
          exfalso. apply (Min _ G). now exists a, b. }
        specialize (Hmin a0 b0 E0). lia. }
      rewrite E. rewrite <- Lj.
      rewrite app_assoc. rewrite <- length_app.
      rewrite skipn_app, skipn_all, Nat.sub_diag. reflexivity.
  - split; [reflexivity|].
    intros a b E _. exfalso.
    apply (find_in_tail_none _ _ _ F (List.length a)). now exists a, b.
Qed.

Lemma unescape_escape_char c s all r :
  c <> backslash ->
  unescape s all = Ret r ->
  unescape (escape_char c ++ s) all = Ret (c :: r).
Proof.
  intros Hc Hs. unfold escape_char.
  destruct (Ascii.eqb c "010") eqn:E1.
  { apply Ascii.eqb_eq in E1. subst c. simpl. now rewrite Hs. }
  destruct (Ascii.eqb c "013") eqn:E2.
  { apply Ascii.eqb_eq in E2. subst c. simpl. now rewrite Hs. }
  destruct (Ascii.eqb c "009") eqn:E3.
  { apply Ascii.eqb_eq in E3. subst c. simpl. now rewrite Hs. }
  simpl. destruct (Ascii.eqb c "\") eqn:E4.
  { apply Ascii.eqb_eq in E4. contradiction. }
  now rewrite Hs.
Qed.

(** X17.  [unescape] undoes [escape] on every text without a
    backslash, in either unescaping mode.  ([escape] leaves a backslash as it
    is, so a text that holds one is outside the round trip.) *)
Theorem unescape_escape :
  forall (s : list ascii) (unescape_all : bool),
    ~ In backslash s ->
    unescape (escape s) unescape_all = Ret s.
Proof.
  induction s as [|c s IH]; intros all H; [reflexivity|].
  simpl escape. apply unescape_escape_char.
  - intros ->. apply H. now left.
  - apply IH. intros G. apply H. now right.
Qed.

(** X18.  The result of [escape] holds no line feed, no carriage
    return and no tab. *)
Theorem escape_no_control :
  forall (s : list ascii) (c : ascii),
    In c (escape s) ->
    c <> "010"%char /\ c <> "013"%char /\ c <> "009"%char.
Proof.
  induction s as [|a s IH]; intros c H; [contradiction|].
  simpl in H. apply in_app_or in H. destruct H as [H|H]; [|now apply IH].
  unfold escape_char in H.
  destruct (Ascii.eqb a "010") eqn:E1;
    [destruct H as [<-|[<-|[]]]; repeat split; discriminate|].
  destruct (Ascii.eqb a "013") eqn:E2;
    [destruct H as [<-|[<-|[]]]; repeat split; discriminate|].
  destruct (Ascii.eqb a "009") eqn:E3;
    [destruct H as [<-|[<-|[]]]; repeat split; discriminate|].
  destruct H as [<-|[]].
  apply Ascii.eqb_neq in E1, E2, E3. now repeat split.
Qed.

Lemma sscanf_format_02X c rest :
  sscanf_02X (format_02X c ++ rest) = Some (nat_of_ascii c).
Proof.
  destruct c as [[] [] [] [] [] [] [] []]; reflexivity.
Qed.

(** X19.  [toHex] writes two characters per byte, all of them digits or
    upper-case letters A to F, and [fromHex] reads the text back to the very
    bytes, whatever they are. *)
Theorem fromHex_toHex :
  forall s : list ascii,
    List.length (toHex s) = 2 * List.length s /\
    (forall c, In c (toHex s) -> In c (list_ascii_of_string "0123456789ABCDEF")) /\
    fromHex (toHex s) = Some s.
Proof.
  intros s.
  assert (L : List.length (toHex s) = 2 * List.length s).
  { induction s as [|c s IH]; simpl; [reflexivity|]. rewrite IH. lia. }
  split; [exact L|]. split.
  - clear L. induction s as [|a s IH]; intros c H; [contradiction|].
    simpl in H. destruct H as [<-|[<-|H]].
    + destruct a as [[] [] [] [] [] [] [] []]; simpl; tauto.
    + destruct a as [[] [] [] [] [] [] [] []]; simpl; tauto.
    + apply IH. exact H.
  - unfold fromHex. rewrite L.
    replace (2 * List.length s mod 2 =? 0) with true.
    2:{ symmetry. apply Nat.eqb_eq. rewrite Nat.mul_comm. apply Nat.Div0.mod_mul. }
    simpl. clear L. induction s as [|c s IH]; [reflexivity|].
    change (toHex (c :: s)) with (format_02X c ++ toHex s).
    unfold format_02X at 1. cbn [app fromHex_loop].
    change (hex_digit (nat_of_ascii c / 16) :: hex_digit (nat_of_ascii c mod 16) :: toHex s)
      with (format_02X c ++ toHex s).
    rewrite sscanf_format_02X, IH. now rewrite ascii_nat_embedding.
Qed.

Lemma last_char_snoc r c : last_char (r ++ [c]) = Some c.
Proof.
  unfold last_char. destruct (r ++ [c]) eqn:E.
  - destruct r; discriminate.
  - rewrite <- E. now rewrite last_last.
Qed.

Lemma filterDuplicates_loop_collapse e s :
  forall r prev,
    filterDuplicates_loop e s (r ++ [prev]) =
      Some (r ++ prev :: collapse_after e prev s).
Proof.
  induction s as [|c s IH]; intros r prev; simpl.
  - reflexivity.
  - rewrite last_char_snoc.
    destruct (Ascii.eqb c e) eqn:Ece; simpl.
    + apply Ascii.eqb_eq in Ece. subst c.
      rewrite (Ascii.eqb_sym e prev).
      destruct (Ascii.eqb prev e) eqn:Ep; simpl.
      * apply Ascii.eqb_eq in Ep. subst prev. apply IH.
      * rewrite IH. now rewrite <- app_assoc.
    + rewrite IH. now rewrite <- app_assoc.
Qed.

Lemma collapse_after_filter e prev s :
  filter (neq_char e) (collapse_after e prev s) = filter (neq_char e) s.
Proof.
  revert prev. induction s as [|c s IH]; intros prev; [reflexivity|].
  cbn [collapse_after filter].
  destruct (Ascii.eqb c e) eqn:Ece.
  - assert (N : neq_char e c = false) by (unfold neq_char; now rewrite Ece).
    rewrite N. destruct (Ascii.eqb prev e); cbn [andb filter]; rewrite ?N; apply IH.
  - assert (N : neq_char e c = true) by (unfold neq_char; now rewrite Ece).
    rewrite N. cbn [andb filter]. rewrite N. now rewrite IH.
Qed.

Lemma collapse_after_idem e prev s :
  collapse_after e prev (collapse_after e prev s) = collapse_after e prev s.
Proof.
  revert prev. induction s as [|c s IH]; intros prev; [reflexivity|].
  cbn [collapse_after].
  destruct (Ascii.eqb c e && Ascii.eqb prev e) eqn:E.
  - apply andb_true_iff in E. destruct E as [E1 E2].
    apply Ascii.eqb_eq in E1, E2. subst c prev. apply IH.
  - cbn [collapse_after]. rewrite E. now rewrite IH.
Qed.

Lemma collapse_after_no_pair e prev s a b :
  prev :: collapse_after e prev s <> a ++ e :: e :: b.
Proof.
  revert prev a b. induction s as [|c s IH]; intros prev a b; simpl.
  - intros H. destruct a as [|x a]; [discriminate|].
    inversion H. destruct a; discriminate.
  - destruct (Ascii.eqb c e && Ascii.eqb prev e) eqn:E.
    + apply andb_true_iff in E. destruct E as [E1 E2].
      apply Ascii.eqb_eq in E1, E2. subst c prev. apply IH.
    + intros H. destruct a as [|x a].
      * simpl in H. inversion H; subst.
        rewrite !Ascii.eqb_refl in E. discriminate.
      * simpl in H. inversion H; subst. now apply (IH c a b).
Qed.

(** X20.  On a subject that does not begin with the element,
    [filterDuplicates] returns a text in which the element never stands
    twice in a row, with every other character kept in place and order;
    filtering the result again changes nothing.  (A subject that begins
    with the element makes the function read before the start of its empty
    result.) *)
Theorem filterDuplicates_collapses_runs :
  forall (element : ascii) (subject : list ascii),
    (forall rest, subject <> element :: rest) ->
    exists result,
      filterDuplicates element subject = Some result /\
      (forall a b, result <> a ++ element :: element :: b) /\
      filter (neq_char element) result = filter (neq_char element) subject /\
      filterDuplicates element result = Some result.
Proof.
  intros e subject H.
  destruct subject as [|c s].
  - exists []. repeat split. intros a b G. destruct a; discriminate.
  - assert (Hc : Ascii.eqb c e = false).
    { apply Ascii.eqb_neq. intros ->. now apply (H s). }
    assert (R : forall t, filterDuplicates e (c :: t) = Some (c :: collapse_after e c t)).
    { intros t. unfold filterDuplicates. simpl. rewrite Hc.
      apply (filterDuplicates_loop_collapse e t [] c). }
    exists (c :: collapse_after e c s).
    split; [apply R|]. split; [|split].
    + intros a b. apply collapse_after_no_pair.
    + assert (N : neq_char e c = true) by (unfold neq_char; now rewrite Hc).
      cbn [filter]. rewrite N. now rewrite collapse_after_filter.
    + rewrite R. now rewrite collapse_after_idem.
Qed.

(** X21.  [replaceWhiteSpace] keeps the length of the text; when the
    replacement is itself neither a space nor a tab, the result holds
    neither, and replacing again changes nothing. *)
Theorem replaceWhiteSpace_clears :
  forall (str : list ascii) (rep : ascii),
    List.length (replaceWhiteSpace str rep) = List.length str /\
    (rep <> " "%char -> rep <> "009"%char ->
     (forall c, In c (replaceWhiteSpace str rep) ->
                c <> " "%char /\ c <> "009"%char) /\
     replaceWhiteSpace (replaceWhiteSpace str rep) rep =
       replaceWhiteSpace str rep).
Proof.
  intros str rep. unfold replaceWhiteSpace. split; [apply length_map|].
  intros H1 H2.
  assert (Hr : Ascii.eqb rep " " || Ascii.eqb rep "009" = false).
  { apply orb_false_iff. split; now apply Ascii.eqb_neq. }
  split.
  - intros c H. apply in_map_iff in H. destruct H as (x & <- & _).
    destruct (Ascii.eqb x " " || Ascii.eqb x "009") eqn:E.
    + now split.
    + apply orb_false_iff in E. destruct E as [E1 E2].
      split; now apply Ascii.eqb_neq.
  - rewrite map_map. apply map_ext. intros x.
    destruct (Ascii.eqb x " " || Ascii.eqb x "009") eqn:E.
    + now rewrite Hr.
    + now rewrite E.
Qed.

Lemma fields_no_sep c u : ~ In c u -> fields c u = [u].
Proof.
  induction u as [|a u IH]; intros H; simpl; [reflexivity|].
  destruct (Ascii.eqb a c) eqn:E.
  - apply Ascii.eqb_eq in E. subst a. exfalso. apply H. now left.
  - rewrite IH; [reflexivity|]. intros G. apply H. now right.
Qed.

Lemma fields_at_sep c u t : ~ In c u -> fields c (u ++ c :: t) = u :: fields c t.
Proof.
  induction u as [|a u IH]; intros H; simpl.
  - now rewrite Ascii.eqb_refl.
  - destruct (Ascii.eqb a c) eqn:E.
    + apply Ascii.eqb_eq in E. subst a. exfalso. apply H. now left.
    + rewrite IH; [reflexivity|]. intros G. apply H. now right.
Qed.

Lemma find_in_tail_char_none c u pos :
  ~ In c u -> find_in_tail [c] u pos = None.
Proof.
  revert pos. induction u as [|a u IH]; intros pos H; simpl; [reflexivity|].
  destruct (Ascii.eqb c a) eqn:E.
  - apply Ascii.eqb_eq in E. subst a. exfalso. apply H. now left.
  - simpl. apply IH. intros G. apply H. now right.
Qed.

Lemma find_in_tail_char_some c u t pos :
  ~ In c u -> find_in_tail [c] (u ++ c :: t) pos = Some (pos + List.length u).
Proof.
  revert pos. induction u as [|a u IH]; intros pos H; simpl.
  - rewrite Ascii.eqb_refl. simpl. f_equal. lia.
  - destruct (Ascii.eqb c a) eqn:E.
    + apply Ascii.eqb_eq in E. subst a. exfalso. apply H. now left.
    + simpl. rewrite IH; [f_equal; lia|]. intros G. apply H. now right.
Qed.

Lemma first_sep (c : ascii) (t : list ascii) :
  ~ In c t \/ exists u t', t = u ++ c :: t' /\ ~ In c u.
Proof.
  induction t as [|a t IH].
  - left. simpl. tauto.
  - destruct (Ascii.eqb a c) eqn:E.
    + apply Ascii.eqb_eq in E. subst a. right. exists [], t. split; [reflexivity|]. simpl. tauto.
    + apply Ascii.eqb_neq in E. destruct IH as [IH | (u & t' & -> & Hu)].
      * left. intros [G|G]; [congruence | contradiction].
      * right. exists (a :: u), t'. split; [reflexivity|].
        intros [G|G]; [congruence | contradiction].
Qed.

Lemma split_loop_char c p :
  forall n t fuel lst,
    List.length t <= n -> n < fuel ->
    split_loop fuel (p ++ t) [c] (List.length p) lst =
      Some (Ret tt, lst ++ map trim (fields c t)).
Proof.
  revert p. intros p n. revert p.
  induction n as [|n IH]; intros p t fuel lst Ht Hf.
  - destruct t; [|simpl in Ht; lia]. destruct fuel; [lia|].
    simpl split_loop. unfold find.
    rewrite app_nil_r.
    replace (List.length p <? List.length p) with false by (symmetry; apply Nat.ltb_irrefl).
    rewrite skipn_all. simpl. reflexivity.
  - destruct fuel as [|fuel]; [lia|].
    cbn [split_loop]. unfold find.
    assert (L : (List.length (p ++ t) <? List.length p) = false).
    { apply Nat.ltb_ge. rewrite length_app. lia. }
    rewrite L.
    assert (Sk : skipn (List.length p) (p ++ t) = t).
    { rewrite skipn_app, skipn_all, Nat.sub_diag. reflexivity. }
    rewrite Sk.
    destruct (first_sep c t) as [Hno | (u & t' & -> & Hu)].
    + rewrite find_in_tail_char_none by assumption.
      now rewrite fields_no_sep.
    + rewrite find_in_tail_char_some by assumption.
      replace (List.length p + List.length u - List.length p) with (List.length u) by lia.
      rewrite firstn_app, firstn_all, Nat.sub_diag. simpl firstn. rewrite app_nil_r.
      rewrite fields_at_sep by assumption. simpl map.
      replace (p ++ u ++ c :: t') with ((p ++ u ++ [c]) ++ t')
        by (rewrite <- !app_assoc; reflexivity).
      replace (List.length p + List.length u + 1) with (List.length (p ++ u ++ [c]))
        by (rewrite !length_app; simpl; lia).
      rewrite IH.
      * rewrite <- app_assoc. reflexivity.
      * rewrite length_app in Ht. simpl in Ht. lia.
      * lia.
Qed.

(** X22.  With a separator of one character, [split] appends to the
    list the fields of the text between the occurrences of that character,
    each trimmed, empty fields included, and returns; a text that is blank
    throughout adds nothing. *)
Theorem split_single_char :
  forall (s : list ascii) (c : ascii) (lst : list (list ascii)),
    (trim s = [] -> split s [c] lst = Some (Ret tt, lst)) /\
    (trim s <> [] ->
     split s [c] lst = Some (Ret tt, lst ++ map trim (fields c s))).
Proof.
  intros s c lst. unfold split. split.
  - intros ->. reflexivity.
  - intros H. destruct (trim s) eqn:T; [contradiction|].
    apply (split_loop_char c [] (List.length s) s); lia.
Qed.

Lemma split_loop_empty_sep s :
  forall k old_i fuel lst,
    old_i + k = List.length s + 1 -> k < fuel ->
    split_loop fuel s [] old_i lst =
      Some (Raise "basic_string::substr", lst ++ repeat [] k).
Proof.
  induction k as [|k IH]; intros old_i fuel lst Hk Hf.
  - destruct fuel; [lia|]. cbn [split_loop].
    replace (List.length s <? old_i) with true by (symmetry; apply Nat.ltb_lt; lia).
    simpl. now rewrite app_nil_r.
  - destruct fuel; [lia|]. cbn [split_loop]. unfold find.
    replace (List.length s <? old_i) with false by (symmetry; apply Nat.ltb_ge; lia).
    assert (F : find_in_tail [] (skipn old_i s) old_i = Some old_i).
    { destruct (skipn old_i s); reflexivity. }
    rewrite F. rewrite Nat.sub_diag. simpl firstn.
    change (trim []) with (@nil ascii).
    rewrite IH by lia.
    rewrite <- app_assoc. reflexivity.
Qed.

(** X23.  With an empty separator [split] never returns on a text
    that is not blank: it appends one empty string per position of the text,
    the end included, and then throws out of [substr]. *)
Theorem split_empty_separator_throws :
  forall (s : list ascii) (lst : list (list ascii)),
    trim s <> [] ->
    split s [] lst =
      Some (Raise "basic_string::substr",
            lst ++ repeat [] (List.length s + 1)).
Proof.
  intros s lst H. unfold split. destruct (trim s) eqn:T; [contradiction|].
  apply split_loop_empty_sep; lia.
Qed.

Lemma find_bounds (s sep : list ascii) (old_i n : nat) :
  sep <> [] ->
  find s sep old_i = Some n ->
  old_i <= n /\ n + 1 <= List.length s.
Proof.
  intros Hsep. unfold find.
  destruct (List.length s <? old_i) eqn:L; [discriminate|].
  apply Nat.ltb_ge in L. intros H.
  destruct (find_in_tail_some _ _ _ _ H) as (j & -> & (a & b & E & La) & _).
  apply (f_equal (@List.length ascii)) in E.
  rewrite length_skipn, !length_app in E.
  destruct sep as [|c sep]; [contradiction|]. simpl in E. lia.
Qed.

Lemma split_loop_returns (s sep : list ascii) :
  sep <> [] ->
  forall k old_i fuel lst,
    old_i <= List.length s ->
    List.length s < old_i + k -> k <= fuel ->
    exists pieces,
      split_loop fuel s sep old_i lst = Some (Ret tt, lst ++ pieces) /\
      pieces <> [] /\
      Forall (fun p => trim p = p) pieces.
Proof.
  intros Hsep. induction k as [|k IH]; intros old_i fuel lst Ho Hk Hf; [lia|].
  destruct fuel as [|fuel]; [lia|]. cbn [split_loop].
  replace (List.length s <? old_i) with false
    by (symmetry; apply Nat.ltb_ge; lia).
  destruct (find s sep old_i) as [n|] eqn:F.
  - destruct (find_bounds _ _ _ _ Hsep F) as [B1 B2].
    destruct (IH (n + 1)
                (fuel)
                (lst ++ [trim (firstn (n - old_i) (skipn old_i s))]))
      as (pieces & -> & _ & All); try lia.
    exists (trim (firstn (n - old_i) (skipn old_i s)) :: pieces).
    split; [now rewrite <- app_assoc|]. split; [discriminate|].
    constructor; [apply trim_idem | exact All].
  - exists [trim (skipn old_i s)]. split; [reflexivity|].
    split; [discriminate|].
    constructor; [apply trim_idem | constructor].
Qed.

(** X24.  With a separator that is not empty, of any length, [split]
    always returns: it only appends to the list, every piece it appends is
    trimmed, and it appends at least one piece unless the text is blank
    throughout, when it appends none. *)
Theorem split_nonempty_separator_returns :
  forall (s sep : list ascii) (lst : list (list ascii)),
    sep <> [] ->
    exists pieces,
      split s sep lst = Some (Ret tt, lst ++ pieces) /\
      Forall (fun p => trim p = p) pieces /\
      (pieces = [] <-> trim s = []).
Proof.
  intros s sep lst Hsep. unfold split.
  destruct (trim s) as [|c t] eqn:T.
  - exists []. rewrite app_nil_r. split; [reflexivity|].
    split; [constructor | tauto].
  - destruct (split_loop_returns s sep Hsep (List.length s + 1) 0
                (List.length s + 2) lst) as (pieces & -> & Ne & All);
      try lia.
    exists pieces. split; [reflexivity|]. split; [exact All|].
    split; [intros H; contradiction | discriminate].
Qed.

(** Instances on concrete texts. *)

Lemma unescape_escape_witness :
  unescape (escape ["a"; "010"; "009"; "b"]%char) true =
    Ret ["a"; "010"; "009"; "b"]%char.
Proof.
  apply (unescape_escape ["a"; "010"; "009"; "b"]%char true).
  unfold backslash.
  intros [H|[H|[H|[H|[]]]]]; discriminate.
Defined.

Lemma escape_no_control_witness :
  "n"%char <> "010"%char /\ "n"%char <> "013"%char /\ "n"%char <> "009"%char.
Proof.
  apply (escape_no_control ["010"%char] "n"%char).
  right. left. reflexivity.
Defined.

Lemma filterDuplicates_collapses_runs_witness :
  exists result,
    filterDuplicates "/" ["a"; "/"; "/"; "/"; "b"]%char = Some result /\
    (forall a b, result <> a ++ "/"%char :: "/"%char :: b) /\
    filter (neq_char "/") result =
      filter (neq_char "/") ["a"; "/"; "/"; "/"; "b"]%char /\
    filterDuplicates "/" result = Some result.
Proof.
  apply (filterDuplicates_collapses_runs "/" ["a"; "/"; "/"; "/"; "b"]%char).
  intros rest H. discriminate.
Defined.

Lemma getRemaining_first_occurrence_witness :
  getRemaining ["a"; "b"]%char ["x"; "a"; "b"; "y"; "a"; "b"; "z"]%char =
    ["y"; "a"; "b"; "z"]%char.
Proof.
  apply (proj2 (getRemaining_first_occurrence
                  ["a"; "b"]%char ["x"; "a"; "b"; "y"; "a"; "b"; "z"]%char)
               ["x"]%char ["y"; "a"; "b"; "z"]%char).
  - reflexivity.
  - intros a' b' H. destruct a' as [|c a']; [discriminate | simpl; lia].
Defined.

Lemma replaceWhiteSpace_clears_witness :
  (forall c, In c (replaceWhiteSpace ["a"; " "; "009"; "b"]%char "_") ->
             c <> " "%char /\ c <> "009"%char) /\
  replaceWhiteSpace (replaceWhiteSpace ["a"; " "; "009"; "b"]%char "_") "_" =
    replaceWhiteSpace ["a"; " "; "009"; "b"]%char "_".
Proof.
  apply (proj2 (replaceWhiteSpace_clears ["a"; " "; "009"; "b"]%char "_"));
    discriminate.
Defined.

Lemma split_single_char_witness :
  split ["a"; ","; " "; "b"; ","]%char [","%char] [] =
    Some (Ret tt, [["a"]; ["b"]; []]%char).
Proof.
  apply (proj2 (split_single_char ["a"; ","; " "; "b"; ","]%char ","%char [])).
  discriminate.
Defined.

Lemma split_empty_separator_throws_witness :
  split ["a"; "b"]%char [] [] =
    Some (Raise "basic_string::substr", [[]; []; []]).
Proof.
  apply (split_empty_separator_throws ["a"; "b"]%char []).
  discriminate.
Defined.

Lemma split_nonempty_separator_returns_witness :
  exists pieces,
    split ["a"; "-"; ">"; "b"]%char ["-"; ">"]%char [] =
      Some (Ret tt, [] ++ pieces) /\
    Forall (fun p => trim p = p) pieces /\
    (pieces = [] <-> trim ["a"; "-"; ">"; "b"]%char = []).
Proof.
  apply (split_nonempty_separator_returns
           ["a"; "-"; ">"; "b"]%char ["-"; ">"]%char []).
  discriminate.
Defined.

End StringFacts.

(** ** Sensors.SW100: the sentence reader *)

Section SW100Facts.

Local Open Scope Z_scope.

Variable Data : Type.
Variable sscanf4 : list ascii -> list ascii -> Data -> Z * Data.

Lemma length_update (v : ascii) (a : list ascii) :
  forall n : nat,
    (n < List.length a)%nat ->
    List.length (firstn n a ++ v :: skipn (S n) a) = List.length a.
Proof.
  induction a as [|x a IH]; intros n H; [simpl in H; lia|].
  destruct n as [|n]; [reflexivity|].
  simpl. f_equal. apply IH. simpl in H. lia.
Qed.

Lemma store_length (a : list ascii) (i : Z) (v : ascii) (a' : list ascii) :
  SW100.store a i v = Some a' -> List.length a' = List.length a.
Proof.
  unfold SW100.store. destruct ((0 <=? i) && (i <? Z.of_nat (List.length a))) eqn:B;
    [|discriminate].
  apply andb_true_iff in B. destruct B as [B1 B2].
  apply Z.leb_le in B1. apply Z.ltb_lt in B2.
  intros H. injection H as <-. apply length_update. lia.
Qed.

Lemma store_in_bounds (a : list ascii) (i : Z) (v : ascii) :
  0 <= i < Z.of_nat (List.length a) -> exists a', SW100.store a i v = Some a'.
Proof.
  intros [H1 H2]. unfold SW100.store.
  apply Z.leb_le in H1. apply Z.ltb_lt in H2. rewrite H1, H2. simpl.
  now eexists.
Qed.

Lemma read_char_in_bounds (c : ascii) (d : SW100.Driver Data) (result : bool) :
  SW100.index_in_bounds d ->
  exists result' d',
    SW100.read_char sscanf4 c d result = Some (result', d') /\
    SW100.index_in_bounds d' /\
    List.length (SW100.m_sentence d') = List.length (SW100.m_sentence d) /\
    SW100.m_expr d' = SW100.m_expr d.
Proof.
  intros B. unfold SW100.read_char.
  destruct (Ascii.eqb c "013").
  - destruct (store_in_bounds _ _ zero B) as (a' & Ha). rewrite Ha.
    pose proof (store_length _ _ _ _ Ha) as L.
    destruct (sscanf4 (SW100.c_str a') (SW100.m_expr d) (SW100.m_data d))
      as [n data].
    eexists. eexists. split; [reflexivity|].
    unfold SW100.index_in_bounds in *. simpl. rewrite L. repeat split; lia.
  - destruct (store_in_bounds _ _ c B) as (a' & Ha). rewrite Ha.
    pose proof (store_length _ _ _ _ Ha) as L.
    eexists. eexists. split; [reflexivity|].
    unfold SW100.index_in_bounds in *. simpl. rewrite L.
    destruct (SW100.m_sentence_idx d + 1 >=?
              Z.of_nat (List.length (SW100.m_sentence d))) eqn:G.
    + repeat split; lia.
    + assert (SW100.m_sentence_idx d + 1 <
              Z.of_nat (List.length (SW100.m_sentence d))).
      { unfold Z.geb in G.
        destruct (SW100.m_sentence_idx d + 1 ?=
                  Z.of_nat (List.length (SW100.m_sentence d))) eqn:C;
          try discriminate.
        now apply Z.compare_lt_iff. }
      repeat split; lia.
Qed.

Lemma read_loop_in_bounds (chunk : list ascii) :
  forall (d : SW100.Driver Data) (result : bool),
    SW100.index_in_bounds d ->
    exists result' d',
      SW100.read_loop sscanf4 chunk d result = Some (result', d') /\
      SW100.index_in_bounds d' /\
      List.length (SW100.m_sentence d') = List.length (SW100.m_sentence d) /\
      SW100.m_expr d' = SW100.m_expr d.
Proof.
  induction chunk as [|c chunk IH]; intros d result B.
  - exists result, d. split; [reflexivity|]. split; [exact B|].
    split; reflexivity.
  - simpl.
    destruct (read_char_in_bounds c d result B) as (r1 & d1 & -> & B1 & L1 & E1).
    destruct (IH d1 r1 B1) as (r2 & d2 & H2 & B2 & L2 & E2).
    exists r2, d2. split; [exact H2|]. split; [exact B2|].
    split; congruence.
Qed.

(** X25.  Started with its index inside the sentence buffer,
    [Driver::read] never writes outside the buffer, whatever bytes arrive and
    however long a sentence runs, and it leaves the index inside the buffer
    again; the size of the buffer and the scan format are unchanged. *)
Theorem read_stays_in_bounds :
  forall (bfr : list ascii) (rv : Z) (d : SW100.Driver Data),
    SW100.index_in_bounds d ->
    exists result d',
      SW100.read sscanf4 bfr rv d = Some (result, d') /\
      SW100.index_in_bounds d' /\
      List.length (SW100.m_sentence d') = List.length (SW100.m_sentence d) /\
      SW100.m_expr d' = SW100.m_expr d.
Proof.
  intros bfr rv d B. unfold SW100.read. now apply read_loop_in_bounds.
Qed.

Lemma read_loop_app (a b : list ascii) :
  forall (d : SW100.Driver Data) (result : bool),
    SW100.read_loop sscanf4 (a ++ b) d result =
      match SW100.read_loop sscanf4 a d result with
      | None => None
      | Some (r, d') => SW100.read_loop sscanf4 b d' r
      end.
Proof.
  induction a as [|c a IH]; intros d result; simpl; [reflexivity|].
  destruct (SW100.read_char sscanf4 c d result) as [[r1 d1]|];
    [apply IH | reflexivity].
Qed.

Lemma read_loop_flag (chunk : list ascii) :
  forall (d : SW100.Driver Data) (result r : bool) (d' : SW100.Driver Data),
    SW100.read_loop sscanf4 chunk d result = Some (r, d') ->
    exists found,
      r = result || found /\
      forall other,
        SW100.read_loop sscanf4 chunk d other = Some (other || found, d').
Proof.
  induction chunk as [|c chunk IH]; intros d result r d' H; simpl in *.
  - inversion H; subst. exists false. split; [now rewrite orb_false_r|].
    intros other. now rewrite orb_false_r.
  - unfold SW100.read_char in *.
    destruct (Ascii.eqb c "013").
    + destruct (SW100.store (SW100.m_sentence d) (SW100.m_sentence_idx d) zero)
        as [a'|]; [|discriminate].
      destruct (sscanf4 (SW100.c_str a') (SW100.m_expr d) (SW100.m_data d))
        as [n data].
      destruct (IH _ _ _ _ H) as (found & Hr & Hall).
      destruct (n =? 4).
      * exists true. split; [now rewrite orb_true_r|].
        intros other. rewrite orb_true_r.
        specialize (Hall true). now rewrite orb_true_l in Hall.
      * exists found. split; [exact Hr|]. intros other. apply Hall.
    + destruct (SW100.store (SW100.m_sentence d) (SW100.m_sentence_idx d) c)
        as [a'|]; [|discriminate].
      destruct (IH _ _ _ _ H) as (found & Hr & Hall).
      exists found. split; [exact Hr|]. intros other. apply Hall.
Qed.

(** X26.  How the stream cuts the bytes into reads does not matter:
    reading a chunk [a] and then a chunk [b] leaves the driver exactly as
    reading [a ++ b] at once, and the one long read reports a sentence
    exactly when one of the two short reads does. *)
Theorem read_chunks_compose :
  forall (a b : list ascii) (d d1 d2 : SW100.Driver Data) (r1 r2 : bool),
    SW100.read sscanf4 a (Z.of_nat (List.length a)) d = Some (r1, d1) ->
    SW100.read sscanf4 b (Z.of_nat (List.length b)) d1 = Some (r2, d2) ->
    SW100.read sscanf4 (a ++ b) (Z.of_nat (List.length (a ++ b))) d =
      Some (r1 || r2, d2).
Proof.
  intros a b d d1 d2 r1 r2. unfold SW100.read.
  rewrite !Nat2Z.id, !firstn_all. intros Ha Hb.
  rewrite read_loop_app, Ha.
  destruct (read_loop_flag _ _ _ _ _ Hb) as (found & Hr & Hall).
  simpl in Hr. subst r2. apply Hall.
Qed.

End SW100Facts.

Section SW100Sentences.

Local Open Scope Z_scope.

Variable Data : Type.
Variable sscanf4 : list ascii -> list ascii -> Data -> Z * Data.

Lemma firstn_length_app (p q : list ascii) :
  firstn (List.length p) (p ++ q) = p.
Proof.
  induction p as [|x p IH]; simpl; [now destruct q | now rewrite IH].
Qed.

Lemma skipn_past_app (p q : list ascii) (x : ascii) :
  skipn (S (List.length p)) (p ++ x :: q) = q.
Proof.
  induction p as [|y p IH]; [reflexivity | exact IH].
Qed.

Lemma store_app (p q : list ascii) (x v : ascii) :
  SW100.store (p ++ x :: q) (Z.of_nat (List.length p)) v = Some (p ++ v :: q).
Proof.
  unfold SW100.store.
  assert (B1 : (0 <=? Z.of_nat (List.length p)) = true) by (apply Z.leb_le; lia).
  assert (B2 : (Z.of_nat (List.length p) <?
                Z.of_nat (List.length (p ++ x :: q))) = true).
  { apply Z.ltb_lt. rewrite length_app. simpl. lia. }
  rewrite B1, B2. cbn [andb]. rewrite Nat2Z.id.
  now rewrite firstn_length_app, skipn_past_app.
Qed.

Lemma c_str_terminated (s rest : list ascii) :
  ~ In zero s -> SW100.c_str (s ++ zero :: rest) = s.
Proof.
  induction s as [|c s IH]; intros N; simpl.
  - reflexivity.
  - destruct (Ascii.eqb c zero) eqn:Z0.
    + apply Ascii.eqb_eq in Z0. exfalso. apply N. left. now symmetry.
    + f_equal. apply IH. intros I. apply N. now right.
Qed.

Lemma read_loop_copies (expr : list ascii) (data : Data) (s : list ascii) :
  forall (p q : list ascii) (result : bool),
    ~ In "013"%char s ->
    (List.length s < List.length q)%nat ->
    SW100.read_loop sscanf4 s
      {| SW100.m_sentence := p ++ q;
         SW100.m_sentence_idx := Z.of_nat (List.length p);
         SW100.m_expr := expr; SW100.m_data := data |} result =
    Some (result,
          {| SW100.m_sentence := p ++ s ++ skipn (List.length s) q;
             SW100.m_sentence_idx := Z.of_nat (List.length p + List.length s);
             SW100.m_expr := expr; SW100.m_data := data |}).
Proof.
  induction s as [|c s IH]; intros p q result N L.
  - simpl. now rewrite Nat.add_0_r.
  - destruct q as [|x q]; [simpl in L; lia|].
    cbn [SW100.read_loop]. unfold SW100.read_char.
    destruct (Ascii.eqb c "013") eqn:C.
    { apply Ascii.eqb_eq in C. exfalso. apply N. left. now symmetry. }
    cbn [SW100.m_sentence SW100.m_sentence_idx SW100.m_expr SW100.m_data].
    rewrite store_app.
    assert (G : (Z.of_nat (List.length p) + 1 >=?
                 Z.of_nat (List.length (p ++ x :: q))) = false).
    { rewrite length_app. simpl in *. unfold Z.geb.
      destruct (Z.of_nat (List.length p) + 1 ?=
                Z.of_nat (List.length p + S (List.length q))) eqn:Cmp;
        try reflexivity.
      - apply Z.compare_eq_iff in Cmp. lia.
      - apply Z.compare_gt_iff in Cmp. lia. }
    rewrite G.
    replace (Z.of_nat (List.length p) + 1)
      with (Z.of_nat (List.length (p ++ [c])))
      by (rewrite length_app; simpl; lia).
    replace (p ++ c :: q) with ((p ++ [c]) ++ q)
      by (now rewrite <- app_assoc).
    rewrite IH.
    + rewrite <- app_assoc, length_app. simpl.
      now rewrite <- Nat.add_assoc.
    + intros I. apply N. now right.
    + simpl in L. lia.
Qed.

(** X27.  A sentence that fits the buffer reaches [sscanf] exactly as it
    was received: with the index at the start of the buffer, a read that
    delivers the characters [s] (no carriage return, no terminator, fewer
    than the buffer holds) followed by a carriage return scans [s] itself
    with the format of the driver, reports a result exactly when four values
    were converted, and leaves the index at the start again. *)
Theorem sentence_reaches_sscanf :
  forall (s : list ascii) (d : SW100.Driver Data),
    SW100.m_sentence_idx d = 0 ->
    (List.length s < List.length (SW100.m_sentence d))%nat ->
    ~ In "013"%char s ->
    ~ In zero s ->
    SW100.read sscanf4 (s ++ ["013"%char]) (Z.of_nat (List.length s) + 1) d =
      Some (fst (sscanf4 s (SW100.m_expr d) (SW100.m_data d)) =? 4,
            {| SW100.m_sentence :=
                 s ++ zero :: skipn (S (List.length s)) (SW100.m_sentence d);
               SW100.m_sentence_idx := 0;
               SW100.m_expr := SW100.m_expr d;
               SW100.m_data :=
                 snd (sscanf4 s (SW100.m_expr d) (SW100.m_data d)) |}).
Proof.
  intros s [a idx expr data] I L NR NZ. simpl in I, L. subst idx.
  cbn [SW100.m_sentence SW100.m_expr SW100.m_data].
  unfold SW100.read.
  replace (Z.to_nat (Z.of_nat (List.length s) + 1))
    with (List.length (s ++ ["013"%char]))
    by (rewrite length_app; simpl; lia).
  rewrite firstn_all, read_loop_app.
  pose proof (read_loop_copies expr data s [] a false NR L) as Hcopy.
  cbn [app List.length Nat.add Z.of_nat] in Hcopy. rewrite Hcopy.
  cbn [SW100.read_loop]. unfold SW100.read_char.
  cbn [SW100.m_sentence SW100.m_sentence_idx SW100.m_expr SW100.m_data].
  change (Ascii.eqb "013" "013") with true. cbv iota.
  assert (Hskip : exists x, skipn (List.length s) a =
                            x :: skipn (S (List.length s)) a).
  { clear - L. revert a L.
    induction s as [|c s IH]; intros a L.
    - destruct a as [|x a]; [simpl in L; lia|]. now exists x.
    - destruct a as [|x a]; [simpl in L; lia|].
      simpl in L. apply (IH a). lia. }
  destruct Hskip as (x & ->).
  rewrite store_app, (c_str_terminated _ _ NZ).
  destruct (sscanf4 s expr data) as [n data'].
  cbn [fst snd]. now destruct (n =? 4).
Qed.

(** [stop_continuous_loop] in terms of the empty reads it meets. *)
Lemma empty_reads_nonneg (rvs : nat -> Z) (n : nat) :
  forall i, 0 <= SW100.empty_reads rvs i n.
Proof.
  induction n as [|n IH]; intros i; simpl; [lia|].
  specialize (IH (S i)). destruct (rvs i =? 0); lia.
Qed.

Lemma stop_continuous_loop_spec (rvs : nat -> Z) (n : nat) :
  forall (i : nat) (count : Z),
    0 <= count <= 10 ->
    (fst (SW100.stop_continuous_loop rvs n i count) = true <->
     11 <= count + SW100.empty_reads rvs i n) /\
    (fst (SW100.stop_continuous_loop rvs n i count) = true ->
     (i + Z.to_nat (11 - count) <=
      snd (SW100.stop_continuous_loop rvs n i count) <= i + n)%nat) /\
    (fst (SW100.stop_continuous_loop rvs n i count) = false ->
     snd (SW100.stop_continuous_loop rvs n i count) = (i + n)%nat).
Proof.
  induction n as [|n IH]; intros i count C.
  - simpl. split; [split; [discriminate | lia]|].
    split; [discriminate | intros _; lia].
  - cbn [SW100.stop_continuous_loop SW100.empty_reads].
    unfold SW100.READ_RETRIES.
    pose proof (empty_reads_nonneg rvs n (S i)) as P.
    destruct (rvs i =? 0).
    + destruct (count =? 10) eqn:T.
      * apply Z.eqb_eq in T. subst count. cbn [fst snd].
        split; [split; [lia | reflexivity]|].
        split; [intros _; simpl; lia | discriminate].
      * apply Z.eqb_neq in T.
        destruct (IH (S i) (count + 1)) as (I1 & I2 & I3); [lia|].
        split; [rewrite I1; lia|].
        split.
        -- intros H. specialize (I2 H).
           replace (Z.to_nat (11 - count))
             with (S (Z.to_nat (11 - (count + 1)))) by lia.
           lia.
        -- intros H. rewrite (I3 H). lia.
    + destruct (IH (S i) count C) as (I1 & I2 & I3).
      split; [rewrite I1; lia|].
      split.
      * intros H. specialize (I2 H). lia.
      * intros H. rewrite (I3 H). lia.
Qed.

Lemma stop_continuous_loop_stops (rvs : nat -> Z) (n : nat) :
  forall (i : nat) (count : Z),
    0 <= count <= 10 ->
    fst (SW100.stop_continuous_loop rvs n i count) = true ->
    exists m : nat,
      snd (SW100.stop_continuous_loop rvs n i count) = S (i + m) /\
      (m < n)%nat /\
      rvs (i + m)%nat = 0 /\
      count + SW100.empty_reads rvs i m = 10.
Proof.
  induction n as [|n IH]; intros i count C; [discriminate|].
  cbn [SW100.stop_continuous_loop]. unfold SW100.READ_RETRIES.
  destruct (rvs i =? 0) eqn:R.
  - destruct (count =? 10) eqn:T.
    + apply Z.eqb_eq in T. apply Z.eqb_eq in R. intros _.
      exists 0%nat. rewrite Nat.add_0_r. cbn [fst snd SW100.empty_reads].
      repeat split; [lia | exact R | lia].
    + apply Z.eqb_neq in T. intros H.
      destruct (IH (S i) (count + 1)) as (m & Hs & Hm & Hr & He);
        [lia | exact H |].
      exists (S m). cbn [SW100.empty_reads]. rewrite R.
      replace (i + S m)%nat with (S i + m)%nat by lia.
      repeat split; [exact Hs | lia | exact Hr | lia].
  - intros H.
    destruct (IH (S i) count) as (m & Hs & Hm & Hr & He);
      [lia | exact H |].
    exists (S m). cbn [SW100.empty_reads]. rewrite R.
    replace (i + S m)%nat with (S i + m)%nat by lia.
    repeat split; [exact Hs | lia | exact Hr | lia].
Qed.

End SW100Sentences.

(** X28.  The wait for silence at the start of [Driver::setup] passes
    exactly when at least eleven of its fifty reads return no data (one more
    than [READ_RETRIES]).  When it passes it stops reading at once: the last
    read it makes is the eleventh empty one, exactly ten empty reads having
    come before it, so it makes between eleven and fifty reads; when it does
    not pass it makes all fifty. *)
Theorem stop_continuous_needs_eleven_empty_reads :
  forall rvs : nat -> Z,
    (fst (SW100.stop_continuous rvs) = true <->
     (11 <= SW100.empty_reads rvs 0 50)%Z) /\
    (fst (SW100.stop_continuous rvs) = true ->
     11 <= snd (SW100.stop_continuous rvs) <= 50)%nat /\
    (fst (SW100.stop_continuous rvs) = false ->
     snd (SW100.stop_continuous rvs) = 50%nat) /\
    (fst (SW100.stop_continuous rvs) = true ->
     exists m : nat,
       snd (SW100.stop_continuous rvs) = S m /\
       (m < 50)%nat /\
       rvs m = 0%Z /\
       SW100.empty_reads rvs 0 m = 10%Z).
Proof.
  intros rvs.
  pose proof (stop_continuous_loop_stops rvs 50 0 0) as Stop.
  unfold SW100.stop_continuous.
  change (Z.to_nat (SW100.READ_RETRIES * 5)) with 50%nat.
  destruct (stop_continuous_loop_spec rvs 50 0 0) as (H1 & H2 & H3); [lia|].
  split; [exact H1|]. split; [|split; [exact H3|]].
  - intros H. specialize (H2 H). lia.
  - intros H. destruct Stop as (m & Hs & Hm & Hr & He); [lia | exact H |].
    exists m. repeat split; [exact Hs | exact Hm | exact Hr | lia].
Qed.

(** Instances: a buffer of eight characters and a scanner that converts
    four values from every sentence. *)

Lemma read_stays_in_bounds_witness :
  exists result d',
    SW100.read (fun _ _ (d : unit) => (4, d))
      ["1"; ","; "2"; ","; "3"; ","; "4"; ","; "5"; ","; "6"]%char 11
      {| SW100.m_sentence := repeat zero 8; SW100.m_sentence_idx := 7;
         SW100.m_expr := []; SW100.m_data := tt |} = Some (result, d') /\
    SW100.index_in_bounds d' /\
    List.length (SW100.m_sentence d') = 8%nat /\
    SW100.m_expr d' = [].
Proof.
  apply (read_stays_in_bounds unit (fun _ _ d => (4, d))
           ["1"; ","; "2"; ","; "3"; ","; "4"; ","; "5"; ","; "6"]%char 11
           {| SW100.m_sentence := repeat zero 8; SW100.m_sentence_idx := 7;
              SW100.m_expr := []; SW100.m_data := tt |}).
  unfold SW100.index_in_bounds. simpl. lia.
Defined.

Lemma read_chunks_compose_witness :
  SW100.read (fun _ _ (d : unit) => (4, d))
    (["a"; "b"] ++ ["c"; "013"])%char 4
    {| SW100.m_sentence := repeat zero 8; SW100.m_sentence_idx := 0;
       SW100.m_expr := []; SW100.m_data := tt |} =
    Some (false || true,
          {| SW100.m_sentence := ["a"; "b"; "c"]%char ++ repeat zero 5;
             SW100.m_sentence_idx := 0;
             SW100.m_expr := []; SW100.m_data := tt |}).
Proof.
  apply (read_chunks_compose unit (fun _ _ d => (4, d))
           ["a"; "b"]%char ["c"; "013"]%char
           {| SW100.m_sentence := repeat zero 8; SW100.m_sentence_idx := 0;
              SW100.m_expr := []; SW100.m_data := tt |}
           {| SW100.m_sentence := ["a"; "b"]%char ++ repeat zero 6;
              SW100.m_sentence_idx := 2;
              SW100.m_expr := []; SW100.m_data := tt |}
           {| SW100.m_sentence := ["a"; "b"; "c"]%char ++ repeat zero 5;
              SW100.m_sentence_idx := 0;
              SW100.m_expr := []; SW100.m_data := tt |}
           false true); reflexivity.
Defined.

Lemma sentence_reaches_sscanf_witness :
  SW100.read
    (fun s _ (d : list ascii) => (if (List.length s =? 3)%nat then 4 else 0, s))
    (["1"; ","; "2"] ++ ["013"])%char 4
    {| SW100.m_sentence := repeat "x"%char 8; SW100.m_sentence_idx := 0;
       SW100.m_expr := []; SW100.m_data := [] |} =
    Some (true,
          {| SW100.m_sentence :=
               ["1"; ","; "2"]%char ++ zero :: repeat "x"%char 4;
             SW100.m_sentence_idx := 0;
             SW100.m_expr := [];
             SW100.m_data := ["1"; ","; "2"]%char |}).
Proof.
  apply (sentence_reaches_sscanf (list ascii)
           (fun s _ d => (if (List.length s =? 3)%nat then 4 else 0, s))
           ["1"; ","; "2"]%char
           {| SW100.m_sentence := repeat "x"%char 8;
              SW100.m_sentence_idx := 0;
              SW100.m_expr := []; SW100.m_data := [] |}).
  - reflexivity.
  - simpl. lia.
  - intros [H|[H|[H|[]]]]; discriminate.
  - intros [H|[H|[H|[]]]]; discriminate.
Defined.

Lemma stop_continuous_needs_eleven_empty_reads_witness :
  fst (SW100.stop_continuous (fun i => if Nat.even i then 0 else 5)) = true /\
  exists m : nat,
    snd (SW100.stop_continuous (fun i => if Nat.even i then 0%Z else 5%Z)) =
      S m /\
    (m < 50)%nat /\
    (if Nat.even m then 0 else 5) = 0 /\
    SW100.empty_reads (fun i => if Nat.even i then 0 else 5) 0 m = 10.
Proof.
  pose proof (stop_continuous_needs_eleven_empty_reads
                (fun i => if Nat.even i then 0 else 5)) as (P & _ & _ & R).
  assert (H : fst (SW100.stop_continuous
                     (fun i => if Nat.even i then 0 else 5)) = true)
    by (apply P; vm_compute; discriminate).
  split; [exact H | exact (R H)].
Defined.
